(** * kr, the Kotlin renamer: the rename engine of [internal/renamer/class.go]

    A shallow embedding of the word-boundary matcher, the four context
    predicates, the single-pass rename driver and the parameter scope
    resolver, followed by the properties the specification states about
    them.

    Go strings are byte sequences: a buffer is a [list ascii], an index is a
    [nat], and the sentinel [-1] of the Go helpers is [None].  The only
    signed quantity of the source, the running [offset] of
    [renameParameters], is a [Z]. *)

From Stdlib Require Import Ascii String List Bool Arith ZArith Lia.
Import ListNotations.

Local Open Scope char_scope.
Local Open Scope list_scope.

(** ** Buffers *)

Definition buffer := list ascii.

(** A string literal as a buffer. *)
Definition bytes (s : string) : buffer := list_ascii_of_string s.

Definition beq (a b : buffer) : bool :=
  if list_eq_dec ascii_dec a b then true else false.

(** [s[a:b]] and the two one-sided slices. *)
Definition slice (s : buffer) (a b : nat) : buffer := firstn (b - a) (skipn a s).

Definition headByte (s : buffer) : option ascii :=
  match s with
  | [] => None
  | c :: _ => Some c
  end.

Fixpoint lastByte (s : buffer) : option ascii :=
  match s with
  | [] => None
  | [c] => Some c
  | _ :: r => lastByte r
  end.

(** ** Utilities of the source *)

(** [isIdentChar]: [a-z], [A-Z], [0-9] or [_]. *)
Definition isIdentChar (c : ascii) : bool :=
  let n := N_of_ascii c in
  ((97 <=? n) && (n <=? 122) || (65 <=? n) && (n <=? 90)
   || (48 <=? n) && (n <=? 57) || (n =? 95))%N.

(** [ValidateIdentifier]: the name matches [^[a-zA-Z_][a-zA-Z0-9_]*$];
    [true] stands for the [nil] error. *)
Definition isIdentStart (c : ascii) : bool :=
  let n := N_of_ascii c in
  ((97 <=? n) && (n <=? 122) || (65 <=? n) && (n <=? 90) || (n =? 95))%N.

Definition ValidateIdentifier (s : buffer) : bool :=
  match s with
  | [] => false
  | c :: r => isIdentStart c && forallb isIdentChar r
  end.

(** ** The [strings] helpers the source calls *)

Definition isBlank (c : ascii) : bool :=
  Ascii.eqb c " " || Ascii.eqb c "009".

Fixpoint dropWhile (f : ascii -> bool) (s : buffer) : buffer :=
  match s with
  | [] => []
  | c :: r => if f c then dropWhile f r else s
  end.

(** [strings.TrimLeft(s, " \t")] and [strings.TrimRight(s, " \t")]. *)
Definition TrimLeft (s : buffer) : buffer := dropWhile isBlank s.
Definition TrimRight (s : buffer) : buffer := rev (dropWhile isBlank (rev s)).

Fixpoint stripPrefix (p s : buffer) : option buffer :=
  match p with
  | [] => Some s
  | a :: p' =>
      match s with
      | [] => None
      | b :: s' => if Ascii.eqb a b then stripPrefix p' s' else None
      end
  end.

Definition HasPrefix (s p : buffer) : bool :=
  match stripPrefix p s with
  | Some _ => true
  | None => false
  end.

(** [strings.HasSuffix]. *)
Definition HasSuffix (s suf : buffer) : bool := HasPrefix (rev s) (rev suf).

(** [strings.Index(s, string(c))] for a one-byte needle. *)
Fixpoint IndexByte (s : buffer) (c : ascii) : option nat :=
  match s with
  | [] => None
  | b :: r =>
      if Ascii.eqb b c then Some 0
      else match IndexByte r c with
           | Some k => Some (S k)
           | None => None
           end
  end.

(** ** The regular expressions of the source

    The source builds three patterns: [\bNAME\b] (the matcher of
    [singlePassRename]), [\bfun\b] and [\bNAME\s*:] ([hasParamName]).
    [\b] is Go's ASCII word boundary: exactly one of the two neighbouring
    bytes is a word byte, the outside of the text counting as a non-word
    byte.  The literal is non-empty in every call the program makes
    ([ValidateIdentifier] rejects the empty name), and the functions below
    are the matcher for such literals. *)

Definition isWordOpt (c : option ascii) : bool :=
  match c with
  | Some c => isIdentChar c
  | None => false
  end.

Definition wordBoundary (prev next : option ascii) : bool :=
  xorb (isWordOpt prev) (isWordOpt next).

Definition lastOr (prev : option ascii) (p : buffer) : option ascii :=
  match lastByte p with
  | Some c => Some c
  | None => prev
  end.

(** Does [\bPAT\b] match at the head of [s], [prev] being the byte before? *)
Definition matchWordAt (pat : buffer) (prev : option ascii) (s : buffer) : bool :=
  wordBoundary prev (headByte s)
  && match stripPrefix pat s with
     | Some rest => wordBoundary (lastOr prev pat) (headByte rest)
     | None => false
     end.

(** Leftmost, non-overlapping matches, as [FindAllStringIndex(src, -1)]
    returns them: after a match the scan resumes at its end ([skip] counts
    the bytes of the match still to be passed). *)
Fixpoint scanWord (pat : buffer) (skip : nat) (prev : option ascii) (pos : nat)
    (s : buffer) : list (nat * nat) :=
  match s with
  | [] => []
  | c :: r =>
      match skip with
      | S k => scanWord pat k (Some c) (S pos) r
      | O =>
          if matchWordAt pat prev s
          then (pos, pos + length pat)
                 :: scanWord pat (pred (length pat)) (Some c) (S pos) r
          else scanWord pat 0 (Some c) (S pos) r
      end
  end.

Definition FindAllStringIndex (pat src : buffer) : list (nat * nat) :=
  scanWord pat 0 None 0 src.

(** [\s] of Go's regexp: tab, line feed, form feed, carriage return, space. *)
Definition isSpace (c : ascii) : bool :=
  let n := N_of_ascii c in
  ((n =? 9) || (n =? 10) || (n =? 12) || (n =? 13) || (n =? 32))%N.

(** Does [\bPAT\s*:] match at the head of [s]? *)
Definition matchParamAt (pat : buffer) (prev : option ascii) (s : buffer) : bool :=
  wordBoundary prev (headByte s)
  && match stripPrefix pat s with
     | Some rest =>
         match headByte (dropWhile isSpace rest) with
         | Some c => Ascii.eqb c ":"
         | None => false
         end
     | None => false
     end.

Fixpoint matchParamFrom (pat : buffer) (prev : option ascii) (s : buffer) : bool :=
  match s with
  | [] => false
  | c :: r => matchParamAt pat prev s || matchParamFrom pat (Some c) r
  end.

(** ** Context predicates *)

Definition endsWithIdent (pre : buffer) : bool := isWordOpt (lastByte pre).
Definition startsWithIdent (post : buffer) : bool := isWordOpt (headByte post).

Definition startsWith (post : buffer) (c : ascii) : bool :=
  match post with
  | [] => false
  | b :: _ => Ascii.eqb b c
  end.

(** [isClassContext]. *)
Definition isClassContext (src : buffer) (start end_ : nat) : bool :=
  let pre := firstn start src in
  let post := skipn end_ src in
  if endsWithIdent pre then false
  else if startsWithIdent post then false
  else true.

Record MethodRenamer := { MethodClassName : buffer }.
Record PropertyRenamer := { PropertyClassName : buffer }.

(** [MethodRenamer.isMethodContext]. *)
Definition isMethodContext (r : MethodRenamer) (src : buffer) (start end_ : nat) : bool :=
  let pre := firstn start src in
  let post := TrimLeft (skipn end_ src) in
  if endsWithIdent pre then false
  else if startsWithIdent post then false
  else
    let trimmedPre := TrimRight pre in
    if HasSuffix trimmedPre (bytes "::") then true
    else if HasSuffix trimmedPre (bytes "fun") then true
    else if startsWith post "(" then true
    else false.

(** [PropertyRenamer.isPropertyContext]. *)
Definition isPropertyContext (r : PropertyRenamer) (src : buffer) (start end_ : nat) : bool :=
  let pre := firstn start src in
  let post := TrimLeft (skipn end_ src) in
  if endsWithIdent pre then false
  else if startsWithIdent post then false
  else
    let trimmedPre := TrimRight pre in
    if HasSuffix trimmedPre (bytes ".") then true
    else if HasSuffix trimmedPre (bytes "val") || HasSuffix trimmedPre (bytes "var") then true
    else if startsWith post "=" && negb (startsWith (tl post) "=") then true
    else if startsWith post ":" then true
    else if negb (startsWith post "(") then true
    else false.

(** [isParameterContext]. *)
Definition isParameterContext (src : buffer) (start end_ : nat) : bool :=
  let pre := firstn start src in
  let post := skipn end_ src in
  if endsWithIdent pre then false
  else if startsWithIdent post then false
  else
    let trimPost := TrimLeft post in
    if startsWith trimPost "(" then false
    else true.

(** ** The core engine *)

Definition contextFn := buffer -> nat -> nat -> bool.

(** The loop of [singlePassRename] over the match locations: [buf] is the
    [strings.Builder], [last] the end of the last replaced span. *)
Fixpoint renameLoop (ctx : contextFn) (src newName : buffer) (locs : list (nat * nat))
    (buf : buffer) (last count : nat) : buffer * nat :=
  match locs with
  | [] => (buf ++ skipn last src, count)
  | (start, end_) :: rest =>
      if ctx src start end_
      then renameLoop ctx src newName rest
             (buf ++ slice src last start ++ newName) end_ (S count)
      else renameLoop ctx src newName rest buf last count
  end.

Definition singlePassRename (src oldName newName : buffer) (ctx : contextFn)
    : buffer * nat :=
  renameLoop ctx src newName (FindAllStringIndex oldName src) [] 0 0.

Definition ClassRename (content oldName newName : buffer) : buffer * nat :=
  singlePassRename content oldName newName isClassContext.

Definition MethodRename (r : MethodRenamer) (content oldName newName : buffer)
    : buffer * nat :=
  singlePassRename content oldName newName (isMethodContext r).

Definition PropertyRename (r : PropertyRenamer) (content oldName newName : buffer)
    : buffer * nat :=
  singlePassRename content oldName newName (isPropertyContext r).

(** ** Balanced delimiters *)

(** The loop shared by [findMatchingParen] and [findMatchingBrace]: [i] is
    the index of the head of [s]. *)
Fixpoint matchDelim (op cl : ascii) (s : buffer) (i : nat) (depth : Z) : option nat :=
  match s with
  | [] => None
  | c :: r =>
      if Ascii.eqb c op then matchDelim op cl r (S i) (depth + 1)
      else if Ascii.eqb c cl then
        if (depth - 1 =? 0)%Z then Some i
        else matchDelim op cl r (S i) (depth - 1)
      else matchDelim op cl r (S i) depth
  end.

Definition findMatchingParen (src : buffer) (open : nat) : option nat :=
  matchDelim "(" ")" (skipn open src) open 0.

Definition findMatchingBrace (src : buffer) (open : nat) : option nat :=
  matchDelim "{" "}" (skipn open src) open 0.

Definition isBodyGap (c : ascii) : bool :=
  let n := N_of_ascii c in
  ((n =? 32) || (n =? 9) || (n =? 10) || (n =? 13))%N.

Definition isTypeStop (c : ascii) : bool :=
  Ascii.eqb c "{" || Ascii.eqb c "=" || Ascii.eqb c "010".

(** [findFunctionBody]: [None] is the pair [(-1, -1)].  The two scanning
    loops of the source are the two [dropWhile]s; [i] is the index at which
    they stop. *)
Definition findFunctionBody (src : buffer) (afterParams : nat) : option (nat * nat) :=
  let rest := skipn afterParams src in
  let rest1 := dropWhile isBodyGap rest in
  let i1 := afterParams + (length rest - length rest1) in
  let rest2 := if startsWith rest1 ":" then dropWhile (fun c => negb (isTypeStop c)) rest1
               else rest1 in
  let i := i1 + (length rest1 - length rest2) in
  match rest2 with
  | [] => None
  | c :: _ =>
      if Ascii.eqb c "{" then
        match findMatchingBrace src i with
        | Some e => Some (i, e + 1)
        | None => None
        end
      else if Ascii.eqb c "=" then
        match IndexByte rest2 "010" with
        | Some lineEnd => Some (i, i + lineEnd + 1)
        | None => Some (i, length src)
        end
      else None
  end.

(** ** Parameter rename *)

Definition hasParamName (paramSection oldName : buffer) : bool :=
  matchParamFrom oldName None paramSection.

(** The variables of the loop of [renameParameters]. *)
Record ParamState := {
  result : buffer;
  offset : Z;
  total : nat
}.

(** One iteration of the loop, for the [fun] match at [loc] of the original
    buffer.  [None] is the run-time panic of [result[funStart:]] when
    [funStart] is not within [0 .. len(result)]; every other slice of the
    iteration is in range. *)
Definition paramStep (oldName newName : buffer) (st : ParamState) (loc : nat * nat)
    : option ParamState :=
  let funStart := (Z.of_nat (fst loc) + offset st)%Z in
  if (funStart <? 0)%Z || (Z.of_nat (length (result st)) <? funStart)%Z then None
  else
    let funStart := Z.to_nat funStart in
    match IndexByte (skipn funStart (result st)) "(" with
    | None => Some st
    | Some k =>
        let parenOpen := k + funStart in
        match findMatchingParen (result st) parenOpen with
        | None => Some st
        | Some parenClose =>
            let paramSection := slice (result st) parenOpen (parenClose + 1) in
            if negb (hasParamName paramSection oldName) then Some st
            else
              let bodyEnd :=
                match findFunctionBody (result st) (parenClose + 1) with
                | Some (_, bodyEnd) => bodyEnd
                | None => parenClose + 1
                end in
              let scopeContent := slice (result st) parenOpen bodyEnd in
              let '(renamed, n) :=
                singlePassRename scopeContent oldName newName isParameterContext in
              if (0 <? n)%nat then
                Some {| result := firstn parenOpen (result st) ++ renamed
                                    ++ skipn bodyEnd (result st);
                        offset := offset st + Z.of_nat (length renamed)
                                  - Z.of_nat (length scopeContent);
                        total := total st + n |}
              else Some st
        end
    end.

Fixpoint paramLoop (oldName newName : buffer) (locs : list (nat * nat))
    (st : ParamState) : option ParamState :=
  match locs with
  | [] => Some st
  | loc :: rest =>
      match paramStep oldName newName st loc with
      | Some st' => paramLoop oldName newName rest st'
      | None => None
      end
  end.

Definition renameParameters (src oldName newName : buffer) : option (buffer * nat) :=
  match paramLoop oldName newName (FindAllStringIndex (bytes "fun") src)
          {| result := src; offset := 0; total := 0 |} with
  | Some st => Some (result st, total st)
  | None => None
  end.

Definition ParameterRename (content oldName newName : buffer) : option (buffer * nat) :=
  renameParameters content oldName newName.

(** ** The command layer: [buildRenameFn] of [cmd/rename.go] *)

(** The validated [--type] values; [class], [interface] and [object] share
    one branch. *)
Inductive SymbolKind := KType | KFunction | KProperty | KParameter.

Definition buildRenameFn (symType : SymbolKind) (renameClass oldName newName : buffer)
    (content : buffer) : option (buffer * nat) :=
  match symType with
  | KType => Some (ClassRename content oldName newName)
  | KFunction =>
      Some (MethodRename {| MethodClassName := renameClass |} content oldName newName)
  | KProperty =>
      Some (PropertyRename {| PropertyClassName := renameClass |} content oldName newName)
  | KParameter => ParameterRename content oldName newName
  end.

(** ** Identifier runs

    The glossary of the specification defines an occurrence as a maximal run
    of identifier bytes equal to the target.  [lex] cuts a buffer into its
    maximal identifier runs ([Word]) and the bytes between them ([Sep]). *)

Inductive item :=
| Sep (c : ascii)
| Word (w : buffer).

Fixpoint lex (s : buffer) : list item :=
  match s with
  | [] => []
  | c :: r =>
      if isIdentChar c then
        match lex r with
        | Word w :: l => Word (c :: w) :: l
        | l => Word [c] :: l
        end
      else Sep c :: lex r
  end.

Definition itemText (i : item) : buffer :=
  match i with
  | Sep c => [c]
  | Word w => w
  end.

Fixpoint unlex (l : list item) : buffer :=
  match l with
  | [] => []
  | i :: r => itemText i ++ unlex r
  end.

(** The identifier runs of a buffer, in order. *)
Fixpoint wordsOf (l : list item) : list buffer :=
  match l with
  | [] => []
  | Sep _ :: r => wordsOf r
  | Word w :: r => w :: wordsOf r
  end.

Definition words (s : buffer) : list buffer := wordsOf (lex s).

Definition isWordItem (i : item) : bool :=
  match i with
  | Word _ => true
  | Sep _ => false
  end.

Definition startsWithWord (l : list item) : bool :=
  match l with
  | i :: _ => isWordItem i
  | [] => false
  end.

(** Item lists that [lex] can produce. *)
Definition goodItem (i : item) : bool :=
  match i with
  | Sep c => negb (isIdentChar c)
  | Word w => negb (beq w []) && forallb isIdentChar w
  end.

Fixpoint wfItems (l : list item) : bool :=
  match l with
  | [] => true
  | i :: r => goodItem i && negb (isWordItem i && startsWithWord r) && wfItems r
  end.

(** ** The rename, run by run

    What the specification says the driver computes: every run equal to the
    target whose span the predicate accepts becomes [newName]; everything
    else is copied. *)

Definition accepted (ctx : contextFn) (src oldName : buffer) (pos : nat) (w : buffer) : bool :=
  beq w oldName && ctx src pos (pos + length w).

Fixpoint renameItems (ctx : contextFn) (src oldName newName : buffer) (pos : nat)
    (l : list item) : list item :=
  match l with
  | [] => []
  | Sep c :: r => Sep c :: renameItems ctx src oldName newName (S pos) r
  | Word w :: r =>
      Word (if accepted ctx src oldName pos w then newName else w)
        :: renameItems ctx src oldName newName (pos + length w) r
  end.

Fixpoint countItems (ctx : contextFn) (src oldName : buffer) (pos : nat)
    (l : list item) : nat :=
  match l with
  | [] => 0
  | Sep c :: r => countItems ctx src oldName (S pos) r
  | Word w :: r =>
      (if accepted ctx src oldName pos w then 1 else 0)
      + countItems ctx src oldName (pos + length w) r
  end.

(** The spans of the runs equal to the target. *)
Fixpoint wordLocs (oldName : buffer) (pos : nat) (l : list item) : list (nat * nat) :=
  match l with
  | [] => []
  | Sep c :: r => wordLocs oldName (S pos) r
  | Word w :: r =>
      if beq w oldName
      then (pos, pos + length oldName) :: wordLocs oldName (pos + length w) r
      else wordLocs oldName (pos + length w) r
  end.

(** ** Notions used by the statements *)


(** How a run of the output relates to the run of the input at the same
    place: it is the same run, or the target replaced by the new name. *)
Definition renamedWord (oldName newName w w' : buffer) : Prop :=
  w' = w \/ (w = oldName /\ w' = newName).

(** The depth counter of [findMatchingParen] after a text: opening minus
    closing parentheses. *)
Fixpoint parenDepth (s : buffer) : Z :=
  match s with
  | [] => 0
  | c :: r =>
      ((if Ascii.eqb c "(" then 1 else if Ascii.eqb c ")" then -1 else 0)
       + parenDepth r)%Z
  end.

(** Each predicate looks at the text before the span and at the text after
    it, and at nothing else. *)
Definition ctxPred := buffer -> buffer -> bool.

Definition classP : ctxPred := fun pre post =>
  negb (endsWithIdent pre) && negb (startsWithIdent post).

Definition methodP : ctxPred := fun pre post =>
  negb (endsWithIdent pre)
  && negb (startsWithIdent (TrimLeft post))
  && (HasSuffix (TrimRight pre) (bytes "::")
      || HasSuffix (TrimRight pre) (bytes "fun")
      || startsWith (TrimLeft post) "(").

Definition propertyP : ctxPred := fun pre post =>
  negb (endsWithIdent pre)
  && negb (startsWithIdent (TrimLeft post))
  && (HasSuffix (TrimRight pre) (bytes ".")
      || HasSuffix (TrimRight pre) (bytes "val")
      || HasSuffix (TrimRight pre) (bytes "var")
      || negb (startsWith (TrimLeft post) "(")).

(** [ctx] is the predicate [P] on the two sides of the span. *)
Definition twoSided (ctx : contextFn) (P : ctxPred) : Prop :=
  forall src s e, ctx src s e = P (firstn s src) (skipn e src).

(** The rename of a list of items that stands between the text [before]
    and the text [suffix]. *)
Fixpoint rwItems (P : ctxPred) (oldName newName before : buffer) (l : list item)
    (suffix : buffer) : list item :=
  match l with
  | [] => []
  | Sep c :: r => Sep c :: rwItems P oldName newName (before ++ [c]) r suffix
  | Word w :: r =>
      Word (if beq w oldName && P before (unlex r ++ suffix) then newName else w)
        :: rwItems P oldName newName (before ++ w) r suffix
  end.

Fixpoint cntItems (P : ctxPred) (oldName before : buffer) (l : list item)
    (suffix : buffer) : nat :=
  match l with
  | [] => 0
  | Sep c :: r => cntItems P oldName (before ++ [c]) r suffix
  | Word w :: r =>
      (if beq w oldName && P before (unlex r ++ suffix) then 1 else 0)
      + cntItems P oldName (before ++ w) r suffix
  end.

(** Two items of the same shape: the same separator, or two runs. *)
Definition sameShape (i i' : item) : Prop :=
  goodItem i = true /\ goodItem i' = true
  /\ match i, i' with
     | Sep c, Sep c' => c = c'
     | Word _, Word _ => True
     | _, _ => False
     end.

(** The text before a span, read backwards from the span. *)
Fixpoint unlexR (l : list item) : buffer :=
  match l with
  | [] => []
  | i :: r => rev (itemText i) ++ unlexR r
  end.

(** Two backward texts that agree up to the first item that is not a
    blank, this item included when it is a run, and have the same shape
    behind it. *)
Inductive preRel : list item -> list item -> Prop :=
| preRel_nil : preRel [] []
| preRel_blank (c : ascii) (r r' : list item) :
    isBlank c = true -> preRel r r' -> preRel (Sep c :: r) (Sep c :: r')
| preRel_sep (c : ascii) (r r' : list item) :
    isBlank c = false -> isIdentChar c = false -> Forall2 sameShape r r' ->
    preRel (Sep c :: r) (Sep c :: r')
| preRel_word (w : buffer) (r r' : list item) :
    goodItem (Word w) = true -> startsWithWord r = false -> Forall2 sameShape r r' ->
    preRel (Word w :: r) (Word w :: r').

Definition uniform (p : buffer) : Prop :=
  forallb isIdentChar p = true \/ forallb (fun c => negb (isIdentChar c)) p = true.

(** ** The buffers of the scenarios *)

Definition nl : string := String "010" EmptyString.
Definition dq : string := String "034" EmptyString.

Definition noClass : buffer := [].
Definition methodRenamer : MethodRenamer := {| MethodClassName := noClass |}.
Definition propertyRenamer : PropertyRenamer := {| PropertyClassName := noClass |}.

Definition scenarioB : buffer :=
  bytes ("val total = cart.calculateTotal()" ++ nl ++ "val x = calculateTotal()")%string.

Definition scenarioC : buffer :=
  bytes ("fun apply() {" ++ nl
         ++ "    val d = comboDiscount" ++ nl
         ++ "    this.comboDiscount = d * 2" ++ nl
         ++ "    println(comboDiscount)" ++ nl
         ++ "    if (comboDiscount > 0) { }" ++ nl
         ++ "    comboDiscount = 0.0" ++ nl
         ++ "    val x = comboDiscount()" ++ nl
         ++ "}")%string.

Definition scenarioC_renamed : buffer :=
  bytes ("fun apply() {" ++ nl
         ++ "    val d = bundle" ++ nl
         ++ "    this.bundle = d * 2" ++ nl
         ++ "    println(bundle)" ++ nl
         ++ "    if (bundle > 0) { }" ++ nl
         ++ "    bundle = 0.0" ++ nl
         ++ "    val x = comboDiscount()" ++ nl
         ++ "}")%string.

Definition scenarioD : buffer :=
  bytes ("val userId = " ++ dq ++ "global" ++ dq ++ nl
         ++ "fun greet(userId: String): String { return " ++ dq ++ "Hello $userId" ++ dq
         ++ " }")%string.

Definition scenarioD_renamed : buffer :=
  bytes ("val userId = " ++ dq ++ "global" ++ dq ++ nl
         ++ "fun greet(accountId: String): String { return " ++ dq ++ "Hello $accountId" ++ dq
         ++ " }")%string.

Definition twoReceivers : buffer :=
  bytes ("val a = cart.calculateTotal()" ++ nl ++ "val b = invoice.calculateTotal()")%string.

Definition twoReceivers_renamed : buffer :=
  bytes ("val a = cart.computeTotal()" ++ nl ++ "val b = invoice.computeTotal()")%string.

Definition methodRefInIf : buffer :=
  bytes "val f = if (c) ::calculateTotal else ::other".

Definition malformedThenGood : buffer :=
  bytes ("fun a((x: Int) { }" ++ nl ++ "fun b(x: Int) { x }")%string.

Definition nestedFun : buffer :=
  bytes ("fun a(x: Int) = fun() = x" ++ nl ++ "class C(val x: Int)")%string.

Definition nestedFun_renamed : buffer :=
  bytes ("fun a(xxxxx: Int) = fun() = xxxxx" ++ nl ++ "class C(val xxxxx: Int)")%string.

Definition nestedFun_back : buffer :=
  bytes ("fun a(x: Int) = fun() = x" ++ nl ++ "class C(val xxxxx: Int)")%string.

Definition funAsName : buffer :=
  bytes ("fun a(x: Int) = x" ++ nl ++ "val q = h(x: Int)")%string.

Definition funAsName_once : buffer :=
  bytes ("fun a(fun: Int) = fun" ++ nl ++ "val q = h(x: Int)")%string.

Definition funAsName_twice : buffer :=
  bytes ("fun a(fun: Int) = fun" ++ nl ++ "val q = h(fun: Int)")%string.

(** ** Notions used by the further properties *)

(** Every run equal to the target replaced. *)
Definition replaceWord (oldName newName w : buffer) : buffer :=
  if beq w oldName then newName else w.

Definition replaceItem (oldName newName : buffer) (i : item) : item :=
  match i with
  | Sep c => Sep c
  | Word w => Word (replaceWord oldName newName w)
  end.

(** The length difference of one replacement. *)
Definition delta (oldName newName : buffer) : Z :=
  (Z.of_nat (length newName) - Z.of_nat (length oldName))%Z.

(** The invariant of the parameter loop: the offset is the difference of
    the lengths of the current and the original buffer, and it is the
    count times the length difference of one replacement. *)
Definition offsetInv (src oldName newName : buffer) (st : ParamState) : Prop :=
  Z.of_nat (length (result st)) = (Z.of_nat (length src) + offset st)%Z
  /\ offset st = (Z.of_nat (total st) * delta oldName newName)%Z.

(** The number of identifier runs of a buffer equal to a name. *)
Definition occurrences (name src : buffer) : nat :=
  length (filter (fun w => beq w name) (words src)).

(** The depth counter of [findMatchingParen] and [findMatchingBrace] after
    a text: opening minus closing delimiters. *)
Fixpoint delimDepth (op cl : ascii) (s : buffer) : Z :=
  match s with
  | [] => 0
  | c :: r =>
      ((if Ascii.eqb c op then 1 else if Ascii.eqb c cl then -1 else 0)
       + delimDepth op cl r)%Z
  end.

(** What the two delimiter matchers return, for a start on an opening
    delimiter: the first index at which the depth is back to zero, which
    holds a closing delimiter; nothing when the depth stays positive. *)
Definition matchesDelim (op cl : ascii) (src : buffer) (open : nat) (r : option nat) : Prop :=
  match r with
  | Some e =>
      open < e /\ nth_error src e = Some cl
      /\ delimDepth op cl (slice src open (e + 1)) = 0%Z
      /\ forall j, open <= j < e -> (1 <= delimDepth op cl (slice src open (j + 1)))%Z
  | None =>
      forall j, open <= j < length src ->
                (1 <= delimDepth op cl (slice src open (j + 1)))%Z
  end.

Definition noLineFeed (s : buffer) : Prop :=
  forallb (fun c => negb (Ascii.eqb c "010")) s = true.

(** The text between a parameter list and a function body: blanks and line
    breaks, then possibly a return type, which starts with a colon and
    holds no opening brace, equals sign or line feed. *)
Definition bodyPrefix (s : buffer) : Prop :=
  exists gap ty : buffer,
    s = gap ++ ty
    /\ forallb isBodyGap gap = true
    /\ (ty = [] \/ (startsWith ty ":" = true
                    /\ forallb (fun c => negb (isTypeStop c)) ty = true)).

(** A block body: a balanced group of braces.  An expression body: from
    the equals sign to the end of its line, line feed included. *)
Definition bodySpan (src : buffer) (bs be : nat) : Prop :=
  (nth_error src bs = Some "{" /\ nth_error src (be - 1) = Some "}"
   /\ delimDepth "{" "}" (slice src bs be) = 0%Z)
  \/ (nth_error src bs = Some "="
      /\ ((nth_error src (be - 1) = Some "010" /\ noLineFeed (slice src bs (be - 1)))
          \/ (be = length src /\ noLineFeed (slice src bs be)))).

(** The predicate that [buildRenameFn] hands to the single-pass driver for
    a kind. *)
Definition kindContext (kind : SymbolKind) (renameClass : buffer) : contextFn :=
  match kind with
  | KType => isClassContext
  | KFunction => isMethodContext {| MethodClassName := renameClass |}
  | KProperty => isPropertyContext {| PropertyClassName := renameClass |}
  | KParameter => isParameterContext
  end.

(** ** The package name check of [cmd/move.go]

    The source ranges over the runes of the name; every byte of a rune
    that is not ASCII fails the letter, digit and underscore tests as the
    rune does, and is never a dot, so the check is modelled byte by byte. *)

Definition isLetter (c : ascii) : bool :=
  let n := N_of_ascii c in
  ((97 <=? n) && (n <=? 122) || (65 <=? n) && (n <=? 90))%N.

Definition isDigit (c : ascii) : bool :=
  let n := N_of_ascii c in
  ((48 <=? n) && (n <=? 57))%N.

(** [splitDot]: the loop over [s], at index [i] with [rest] still to read. *)
Fixpoint splitDotLoop (s rest : buffer) (i start : nat) (parts : list buffer)
    : list buffer :=
  match rest with
  | [] => parts ++ [skipn start s]
  | c :: r =>
      if Ascii.eqb c "."
      then splitDotLoop s r (S i) (S i) (parts ++ [slice s start i])
      else splitDotLoop s r (S i) start parts
  end.

Definition splitDot (s : buffer) : list buffer := splitDotLoop s s 0 0 [].

(** The inner loop of [isValidPackageName] over one segment. *)
Fixpoint segmentLoop (i : nat) (p : buffer) : bool :=
  match p with
  | [] => true
  | c :: r =>
      if (i =? 0)%nat
      then if negb (isLetter c) && negb (Ascii.eqb c "_") then false
           else segmentLoop (S i) r
      else if negb (isLetter c) && negb (isDigit c) && negb (Ascii.eqb c "_") then false
           else segmentLoop (S i) r
  end.

Fixpoint partsLoop (parts : list buffer) : bool :=
  match parts with
  | [] => true
  | p :: r => if beq p [] then false else if segmentLoop 0 p then partsLoop r else false
  end.

Definition isValidPackageName (pkg : buffer) : bool :=
  if beq pkg [] then false else partsLoop (splitDot pkg).

(** [strings.Join(parts, ".")], the inverse the statements compare
    [splitDot] with. *)
Fixpoint joinDot (parts : list buffer) : buffer :=
  match parts with
  | [] => []
  | [p] => p
  | p :: r => p ++ "." :: joinDot r
  end.

Definition noDot (p : buffer) : bool := forallb (fun c => negb (Ascii.eqb c ".")) p.

(** The segments of a text after the segment [cur] already read. *)
Fixpoint segments (cur rest : buffer) : list buffer :=
  match rest with
  | [] => [cur]
  | c :: r => if Ascii.eqb c "." then cur :: segments [] r else segments (cur ++ [c]) r
  end.

(** ** Applying a rename to files: [ApplyToFiles] of the scanner

    The disk is what [os.ReadFile] and [os.WriteFile] see of it: a content
    for each path that can be read, and the paths that refuse a write.  A
    write that succeeds sets the content of its path and of no other; a
    write that is refused leaves the disk as it is. *)

Record Disk := {
  fileContent : buffer -> option buffer;
  readOnly : buffer -> bool
}.

Definition ReadFile (d : Disk) (path : buffer) : option buffer := fileContent d path.

Definition WriteFile (d : Disk) (path data : buffer) : Disk * bool :=
  if readOnly d path then (d, false)
  else ({| fileContent := fun q => if beq q path then Some data else fileContent d q;
           readOnly := readOnly d |}, true).

Inductive FileError := ReadError | WriteError.

Record FileResult := {
  Path : buffer;
  Replacements : nat;
  NewContent : buffer;
  Err : option FileError
}.

(** The loop of [ApplyToFiles].  [renameFn] returns [None] where the
    rename stops with a run-time panic; the loop then stops with it, and
    the disk keeps what was written before. *)
Fixpoint applyLoop (paths : list buffer) (dryRun : bool)
    (renameFn : buffer -> option (buffer * nat)) (d : Disk)
    (results : list FileResult) : Disk * option (list FileResult) :=
  match paths with
  | [] => (d, Some results)
  | path :: rest =>
      match ReadFile d path with
      | None =>
          applyLoop rest dryRun renameFn d
            (results ++ [{| Path := path; Replacements := 0; NewContent := [];
                            Err := Some ReadError |}])
      | Some original =>
          match renameFn original with
          | None => (d, None)
          | Some (modified, count) =>
              if (count =? 0)%nat then applyLoop rest dryRun renameFn d results
              else if dryRun then
                applyLoop rest dryRun renameFn d
                  (results ++ [{| Path := path; Replacements := count;
                                  NewContent := modified; Err := None |}])
              else
                let (d', ok) := WriteFile d path modified in
                applyLoop rest dryRun renameFn d'
                  (results ++ [{| Path := path; Replacements := count;
                                  NewContent := modified;
                                  Err := if ok then None else Some WriteError |}])
          end
      end
  end.

Definition ApplyToFiles (paths : list buffer) (dryRun : bool)
    (renameFn : buffer -> option (buffer * nat)) (d : Disk)
    : Disk * option (list FileResult) :=
  applyLoop paths dryRun renameFn d [].

(** A path whose file is read and that accepts a write. *)
Definition usable (d : Disk) (path : buffer) : bool :=
  match fileContent d path with
  | Some _ => negb (readOnly d path)
  | None => false
  end.

(** A file on which the rename finds nothing to do. *)
Definition settled (renameFn : buffer -> option (buffer * nat)) (d : Disk)
    (path : buffer) : Prop :=
  exists c out, fileContent d path = Some c /\ renameFn c = Some (out, 0).


(** A disk of two files, for the examples. *)
Definition twoFiles : Disk :=
  {| fileContent := fun p =>
       if beq p (bytes "A.kt") then Some (bytes "class User; val u = User()")
       else if beq p (bytes "B.kt") then Some (bytes "fun f(): User = User()")
       else None;
     readOnly := fun _ => false |}.

(** The results of a run that returned. *)
Definition resultsOf (run : Disk * option (list FileResult)) : list FileResult :=
  match snd run with
  | Some rs => rs
  | None => []
  end.

(** ** The package declaration: [packageDeclPat] of [move.go]

    [(?m)^package\s+[\w.]+]: at the start of the text or after a line feed,
    the keyword, the longest run of white space, the longest run of
    [[\w.]]; both runs are not empty.  The two classes are disjoint, so
    the match at a place is unique. *)

Definition isPkgChar (c : ascii) : bool := isIdentChar c || Ascii.eqb c ".".

Fixpoint takeWhile (f : ascii -> bool) (s : buffer) : buffer :=
  match s with
  | [] => []
  | c :: r => if f c then c :: takeWhile f r else []
  end.

(** The head of a text fails a test, or the text is empty. *)
Definition stopsAt (f : ascii -> bool) (s : buffer) : bool :=
  match s with
  | [] => true
  | c :: _ => negb (f c)
  end.

Definition lineStart (prev : option ascii) : bool :=
  match prev with
  | None => true
  | Some c => Ascii.eqb c "010"
  end.

(** The text the pattern matches at the head of [s], [^] apart. *)
Definition packageDeclAt (s : buffer) : option buffer :=
  match stripPrefix (bytes "package") s with
  | None => None
  | Some r =>
      match takeWhile isSpace r, takeWhile isPkgChar (dropWhile isSpace r) with
      | (_ :: _) as ws, (_ :: _) as nm => Some (bytes "package" ++ ws ++ nm)
      | _, _ => None
      end
  end.

Definition packageDeclHere (prev : option ascii) (s : buffer) : option buffer :=
  if lineStart prev then packageDeclAt s else None.

(** The leftmost match, [prev] being the byte before [s]. *)
Fixpoint packageDeclScan (prev : option ascii) (s : buffer) : option buffer :=
  match s with
  | [] => None
  | c :: r =>
      match packageDeclHere prev s with
      | Some m => Some m
      | None => packageDeclScan (Some c) r
      end
  end.

(** [packageDeclPat.FindString]: the empty string when nothing matches. *)
Definition packageDeclFindString (src : buffer) : buffer :=
  match packageDeclScan None src with
  | Some m => m
  | None => []
  end.

(** [packageDeclPat.MatchString]. *)
Definition packageDeclMatchString (src : buffer) : bool :=
  match packageDeclScan None src with
  | Some _ => true
  | None => false
  end.

(** [packageDeclPat.ReplaceAllString] for a replacement without [$]: every
    match, from left to right and without overlap, replaced by [repl];
    [skip] counts the bytes of the current match still to pass. *)
Fixpoint packageDeclReplaceAll (repl : buffer) (skip : nat) (prev : option ascii)
    (s : buffer) : buffer :=
  match s with
  | [] => []
  | c :: r =>
      match skip with
      | S k => packageDeclReplaceAll repl k (Some c) r
      | 0 =>
          match packageDeclHere prev s with
          | Some m => repl ++ packageDeclReplaceAll repl (length m - 1) (Some c) r
          | None => c :: packageDeclReplaceAll repl 0 (Some c) r
          end
      end
  end.

(** [strings.TrimPrefix]. *)
Definition TrimPrefix (s p : buffer) : buffer :=
  match stripPrefix p s with
  | Some r => r
  | None => s
  end.

(** [strings.TrimSpace] on ASCII text, which a match of the pattern is:
    tab, line feed, vertical tab, form feed, carriage return, space. *)
Definition isTrimSpace (c : ascii) : bool :=
  let n := N_of_ascii c in
  ((9 <=? n) && (n <=? 13) || (n =? 32))%N.

Definition TrimSpace (s : buffer) : buffer :=
  rev (dropWhile isTrimSpace (rev (dropWhile isTrimSpace s))).

(** [extractPackage]. *)
Definition extractPackage (src : buffer) : buffer :=
  let m := packageDeclFindString src in
  if beq m [] then [] else TrimSpace (TrimPrefix m (bytes "package")).

(** [rewritePackageDeclaration].  The replacement is a template, in which
    [$] refers to a group of the match; the move command passes a name
    that [isValidPackageName] accepted, which holds none.  The model is
    for these names: [None] is a name with [$]. *)
Definition rewritePackageDeclaration (src newPackage : buffer) : option buffer :=
  if existsb (fun c => Ascii.eqb c "$") newPackage then None
  else if packageDeclMatchString src
       then Some (packageDeclReplaceAll (bytes "package " ++ newPackage) 0 None src)
       else Some (bytes "package " ++ newPackage ++ ["010"; "010"] ++ src).

(** The declaration that [rewritePackageDeclaration] writes. *)
Definition declarationOf (newPackage : buffer) : buffer :=
  bytes "package " ++ newPackage.

(** * Properties *)

(** ** Basic facts *)

Lemma beq_true_iff (a b : buffer) : beq a b = true <-> a = b.
Proof.
  unfold beq. destruct (list_eq_dec ascii_dec a b); split; congruence.
Qed.

Lemma beq_refl (a : buffer) : beq a a = true.
Proof. apply beq_true_iff. reflexivity. Qed.

Lemma beq_false_iff (a b : buffer) : beq a b = false <-> a <> b.
Proof.
  unfold beq. destruct (list_eq_dec ascii_dec a b); split; congruence.
Qed.

Lemma isIdentStart_isIdentChar (c : ascii) :
  isIdentStart c = true -> isIdentChar c = true.
Proof.
  unfold isIdentStart, isIdentChar. intros H.
  repeat (apply orb_true_iff in H; destruct H as [H | H]);
    rewrite H; repeat rewrite orb_true_r; reflexivity.
Qed.

(** A validated name is a non-empty run of identifier bytes. *)
Lemma ValidateIdentifier_run (s : buffer) :
  ValidateIdentifier s = true -> s <> [] /\ forallb isIdentChar s = true.
Proof.
  destruct s as [| c r]; simpl; [discriminate |].
  intros H. apply andb_true_iff in H. destruct H as [H1 H2].
  split; [discriminate |]. now rewrite (isIdentStart_isIdentChar _ H1).
Qed.

Lemma ValidateIdentifier_good (s : buffer) :
  ValidateIdentifier s = true -> goodItem (Word s) = true.
Proof.
  intros H. destruct (ValidateIdentifier_run s H) as [Hne Hall]. simpl.
  rewrite Hall. destruct s; [congruence | reflexivity].
Qed.

Lemma lastByte_app_cons (a : buffer) (c : ascii) (b : buffer) :
  lastByte (a ++ c :: b) = lastByte (c :: b).
Proof.
  induction a as [| x a IH]; [reflexivity |].
  simpl app. change (lastByte (x :: a ++ c :: b))
    with (match a ++ c :: b with [] => Some x | _ :: _ => lastByte (a ++ c :: b) end).
  destruct (a ++ c :: b) eqn:E; [destruct a; discriminate | now rewrite <- IH].
Qed.

Lemma lastByte_snoc (a : buffer) (c : ascii) : lastByte (a ++ [c]) = Some c.
Proof. now rewrite lastByte_app_cons. Qed.

Lemma lastByte_forallb (f : ascii -> bool) (s : buffer) (c : ascii) :
  forallb f s = true -> lastByte s = Some c -> f c = true.
Proof.
  induction s as [| x s IH]; [discriminate |].
  intros H. apply andb_true_iff in H. destruct H as [Hx Hs].
  destruct s as [| y s']; [intros [= <-]; exact Hx | exact (IH Hs)].
Qed.

Lemma lastByte_nonempty (s : buffer) : s <> [] -> exists c, lastByte s = Some c.
Proof.
  induction s as [| x s IH]; [congruence |]. intros _.
  destruct s as [| y s']; [now exists x | apply IH; discriminate].
Qed.

Lemma stripPrefix_app (p r : buffer) : stripPrefix p (p ++ r) = Some r.
Proof.
  induction p as [| a p IH]; [reflexivity |]. simpl. now rewrite Ascii.eqb_refl.
Qed.

Lemma stripPrefix_Some (p s r : buffer) : stripPrefix p s = Some r -> s = p ++ r.
Proof.
  revert s. induction p as [| a p IH]; intros s; simpl.
  - now intros [= ->].
  - destruct s as [| b s]; [discriminate |].
    destruct (Ascii.eqb a b) eqn:E; [| discriminate].
    apply Ascii.eqb_eq in E. subst b. intros H. now rewrite (IH _ H).
Qed.

(** ** [lex] and [unlex] *)

Lemma unlex_lex (s : buffer) : unlex (lex s) = s.
Proof.
  induction s as [| c s IH]; [reflexivity |]. simpl.
  destruct (isIdentChar c).
  - destruct (lex s) as [| [c' | w] l]; simpl in *; now rewrite <- IH.
  - simpl. now rewrite IH.
Qed.

Lemma unlex_app (a b : list item) : unlex (a ++ b) = unlex a ++ unlex b.
Proof.
  induction a as [| i a IH]; [reflexivity |]. simpl. now rewrite IH, app_assoc.
Qed.

Lemma lex_wf (s : buffer) : wfItems (lex s) = true.
Proof.
  induction s as [| c s IH]; [reflexivity |]. simpl.
  destruct (isIdentChar c) eqn:E.
  - destruct (lex s) as [| [c' | w] l]; simpl in *.
    + now rewrite E.
    + rewrite E. simpl. exact IH.
    + rewrite E. simpl.
      apply andb_true_iff in IH. destruct IH as [IH1 IH2].
      apply andb_true_iff in IH1. destruct IH1 as [IH0 IH1].
      apply andb_true_iff in IH0. destruct IH0 as [_ IH0].
      now rewrite IH0, IH1, IH2.
  - simpl. now rewrite E, IH.
Qed.

Lemma wfItems_tail (i : item) (l : list item) : wfItems (i :: l) = true -> wfItems l = true.
Proof. simpl. intros H. apply andb_true_iff in H. tauto. Qed.

Lemma wfItems_head (i : item) (l : list item) : wfItems (i :: l) = true -> goodItem i = true.
Proof.
  simpl. intros H. apply andb_true_iff in H. destruct H as [H _].
  apply andb_true_iff in H. tauto.
Qed.

Lemma wfItems_after_word (w : buffer) (l : list item) :
  wfItems (Word w :: l) = true -> startsWithWord l = false.
Proof.
  simpl. intros H. apply andb_true_iff in H. destruct H as [H _].
  apply andb_true_iff in H. destruct H as [_ H].
  now apply negb_true_iff in H.
Qed.

Lemma goodWord_inv (w : buffer) :
  goodItem (Word w) = true -> w <> [] /\ forallb isIdentChar w = true.
Proof.
  simpl. intros H. apply andb_true_iff in H. destruct H as [H1 H2].
  split; [| exact H2]. apply negb_true_iff in H1. now apply beq_false_iff in H1.
Qed.

(** The text after a run starts with a byte that is not an identifier byte. *)
Lemma headByte_unlex_noword (l : list item) :
  wfItems l = true -> startsWithWord l = false -> isWordOpt (headByte (unlex l)) = false.
Proof.
  destruct l as [| [c | w] l]; simpl; try reflexivity; [| discriminate].
  intros H _. apply andb_true_iff in H. destruct H as [H _].
  apply andb_true_iff in H. destruct H as [H _]. now apply negb_true_iff in H.
Qed.

Lemma lex_word_app (w s : buffer) :
  w <> [] -> forallb isIdentChar w = true -> isWordOpt (headByte s) = false ->
  lex (w ++ s) = Word w :: lex s.
Proof.
  induction w as [| c w IH]; [congruence |]. intros _ H Hs.
  simpl in H. apply andb_true_iff in H. destruct H as [Hc Hw].
  simpl. rewrite Hc. destruct w as [| d w].
  - simpl. destruct s as [| x s]; [reflexivity |]. simpl in *. now rewrite Hs.
  - rewrite IH; [reflexivity | discriminate | exact Hw | exact Hs].
Qed.

Lemma lex_unlex (l : list item) : wfItems l = true -> lex (unlex l) = l.
Proof.
  induction l as [| i l IH]; [reflexivity |]. intros H.
  pose proof (wfItems_tail _ _ H) as Hl. pose proof (wfItems_head _ _ H) as Hi.
  destruct i as [c | w]; simpl.
  - simpl in Hi. apply negb_true_iff in Hi. now rewrite Hi, IH.
  - destruct (goodWord_inv _ Hi) as [Hne Hall].
    rewrite lex_word_app; [now rewrite IH | exact Hne | exact Hall |].
    apply headByte_unlex_noword; [exact Hl | exact (wfItems_after_word _ _ H)].
Qed.

(** ** The matcher finds the runs equal to the target *)

Section Matcher.

Variable oldName : buffer.
Hypothesis old_valid : ValidateIdentifier oldName = true.

Lemma old_nonempty : oldName <> [].
Proof. exact (proj1 (ValidateIdentifier_run _ old_valid)). Qed.

Lemma old_ident : forallb isIdentChar oldName = true.
Proof. exact (proj2 (ValidateIdentifier_run _ old_valid)). Qed.

Lemma old_last_word (prev : option ascii) : isWordOpt (lastOr prev oldName) = true.
Proof.
  unfold lastOr. destruct (lastByte_nonempty _ old_nonempty) as [c Hc].
  rewrite Hc. simpl. exact (lastByte_forallb _ _ _ old_ident Hc).
Qed.

(** Two identifier runs that start at the same place and both end at a
    non-identifier byte are the same run. *)
Lemma run_unique (a b ra rb : buffer) :
  forallb isIdentChar a = true -> forallb isIdentChar b = true ->
  isWordOpt (headByte ra) = false -> isWordOpt (headByte rb) = false ->
  a ++ ra = b ++ rb -> a = b.
Proof.
  revert b. induction a as [| x a IH]; intros b Ha Hb Hra Hrb E.
  - destruct b as [| y b]; [reflexivity |]. simpl in *. subst ra.
    apply andb_true_iff in Hb. destruct Hb as [Hy _]. simpl in Hra. congruence.
  - destruct b as [| y b]; simpl in *.
    + subst rb. apply andb_true_iff in Ha. destruct Ha as [Hx _]. simpl in Hrb. congruence.
    + injection E as -> E. apply andb_true_iff in Ha. apply andb_true_iff in Hb.
      f_equal. apply IH; tauto.
Qed.

Lemma matchWordAt_sep (prev : option ascii) (c : ascii) (s : buffer) :
  isIdentChar c = false -> matchWordAt oldName prev (c :: s) = false.
Proof.
  intros Hc. pose proof old_nonempty as Hne. pose proof old_ident as H.
  unfold matchWordAt. destruct oldName as [| o r]; [congruence |].
  simpl. destruct (Ascii.eqb o c) eqn:Eo; [| apply andb_false_r].
  apply Ascii.eqb_eq in Eo. subst c.
  simpl in H. apply andb_true_iff in H. destruct H as [H _]. congruence.
Qed.

Lemma matchWordAt_inside (prev : option ascii) (c : ascii) (s : buffer) :
  isWordOpt prev = true -> isIdentChar c = true ->
  matchWordAt oldName prev (c :: s) = false.
Proof.
  intros Hp Hc. unfold matchWordAt, wordBoundary. simpl. now rewrite Hp, Hc.
Qed.

Lemma matchWordAt_run (prev : option ascii) (w s : buffer) :
  w <> [] -> forallb isIdentChar w = true ->
  isWordOpt prev = false -> isWordOpt (headByte s) = false ->
  matchWordAt oldName prev (w ++ s) = beq w oldName.
Proof.
  intros Hne Hw Hp Hs. destruct (beq w oldName) eqn:E.
  - apply beq_true_iff in E. unfold matchWordAt. rewrite <- E at 1.
    rewrite stripPrefix_app. unfold wordBoundary. rewrite old_last_word, Hp, Hs.
    destruct w as [| o r]; [congruence |]. simpl in *.
    apply andb_true_iff in Hw. destruct Hw as [Ho _]. now rewrite Ho.
  - apply beq_false_iff in E. unfold matchWordAt.
    destruct (stripPrefix oldName (w ++ s)) as [rest |] eqn:Es; [| apply andb_false_r].
    apply stripPrefix_Some in Es. unfold wordBoundary at 2. rewrite old_last_word.
    destruct (isWordOpt (headByte rest)) eqn:Er; [apply andb_false_r |].
    exfalso. apply E. exact (run_unique _ _ _ _ Hw old_ident Hs Er Es).
Qed.

Lemma scanWord_skip (a s : buffer) (prev : option ascii) (pos : nat) :
  scanWord oldName (length a) prev pos (a ++ s)
  = scanWord oldName 0 (lastOr prev a) (pos + length a) s.
Proof.
  revert prev pos. induction a as [| x a IH]; intros prev pos.
  - simpl. now rewrite Nat.add_0_r.
  - simpl app. simpl length. simpl scanWord. rewrite IH.
    rewrite <- Nat.add_succ_comm. f_equal.
    unfold lastOr. destruct a as [| y a]; [reflexivity |].
    change (lastByte (x :: y :: a)) with (lastByte (y :: a)).
    destruct (lastByte_nonempty (y :: a)) as [c Hc]; [discriminate |]. now rewrite Hc.
Qed.

Lemma scanWord_inside (a s : buffer) (prev : option ascii) (pos : nat) :
  forallb isIdentChar a = true -> isWordOpt prev = true ->
  scanWord oldName 0 prev pos (a ++ s)
  = scanWord oldName 0 (lastOr prev a) (pos + length a) s.
Proof.
  revert prev pos. induction a as [| x a IH]; intros prev pos Ha Hp.
  - simpl. now rewrite Nat.add_0_r.
  - simpl in Ha. apply andb_true_iff in Ha. destruct Ha as [Hx Ha].
    simpl app. simpl scanWord. rewrite (matchWordAt_inside _ _ _ Hp Hx).
    rewrite IH; [| exact Ha | exact Hx].
    simpl length. rewrite <- Nat.add_succ_comm. f_equal.
    unfold lastOr. destruct a as [| y a]; [reflexivity |].
    change (lastByte (x :: y :: a)) with (lastByte (y :: a)).
    destruct (lastByte_nonempty (y :: a)) as [c Hc]; [discriminate |]. now rewrite Hc.
Qed.

(** The matches of [\bNAME\b] are exactly the runs equal to [NAME]. *)
Lemma scanWord_items (l : list item) (prev : option ascii) (pos : nat) :
  wfItems l = true ->
  (isWordOpt prev = true -> startsWithWord l = false) ->
  scanWord oldName 0 prev pos (unlex l) = wordLocs oldName pos l.
Proof.
  revert prev pos. induction l as [| i l IH]; intros prev pos Hwf Hprev; [reflexivity |].
  pose proof (wfItems_tail _ _ Hwf) as Hl. pose proof (wfItems_head _ _ Hwf) as Hi.
  destruct i as [c | w].
  - simpl in Hi. apply negb_true_iff in Hi. simpl.
    rewrite (matchWordAt_sep _ _ _ Hi). apply IH; [exact Hl |].
    simpl. congruence.
  - destruct (goodWord_inv _ Hi) as [Hne Hall].
    pose proof (wfItems_after_word _ _ Hwf) as Hnext.
    pose proof (headByte_unlex_noword _ Hl Hnext) as Hhd.
    assert (Hp : isWordOpt prev = false).
    { destruct (isWordOpt prev); [| reflexivity]. now specialize (Hprev eq_refl). }
    simpl unlex. simpl wordLocs.
    destruct w as [| x w]; [congruence |].
    simpl app. simpl scanWord.
    change (x :: w ++ unlex l) with ((x :: w) ++ unlex l).
    rewrite (matchWordAt_run prev (x :: w) (unlex l) Hne Hall Hp Hhd).
    simpl in Hall. apply andb_true_iff in Hall. destruct Hall as [Hx Hw].
    destruct (beq (x :: w) oldName) eqn:E.
    + apply beq_true_iff in E.
      assert (El : length oldName = S (length w)) by now rewrite <- E.
      rewrite El. simpl pred. simpl length.
      rewrite scanWord_skip. rewrite Nat.add_succ_comm.
      f_equal. apply IH; [exact Hl | intros _; exact Hnext].
    + rewrite scanWord_inside; [| exact Hw | exact Hx].
      simpl length. rewrite Nat.add_succ_comm.
      apply IH; [exact Hl | intros _; exact Hnext].
Qed.

Lemma FindAllStringIndex_lex (src : buffer) :
  FindAllStringIndex oldName src = wordLocs oldName 0 (lex src).
Proof.
  unfold FindAllStringIndex. rewrite <- (unlex_lex src) at 1.
  apply scanWord_items; [apply lex_wf | discriminate].
Qed.

End Matcher.

(** ** The driver rewrites exactly the accepted runs *)

Lemma slice_empty (s : buffer) (a : nat) : slice s a a = [].
Proof. unfold slice. now rewrite Nat.sub_diag. Qed.

Lemma slice_to_end (s : buffer) (a : nat) : slice s a (length s) = skipn a s.
Proof.
  unfold slice. apply firstn_all2. rewrite length_skipn. lia.
Qed.

Lemma slice_extend (pre w rest : buffer) (a : nat) :
  a <= length pre ->
  slice (pre ++ w ++ rest) a (length pre + length w)
  = slice (pre ++ w ++ rest) a (length pre) ++ w.
Proof.
  intros Ha. unfold slice.
  assert (Hs : skipn a (pre ++ w ++ rest) = skipn a pre ++ w ++ rest).
  { rewrite skipn_app. replace (a - length pre) with 0 by lia. reflexivity. }
  rewrite Hs.
  replace (length pre + length w - a) with (length (skipn a pre) + length w)
    by (rewrite length_skipn; lia).
  replace (length pre - a) with (length (skipn a pre) + 0)
    by (rewrite length_skipn; lia).
  rewrite !firstn_app_2. rewrite firstn_O, app_nil_r. f_equal.
  rewrite <- (Nat.add_0_r (length w)). rewrite firstn_app_2.
  now rewrite firstn_O, app_nil_r.
Qed.

Section Driver.

Variables (ctx : contextFn) (src oldName newName : buffer).

(** The loop of the driver, started anywhere between two items. *)
Lemma renameLoop_items (l : list item) :
  forall (pre buf : buffer) (last count : nat),
    src = pre ++ unlex l -> last <= length pre ->
    renameLoop ctx src newName (wordLocs oldName (length pre) l) buf last count
    = (buf ++ slice src last (length pre)
           ++ unlex (renameItems ctx src oldName newName (length pre) l),
       count + countItems ctx src oldName (length pre) l).
Proof.
  induction l as [| i l IH]; intros pre buf last count Hsrc Hlast.
  - simpl. rewrite app_nil_r, Nat.add_0_r. f_equal. f_equal.
    simpl in Hsrc. rewrite app_nil_r in Hsrc. subst pre. now rewrite slice_to_end.
  - destruct i as [c | w].
    + simpl wordLocs. simpl renameItems. simpl countItems.
      assert (Hsrc' : src = (pre ++ [c]) ++ unlex l)
        by (rewrite <- app_assoc; exact Hsrc).
      specialize (IH (pre ++ [c]) buf last count Hsrc').
      rewrite length_app in IH. simpl length in IH.
      rewrite Nat.add_1_r in IH. rewrite IH by lia.
      assert (Hext : slice src last (S (length pre)) = slice src last (length pre) ++ [c]).
      { replace (S (length pre)) with (length pre + length [c]) by (simpl; lia).
        rewrite Hsrc. simpl unlex. change (c :: unlex l) with ([c] ++ unlex l).
        now apply slice_extend. }
      rewrite Hext. simpl unlex. now rewrite <- !app_assoc.
    + assert (Hsrc' : src = (pre ++ w) ++ unlex l)
        by (rewrite <- app_assoc; exact Hsrc).
      pose proof (IH (pre ++ w) buf last count Hsrc') as IHrej.
      pose proof (IH (pre ++ w) (buf ++ slice src last (length pre) ++ newName)
                    (length pre + length w) (S count) Hsrc') as IHacc.
      rewrite length_app in IHrej, IHacc.
      assert (Hext : slice src last (length pre + length w)
                     = slice src last (length pre) ++ w).
      { rewrite Hsrc. simpl unlex. now apply slice_extend. }
      simpl wordLocs. simpl renameItems. simpl countItems. unfold accepted.
      destruct (beq w oldName) eqn:E.
      * apply beq_true_iff in E. simpl renameLoop.
        replace (length oldName) with (length w) by now rewrite E.
        destruct (ctx src (length pre) (length pre + length w)) eqn:Ec; simpl andb; cbv iota.
        -- rewrite IHacc by lia. rewrite slice_empty. simpl unlex. simpl app.
           rewrite <- !app_assoc. f_equal. lia.
        -- rewrite IHrej by lia. rewrite Hext. simpl unlex.
           now rewrite <- !app_assoc.
      * simpl andb. cbv iota. rewrite IHrej by lia. rewrite Hext. simpl unlex.
        now rewrite <- !app_assoc.
Qed.

Hypothesis old_valid : ValidateIdentifier oldName = true.

(** The driver in terms of the runs of the buffer. *)
Lemma singlePassRename_items :
  singlePassRename src oldName newName ctx
  = (unlex (renameItems ctx src oldName newName 0 (lex src)),
     countItems ctx src oldName 0 (lex src)).
Proof.
  unfold singlePassRename. rewrite (FindAllStringIndex_lex _ old_valid).
  pose proof (renameLoop_items (lex src) [] [] 0 0) as H.
  simpl length in H. rewrite H; [| now rewrite unlex_lex | lia].
  now rewrite slice_empty.
Qed.

End Driver.


(** ** Substring safety *)

Lemma renamedWord_refl (oldName newName : buffer) (l : list buffer) :
  Forall2 (renamedWord oldName newName) l l.
Proof. induction l; constructor; [now left | assumption]. Qed.

Lemma renamedWord_trans (oldName newName : buffer) (l1 l2 l3 : list buffer) :
  Forall2 (renamedWord oldName newName) l1 l2 ->
  Forall2 (renamedWord oldName newName) l2 l3 ->
  Forall2 (renamedWord oldName newName) l1 l3.
Proof.
  intros H. revert l3. induction H as [| a b l1 l2 Hab H IH]; intros l3 H3.
  - inversion H3. constructor.
  - inversion H3 as [| b' c l2' l3' Hbc H3']; subst. constructor; [| now apply IH].
    unfold renamedWord in *. destruct Hab as [-> | [-> ->]]; [exact Hbc |].
    destruct Hbc as [-> | [_ ->]]; right; now split.
Qed.

Lemma renamedWord_app (oldName newName : buffer) (a b a' b' : list buffer) :
  Forall2 (renamedWord oldName newName) a a' ->
  Forall2 (renamedWord oldName newName) b b' ->
  Forall2 (renamedWord oldName newName) (a ++ b) (a' ++ b').
Proof. apply Forall2_app. Qed.

(** A run that is not the target stays where it is in the sequence of runs. *)
Lemma renamedWord_keeps (oldName newName : buffer) (l l' : list buffer) :
  Forall2 (renamedWord oldName newName) l l' ->
  forall (i : nat) (w : buffer),
    nth_error l i = Some w -> w <> oldName -> nth_error l' i = Some w.
Proof.
  induction 1 as [| a b l l' Hab H IH]; intros i w Hi Hw.
  - destruct i; discriminate.
  - destruct i as [| i]; simpl in *.
    + injection Hi as ->. destruct Hab as [-> | [-> _]]; congruence.
    + now apply IH.
Qed.

Lemma wordsOf_app (a b : list item) : wordsOf (a ++ b) = wordsOf a ++ wordsOf b.
Proof.
  induction a as [| [c | w] a IH]; simpl; [reflexivity | exact IH | now rewrite IH].
Qed.

Section RenameItems.

Variables (ctx : contextFn) (src oldName newName : buffer).

Lemma renameItems_app (a b : list item) (pos : nat) :
  renameItems ctx src oldName newName pos (a ++ b)
  = renameItems ctx src oldName newName pos a
    ++ renameItems ctx src oldName newName (pos + length (unlex a)) b.
Proof.
  revert pos. induction a as [| [c | w] a IH]; intros pos; simpl.
  - now rewrite Nat.add_0_r.
  - rewrite IH. do 3 f_equal. lia.
  - rewrite IH. rewrite length_app. do 3 f_equal. lia.
Qed.

Lemma renameItems_words (l : list item) (pos : nat) :
  Forall2 (renamedWord oldName newName)
    (wordsOf l) (wordsOf (renameItems ctx src oldName newName pos l)).
Proof.
  revert pos. induction l as [| [c | w] l IH]; intros pos; simpl.
  - constructor.
  - apply IH.
  - constructor; [| apply IH]. unfold accepted, renamedWord.
    destruct (beq w oldName) eqn:E; simpl; [| now left].
    apply beq_true_iff in E.
    destruct (ctx src pos (pos + length w)); [right; now split | now left].
Qed.

Lemma renameItems_startsWithWord (l : list item) (pos : nat) :
  startsWithWord (renameItems ctx src oldName newName pos l) = startsWithWord l.
Proof. destruct l as [| [c | w] l]; reflexivity. Qed.

Hypothesis new_valid : ValidateIdentifier newName = true.

Lemma renameItems_wf (l : list item) (pos : nat) :
  wfItems l = true -> wfItems (renameItems ctx src oldName newName pos l) = true.
Proof.
  revert pos. induction l as [| i l IH]; intros pos H; [reflexivity |].
  pose proof (wfItems_tail _ _ H) as Hl. pose proof (wfItems_head _ _ H) as Hi.
  destruct i as [c | w].
  - simpl. simpl in Hi. now rewrite Hi, IH.
  - pose proof (wfItems_after_word _ _ H) as Hn.
    change (goodItem (Word (if accepted ctx src oldName pos w then newName else w))
            && negb (true && startsWithWord
                               (renameItems ctx src oldName newName (pos + length w) l))
            && wfItems (renameItems ctx src oldName newName (pos + length w) l) = true).
    rewrite renameItems_startsWithWord, Hn, IH by exact Hl.
    destruct (accepted ctx src oldName pos w).
    + now rewrite (ValidateIdentifier_good _ new_valid).
    + now rewrite Hi.
Qed.

Lemma lex_renameItems (s : buffer) (pos : nat) :
  lex (unlex (renameItems ctx src oldName newName pos (lex s)))
  = renameItems ctx src oldName newName pos (lex s).
Proof. apply lex_unlex, renameItems_wf, lex_wf. Qed.

End RenameItems.

(** The runs of the output of the driver. *)
Lemma singlePassRename_words (ctx : contextFn) (src oldName newName : buffer) :
  ValidateIdentifier oldName = true -> ValidateIdentifier newName = true ->
  Forall2 (renamedWord oldName newName)
    (words src) (words (fst (singlePassRename src oldName newName ctx))).
Proof.
  intros Ho Hn. rewrite (singlePassRename_items ctx src oldName newName Ho).
  unfold words. simpl fst. rewrite (lex_renameItems _ _ _ _ Hn).
  apply renameItems_words.
Qed.

(** ** Where a parameter scope starts and ends *)

Lemma IndexByte_Some (s : buffer) (c : ascii) (k : nat) :
  IndexByte s c = Some k -> nth_error s k = Some c.
Proof.
  revert k. induction s as [| b s IH]; intros k; simpl; [discriminate |].
  destruct (Ascii.eqb b c) eqn:E.
  - intros [= <-]. apply Ascii.eqb_eq in E. now subst.
  - destruct (IndexByte s c) as [j |]; [| discriminate].
    intros [= <-]. simpl. now apply IH.
Qed.

Lemma nth_error_skipn (s : buffer) (a k : nat) :
  nth_error (skipn a s) k = nth_error s (a + k).
Proof.
  revert s. induction a as [| a IH]; intros s; [reflexivity |].
  destruct s as [| x s]; [now destruct k | apply IH].
Qed.

Lemma matchDelim_Some (op cl : ascii) (s : buffer) (i : nat) (depth : Z) (e : nat) :
  matchDelim op cl s i depth = Some e ->
  i <= e /\ nth_error s (e - i) = Some cl.
Proof.
  revert i depth. induction s as [| c s IH]; intros i depth; simpl; [discriminate |].
  assert (Hrec : forall d, matchDelim op cl s (S i) d = Some e ->
                           i <= e /\ nth_error (c :: s) (e - i) = Some cl).
  { intros d H. destruct (IH _ _ H) as [H1 H2]. split; [lia |].
    replace (e - i) with (S (e - S i)) by lia. exact H2. }
  destruct (Ascii.eqb c op); [apply Hrec |].
  destruct (Ascii.eqb c cl) eqn:Ec; [| apply Hrec].
  destruct (depth - 1 =? 0)%Z; [| apply Hrec].
  intros [= <-]. rewrite Nat.sub_diag. apply Ascii.eqb_eq in Ec. subst c.
  split; [lia | reflexivity].
Qed.

Lemma findMatchingParen_Some (src : buffer) (open e : nat) :
  findMatchingParen src open = Some e ->
  open <= e /\ nth_error src e = Some ")".
Proof.
  unfold findMatchingParen. intros H. apply matchDelim_Some in H.
  destruct H as [H1 H2]. split; [exact H1 |].
  rewrite nth_error_skipn in H2. now replace (open + (e - open)) with e in H2 by lia.
Qed.

Lemma findMatchingBrace_Some (src : buffer) (open e : nat) :
  findMatchingBrace src open = Some e ->
  open <= e /\ nth_error src e = Some "}".
Proof.
  unfold findMatchingBrace. intros H. apply matchDelim_Some in H.
  destruct H as [H1 H2]. split; [exact H1 |].
  rewrite nth_error_skipn in H2. now replace (open + (e - open)) with e in H2 by lia.
Qed.

Lemma dropWhile_length (f : ascii -> bool) (s : buffer) :
  length (dropWhile f s) <= length s.
Proof.
  induction s as [| c s IH]; simpl; [lia |]. destruct (f c); simpl; lia.
Qed.

Lemma dropWhile_skipn (f : ascii -> bool) (s : buffer) :
  dropWhile f s = skipn (length s - length (dropWhile f s)) s.
Proof.
  induction s as [| c s IH]; [reflexivity |]. simpl dropWhile.
  destruct (f c).
  - pose proof (dropWhile_length f s). simpl length.
    replace (S (length s) - length (dropWhile f s))
      with (S (length s - length (dropWhile f s))) by lia.
    exact IH.
  - now rewrite Nat.sub_diag.
Qed.

(** The span of a function body ends at the end of the buffer or just after
    a closing brace or a line feed. *)
Lemma findFunctionBody_Some (src : buffer) (afterParams bs be : nat) :
  findFunctionBody src afterParams = Some (bs, be) ->
  afterParams < be
  /\ (be = length src
      \/ exists c, nth_error src (be - 1) = Some c /\ isIdentChar c = false).
Proof.
  unfold findFunctionBody.
  set (rest := skipn afterParams src).
  set (rest1 := dropWhile isBodyGap rest).
  set (rest2 := if startsWith rest1 ":" then dropWhile (fun c => negb (isTypeStop c)) rest1
                else rest1).
  set (i := afterParams + (length rest - length rest1) + (length rest1 - length rest2)).
  assert (H1 : rest1 = skipn (length rest - length rest1) rest)
    by apply dropWhile_skipn.
  assert (L1 : length rest1 <= length rest) by apply dropWhile_length.
  assert (H2 : rest2 = skipn (length rest1 - length rest2) rest1).
  { unfold rest2. destruct (startsWith rest1 ":"); [apply dropWhile_skipn |].
    now rewrite Nat.sub_diag. }
  assert (L2 : length rest2 <= length rest1).
  { unfold rest2. destruct (startsWith rest1 ":"); [apply dropWhile_length | lia]. }
  assert (H3 : rest2 = skipn i src).
  { transitivity (skipn (length rest1 - length rest2)
                    (skipn (length rest - length rest1) rest)).
    - rewrite <- H1. exact H2.
    - unfold rest, i. rewrite !skipn_skipn. f_equal. fold rest. lia. }
  assert (Ln : length rest <= length src) by (unfold rest; rewrite length_skipn; lia).
  destruct rest2 as [| c r2] eqn:E2; [discriminate |].
  assert (Hi : afterParams <= i) by (unfold i; lia).
  destruct (Ascii.eqb c "{") eqn:Ec.
  - destruct (findMatchingBrace src i) as [e |] eqn:Eb; [| discriminate].
    intros [= <- <-]. apply findMatchingBrace_Some in Eb. destruct Eb as [Hle Hn].
    split; [lia |]. right. exists "}". split; [| reflexivity].
    now replace (e + 1 - 1) with e by lia.
  - destruct (Ascii.eqb c "=") eqn:Ee; [| discriminate].
    destruct (IndexByte (c :: r2) "010") as [k |] eqn:Ek.
    + intros [= <- <-]. apply IndexByte_Some in Ek.
      rewrite H3, nth_error_skipn in Ek. split; [lia |].
      right. exists "010". split; [| reflexivity].
      now replace (i + k + 1 - 1) with (i + k) by lia.
    + intros [= <- <-]. split; [| now left].
      assert (length (c :: r2) = length src - i) by (rewrite H3; apply length_skipn).
      simpl in H. lia.
Qed.

(** ** Runs across a scope boundary *)

Lemma lex_head_sep (s : buffer) :
  isWordOpt (headByte s) = false -> startsWithWord (lex s) = false.
Proof.
  destruct s as [| c s]; [reflexivity |]. simpl. intros H. now rewrite H.
Qed.

Lemma lex_app_sep (a s : buffer) :
  isWordOpt (headByte s) = false -> lex (a ++ s) = lex a ++ lex s.
Proof.
  intros Hs. induction a as [| c a IH]; [reflexivity |].
  simpl. destruct (isIdentChar c); [| now rewrite IH].
  rewrite IH. destruct (lex a) as [| [x | w] l]; try reflexivity.
  simpl. pose proof (lex_head_sep _ Hs) as H.
  destruct (lex s) as [| [x | w] l]; [reflexivity | reflexivity | discriminate].
Qed.

Lemma lex_app_last (a b : buffer) :
  isWordOpt (lastByte a) = false -> lex (a ++ b) = lex a ++ lex b.
Proof.
  destruct a as [| x a0]; [reflexivity |].
  destruct (exists_last (l := x :: a0)) as (a' & c & ->); [discriminate |].
  rewrite lastByte_snoc. simpl. intros Hc.
  rewrite <- app_assoc. simpl app.
  rewrite (lex_app_sep a' (c :: b)) by exact Hc.
  rewrite (lex_app_sep a' [c]) by exact Hc.
  simpl. rewrite Hc. now rewrite <- app_assoc.
Qed.

Lemma nth_error_skipn_cons (s : buffer) (k : nat) (c : ascii) :
  nth_error s k = Some c -> exists r, skipn k s = c :: r.
Proof.
  revert s. induction k as [| k IH]; intros [| x s]; simpl; try discriminate.
  - intros [= ->]. now exists s.
  - apply IH.
Qed.

Lemma lastByte_firstn (t : buffer) (j : nat) (c : ascii) :
  nth_error t j = Some c -> lastByte (firstn (S j) t) = Some c.
Proof.
  revert t. induction j as [| j IH]; intros [| x t]; simpl; try discriminate.
  - intros [= ->]. now destruct t.
  - intros H. specialize (IH _ H). destruct t as [| y t]; [now destruct j |].
    exact IH.
Qed.

Lemma lastByte_slice (s : buffer) (a e : nat) (c : ascii) :
  a <= e -> nth_error s e = Some c -> lastByte (slice s a (e + 1)) = Some c.
Proof.
  intros Hle H. unfold slice. replace (e + 1 - a) with (S (e - a)) by lia.
  apply lastByte_firstn. rewrite nth_error_skipn. now replace (a + (e - a)) with e by lia.
Qed.

Lemma headByte_slice (s : buffer) (a b : nat) (c : ascii) :
  a < b -> nth_error s a = Some c -> headByte (slice s a b) = Some c.
Proof.
  intros Hlt H. unfold slice. destruct (nth_error_skipn_cons _ _ _ H) as [r ->].
  destruct (b - a) eqn:E; [lia | reflexivity].
Qed.

Lemma slice_split (s : buffer) (a b : nat) :
  a <= b -> s = firstn a s ++ slice s a b ++ skipn b s.
Proof.
  intros Hle. unfold slice.
  rewrite <- (firstn_skipn a s) at 1. f_equal.
  rewrite <- (firstn_skipn (b - a) (skipn a s)) at 1. f_equal.
  rewrite skipn_skipn. f_equal. lia.
Qed.

Section Scoped.

Variables (ctx : contextFn) (oldName newName : buffer).
Hypothesis old_valid : ValidateIdentifier oldName = true.

Lemma rename_keeps_head (scope : buffer) (c : ascii) :
  headByte scope = Some c -> isIdentChar c = false ->
  headByte (fst (singlePassRename scope oldName newName ctx)) = Some c.
Proof.
  intros Hh Hc. rewrite (singlePassRename_items _ _ _ _ old_valid). simpl fst.
  destruct scope as [| x s]; [discriminate |]. injection Hh as ->.
  simpl. now rewrite Hc.
Qed.

Lemma rename_keeps_last (scope : buffer) :
  isWordOpt (lastByte scope) = false ->
  isWordOpt (lastByte (fst (singlePassRename scope oldName newName ctx))) = false.
Proof.
  intros Hl. rewrite (singlePassRename_items _ _ _ _ old_valid). simpl fst.
  destruct scope as [| x s0]; [reflexivity |].
  destruct (exists_last (l := x :: s0)) as (s' & c & E); [discriminate |].
  rewrite E in Hl |- *. rewrite lastByte_snoc in Hl. simpl in Hl.
  rewrite (lex_app_sep s' [c]) by exact Hl. simpl lex. rewrite Hl.
  rewrite renameItems_app, unlex_app. simpl. now rewrite lastByte_snoc.
Qed.

Hypothesis new_valid : ValidateIdentifier newName = true.

(** Renaming inside a span that starts at a non-identifier byte and ends
    at one, or at the end of the buffer, relates the runs of the whole
    buffer one by one. *)
Lemma scoped_words (a scope b : buffer) (c0 : ascii) :
  headByte scope = Some c0 -> isIdentChar c0 = false ->
  b = [] \/ isWordOpt (lastByte scope) = false ->
  Forall2 (renamedWord oldName newName)
    (words (a ++ scope ++ b))
    (words (a ++ fst (singlePassRename scope oldName newName ctx) ++ b)).
Proof.
  intros Hh Hc Hb.
  set (renamed := fst (singlePassRename scope oldName newName ctx)).
  assert (Hh' : headByte renamed = Some c0) by now apply rename_keeps_head.
  assert (Hsplit : forall s, headByte s = Some c0 ->
            (b = [] \/ isWordOpt (lastByte s) = false) ->
            words (a ++ s ++ b) = words a ++ words s ++ words b).
  { intros s Hs Hl. unfold words. rewrite lex_app_sep.
    - rewrite wordsOf_app. f_equal. destruct Hl as [-> | Hl].
      + now rewrite !app_nil_r.
      + now rewrite lex_app_last, wordsOf_app.
    - destruct s; [discriminate |]. simpl in *. injection Hs as ->. exact Hc. }
  rewrite (Hsplit scope Hh Hb).
  rewrite (Hsplit renamed Hh').
  - apply renamedWord_app; [apply renamedWord_refl |].
    apply renamedWord_app; [| apply renamedWord_refl].
    now apply singlePassRename_words.
  - destruct Hb as [Hb | Hb]; [now left | right]. now apply rename_keeps_last.
Qed.

End Scoped.

(** What one iteration of the parameter loop does: nothing, or a rename
    inside one span that starts at an opening parenthesis whose balanced
    section declares the target, and ends at the end of the buffer or just
    after a byte that is not an identifier byte. *)
Lemma paramStep_scope (oldName newName : buffer) (st st' : ParamState) (loc : nat * nat) :
  paramStep oldName newName st loc = Some st' ->
  st' = st
  \/ exists po pc be : nat,
       nth_error (result st) po = Some "("
       /\ findMatchingParen (result st) po = Some pc
       /\ hasParamName (slice (result st) po (pc + 1)) oldName = true
       /\ po < be
       /\ (skipn be (result st) = []
           \/ isWordOpt (lastByte (slice (result st) po be)) = false)
       /\ result st'
          = firstn po (result st)
            ++ fst (singlePassRename (slice (result st) po be) oldName newName
                      isParameterContext)
            ++ skipn be (result st)
       /\ total st'
          = total st
            + snd (singlePassRename (slice (result st) po be) oldName newName
                     isParameterContext).
Proof.
  unfold paramStep.
  destruct (_ || _); [discriminate |].
  set (funStart := Z.to_nat (Z.of_nat (fst loc) + offset st)).
  destruct (IndexByte (skipn funStart (result st)) "(") as [k |] eqn:Ek;
    [| intros [= <-]; now left].
  destruct (findMatchingParen (result st) (k + funStart)) as [pc |] eqn:Ep;
    [| intros [= <-]; now left].
  destruct (hasParamName _ oldName) eqn:Eh; simpl negb; cbv iota;
    [| intros [= <-]; now left].
  apply IndexByte_Some in Ek. rewrite nth_error_skipn in Ek.
  rewrite Nat.add_comm in Ek.
  pose proof (findMatchingParen_Some _ _ _ Ep) as [Hle Hpc].
  set (bodyEnd := match findFunctionBody (result st) (pc + 1) with
                  | Some (_, be) => be
                  | None => pc + 1
                  end).
  assert (Hbe : k + funStart < bodyEnd
                /\ (skipn bodyEnd (result st) = []
                    \/ isWordOpt (lastByte (slice (result st) (k + funStart) bodyEnd)) = false)).
  { unfold bodyEnd.
    destruct (findFunctionBody (result st) (pc + 1)) as [[bs be] |] eqn:Eb.
    - apply findFunctionBody_Some in Eb. destruct Eb as [Hlt [-> | (c & Hc & Hi)]].
      + split; [lia |]. left. apply skipn_all.
      + split; [lia |]. right.
        replace be with (be - 1 + 1) by lia.
        rewrite (lastByte_slice _ _ _ c); [exact Hi | lia | exact Hc].
    - split; [lia |]. right. now rewrite (lastByte_slice _ _ _ ")"). }
  destruct Hbe as [Hlt Hend].
  destruct (singlePassRename (slice (result st) (k + funStart) bodyEnd)
              oldName newName isParameterContext) as [renamed n] eqn:Er.
  destruct (0 <? n)%nat; [| intros [= <-]; now left].
  intros [= <-]. right. exists (k + funStart), pc, bodyEnd.
  rewrite Er. simpl. repeat split; assumption.
Qed.

(** One iteration of the parameter loop relates the runs one by one. *)
Lemma paramStep_words (oldName newName : buffer) (st st' : ParamState) (loc : nat * nat) :
  ValidateIdentifier oldName = true -> ValidateIdentifier newName = true ->
  paramStep oldName newName st loc = Some st' ->
  Forall2 (renamedWord oldName newName) (words (result st)) (words (result st')).
Proof.
  intros Ho Hn H.
  destruct (paramStep_scope _ _ _ _ _ H)
    as [-> | (po & pc & be & Hpo & _ & _ & Hlt & Hend & Hres & _)];
    [apply renamedWord_refl |].
  rewrite Hres. rewrite (slice_split (result st) po be) at 1 by lia.
  apply (scoped_words _ _ _ Ho Hn _ _ _ "(").
  - apply headByte_slice; [exact Hlt | exact Hpo].
  - reflexivity.
  - exact Hend.
Qed.

Lemma paramLoop_words (oldName newName : buffer) (locs : list (nat * nat)) :
  ValidateIdentifier oldName = true -> ValidateIdentifier newName = true ->
  forall st st' : ParamState,
    paramLoop oldName newName locs st = Some st' ->
    Forall2 (renamedWord oldName newName) (words (result st)) (words (result st')).
Proof.
  intros Ho Hn. induction locs as [| loc locs IH]; intros st st'; simpl.
  - intros [= <-]. apply renamedWord_refl.
  - destruct (paramStep oldName newName st loc) as [st1 |] eqn:E; [| discriminate].
    intros H. eapply renamedWord_trans.
    + exact (paramStep_words _ _ _ _ _ Ho Hn E).
    + now apply IH.
Qed.



(** C1. Substring safety, for the four kinds: whenever a rename returns,
    the identifier runs of its output are the runs of its input, one by one,
    except that a run equal to the target may have become the new name.  A
    longer identifier that contains the target ([UserService] for [User])
    is a run different from the target, so it is found unchanged at the
    same place in the sequence of runs. *)
Theorem substring_safety (kind : SymbolKind) (renameClass src oldName newName out : buffer)
    (n : nat) :
  ValidateIdentifier oldName = true -> ValidateIdentifier newName = true ->
  buildRenameFn kind renameClass oldName newName src = Some (out, n) ->
  Forall2 (renamedWord oldName newName) (words src) (words out)
  /\ forall (i : nat) (w : buffer),
       nth_error (words src) i = Some w -> w <> oldName ->
       nth_error (words out) i = Some w.
Proof.
  intros Ho Hn Hr.
  assert (H : Forall2 (renamedWord oldName newName) (words src) (words out)).
  { destruct kind; simpl in Hr.
    - injection Hr as Hr. replace out with (fst (ClassRename src oldName newName))
        by now rewrite Hr. now apply singlePassRename_words.
    - injection Hr as Hr.
      replace out with (fst (MethodRename {| MethodClassName := renameClass |}
                               src oldName newName)) by now rewrite Hr.
      now apply singlePassRename_words.
    - injection Hr as Hr.
      replace out with (fst (PropertyRename {| PropertyClassName := renameClass |}
                               src oldName newName)) by now rewrite Hr.
      now apply singlePassRename_words.
    - unfold ParameterRename, renameParameters in Hr.
      destruct (paramLoop _ _ _ _) as [st' |] eqn:E; [| discriminate].
      injection Hr as <- _.
      exact (paramLoop_words _ _ _ Ho Hn _ _ E). }
  split; [exact H | exact (renamedWord_keeps _ _ _ _ H)].
Qed.

Lemma substring_safety_witness :
  Forall2 (renamedWord (bytes "User") (bytes "UserAccount"))
    (words (bytes "class UserService(val user: User)"))
    (words (bytes "class UserService(val user: UserAccount)"))
  /\ forall (i : nat) (w : buffer),
       nth_error (words (bytes "class UserService(val user: User)")) i = Some w ->
       w <> bytes "User" ->
       nth_error (words (bytes "class UserService(val user: UserAccount)")) i = Some w.
Proof.
  apply (substring_safety KType [] (bytes "class UserService(val user: User)")
           (bytes "User") (bytes "UserAccount")
           (bytes "class UserService(val user: UserAccount)") 1);
    vm_compute; reflexivity.
Defined.

(** ** Occurrences as spans *)

Lemma firstn_exact (a r : buffer) : firstn (length a) (a ++ r) = a.
Proof.
  rewrite <- (Nat.add_0_r (length a)), firstn_app_2, firstn_O. apply app_nil_r.
Qed.

Lemma skipn_exact (a w b : buffer) : skipn (length a + length w) (a ++ w ++ b) = b.
Proof.
  rewrite app_assoc, <- length_app. rewrite skipn_app, Nat.sub_diag.
  now rewrite skipn_all.
Qed.

Lemma renameItems_words_length (ctx : contextFn) (src oldName newName : buffer)
    (l : list item) (pos : nat) :
  length (wordsOf (renameItems ctx src oldName newName pos l)) = length (wordsOf l).
Proof.
  symmetry. exact (Forall2_length (renameItems_words ctx src oldName newName l pos)).
Qed.

(** What the driver leaves at the place of one occurrence: the new name
    when the predicate accepts its span, the target otherwise. *)
Lemma run_at_occurrence (ctx : contextFn) (oldName newName a b : buffer) :
  ValidateIdentifier oldName = true -> ValidateIdentifier newName = true ->
  isWordOpt (lastByte a) = false -> isWordOpt (headByte b) = false ->
  nth_error (words (fst (singlePassRename (a ++ oldName ++ b) oldName newName ctx)))
            (length (words a))
  = Some (if ctx (a ++ oldName ++ b) (length a) (length a + length oldName)
          then newName else oldName).
Proof.
  intros Ho Hn Ha Hb. destruct (ValidateIdentifier_run _ Ho) as [Hne Hid].
  rewrite (singlePassRename_items _ _ _ _ Ho). simpl fst. unfold words.
  rewrite (lex_renameItems _ _ _ _ Hn).
  rewrite lex_app_last by exact Ha. rewrite lex_word_app by assumption.
  rewrite renameItems_app, wordsOf_app, unlex_lex.
  rewrite nth_error_app2 by (rewrite renameItems_words_length; lia).
  rewrite renameItems_words_length, Nat.sub_diag. simpl.
  unfold accepted. now rewrite beq_refl.
Qed.

(** ** The context predicates *)

Lemma startsWith_excl (post : buffer) (c d : ascii) :
  c <> d -> startsWith post c = true -> startsWith post d = false.
Proof.
  destruct post as [| x p]; simpl; [discriminate |].
  intros Hcd H. apply Ascii.eqb_eq in H. subst x. now apply Ascii.eqb_neq.
Qed.

(** The five accepting branches of [isPropertyContext] in one formula: the
    branches for [=] and [:] are covered by the default one. *)
Lemma isPropertyContext_formula (r : PropertyRenamer) (src : buffer) (s e : nat) :
  isPropertyContext r src s e
  = negb (endsWithIdent (firstn s src))
    && negb (startsWithIdent (TrimLeft (skipn e src)))
    && (HasSuffix (TrimRight (firstn s src)) (bytes ".")
        || HasSuffix (TrimRight (firstn s src)) (bytes "val")
        || HasSuffix (TrimRight (firstn s src)) (bytes "var")
        || negb (startsWith (TrimLeft (skipn e src)) "(")).
Proof.
  unfold isPropertyContext.
  destruct (endsWithIdent _); [reflexivity |].
  destruct (startsWithIdent _); [reflexivity |].
  destruct (HasSuffix _ (bytes ".")); [reflexivity |].
  destruct (HasSuffix _ (bytes "val")); [reflexivity |].
  destruct (HasSuffix _ (bytes "var")); [reflexivity |]. simpl.
  destruct (startsWith (TrimLeft (skipn e src)) "=") eqn:Eeq.
  - rewrite (startsWith_excl _ "=" "(") by (discriminate || exact Eeq).
    destruct (startsWith (tl _) "="); destruct (startsWith _ ":"); reflexivity.
  - destruct (startsWith (TrimLeft (skipn e src)) ":") eqn:Ec.
    + now rewrite (startsWith_excl _ ":" "(") by (discriminate || exact Ec).
    + now destruct (startsWith (TrimLeft (skipn e src)) "(").
Qed.

Lemma isMethodContext_formula (r : MethodRenamer) (src : buffer) (s e : nat) :
  isMethodContext r src s e
  = negb (endsWithIdent (firstn s src))
    && negb (startsWithIdent (TrimLeft (skipn e src)))
    && (HasSuffix (TrimRight (firstn s src)) (bytes "::")
        || HasSuffix (TrimRight (firstn s src)) (bytes "fun")
        || startsWith (TrimLeft (skipn e src)) "(").
Proof.
  unfold isMethodContext.
  destruct (endsWithIdent _); [reflexivity |].
  destruct (startsWithIdent _); [reflexivity |].
  destruct (HasSuffix _ (bytes "::")); [reflexivity |].
  destruct (HasSuffix _ (bytes "fun")); [reflexivity |].
  now destruct (startsWith _ "(").
Qed.

(** C3. The [ClassName] of the two renamers is never read: the predicate and
    the rename are the same whatever the class name, so a method rename
    with [--class CartService] rewrites the calls on every receiver. *)
Theorem className_ignored (className : buffer) :
  (forall src s e,
      isMethodContext {| MethodClassName := className |} src s e
      = isMethodContext methodRenamer src s e)
  /\ (forall src s e,
         isPropertyContext {| PropertyClassName := className |} src s e
         = isPropertyContext propertyRenamer src s e)
  /\ (forall kind src oldName newName,
         buildRenameFn kind className oldName newName src
         = buildRenameFn kind noClass oldName newName src)
  /\ buildRenameFn KFunction (bytes "CartService")
       (bytes "calculateTotal") (bytes "computeTotal") twoReceivers
     = Some (twoReceivers_renamed, 2).
Proof.
  split; [reflexivity |]. split; [reflexivity |]. split.
  - intros [] src oldName newName; reflexivity.
  - vm_compute. reflexivity.
Qed.

(** C4. In [if (c) ::calculateTotal else ::other] the first method
    reference is an occurrence at a word boundary, preceded by [::], and
    the Function predicate rejects it, because the byte that follows the
    blank after it is an identifier byte: the rename changes nothing. *)
Theorem method_reference_rejected :
  slice methodRefInIf 17 31 = bytes "calculateTotal"
  /\ endsWithIdent (firstn 17 methodRefInIf) = false
  /\ startsWithIdent (skipn 31 methodRefInIf) = false
  /\ HasSuffix (TrimRight (firstn 17 methodRefInIf)) (bytes "::") = true
  /\ isMethodContext methodRenamer methodRefInIf 17 31 = false
  /\ MethodRename methodRenamer methodRefInIf (bytes "calculateTotal") (bytes "computeTotal")
     = (methodRefInIf, 0).
Proof. vm_compute. repeat split; reflexivity. Qed.

(** Scenario A of the specification. *)
Example scenario_A :
  ClassRename
    (bytes ("class User(val name: String)" ++ nl ++ "class UserService(val user: User)")%string)
    (bytes "User") (bytes "UserAccount")
  = (bytes ("class UserAccount(val name: String)" ++ nl
            ++ "class UserService(val user: UserAccount)")%string, 2).
Proof. vm_compute. reflexivity. Qed.

(** Scenario B of the specification. *)
Example scenario_B :
  MethodRename methodRenamer scenarioB (bytes "calculateTotal") (bytes "computeTotal")
  = (bytes ("val total = cart.computeTotal()" ++ nl ++ "val x = computeTotal()")%string, 2)
  /\ MethodRename methodRenamer (bytes "val calculateTotal = 5")
       (bytes "calculateTotal") (bytes "computeTotal")
     = (bytes "val calculateTotal = 5", 0).
Proof. vm_compute. split; reflexivity. Qed.

(** C5, as stated, fails: a member call [cart.comboDiscount()] is an
    occurrence followed by an opening parenthesis, and the Property rename
    rewrites it. *)
Lemma property_call_site_counterexample :
  slice (bytes "val x = cart.comboDiscount()") 13 26 = bytes "comboDiscount"
  /\ startsWith (TrimLeft (skipn 26 (bytes "val x = cart.comboDiscount()"))) "(" = true
  /\ PropertyRename propertyRenamer (bytes "val x = cart.comboDiscount()")
       (bytes "comboDiscount") (bytes "bundle")
     = (bytes "val x = cart.bundle()", 1).
Proof. vm_compute. repeat split; reflexivity. Qed.

Lemma isPropertyContext_occurrence (r : PropertyRenamer) (oldName a b : buffer) :
  isWordOpt (lastByte a) = false ->
  isPropertyContext r (a ++ oldName ++ b) (length a) (length a + length oldName)
  = negb (startsWithIdent (TrimLeft b))
    && (HasSuffix (TrimRight a) (bytes ".")
        || HasSuffix (TrimRight a) (bytes "val")
        || HasSuffix (TrimRight a) (bytes "var")
        || negb (startsWith (TrimLeft b) "(")).
Proof.
  intros Ha. rewrite isPropertyContext_formula, firstn_exact, skipn_exact.
  unfold endsWithIdent. now rewrite Ha.
Qed.

(** C5, amended.  For an occurrence of the target at a word boundary: when
    it is followed, after blanks, by an opening parenthesis and the text
    before it, trimmed, ends with none of [.], [val], [var], the Property
    rename leaves the target at its place; when it is followed, after
    blanks, by a byte that is neither an opening parenthesis nor an
    identifier byte (or by nothing), the rename puts the new name at its
    place.  On scenario C the five bare uses are rewritten and the call
    [comboDiscount()] is kept. *)
Theorem property_call_site_rule (r : PropertyRenamer) (oldName newName a b : buffer) :
  ValidateIdentifier oldName = true -> ValidateIdentifier newName = true ->
  isWordOpt (lastByte a) = false -> isWordOpt (headByte b) = false ->
  (startsWith (TrimLeft b) "(" = true ->
   HasSuffix (TrimRight a) (bytes ".") = false ->
   HasSuffix (TrimRight a) (bytes "val") = false ->
   HasSuffix (TrimRight a) (bytes "var") = false ->
   nth_error (words (fst (PropertyRename r (a ++ oldName ++ b) oldName newName)))
             (length (words a)) = Some oldName)
  /\ (startsWith (TrimLeft b) "(" = false ->
      startsWithIdent (TrimLeft b) = false ->
      nth_error (words (fst (PropertyRename r (a ++ oldName ++ b) oldName newName)))
                (length (words a)) = Some newName)
  /\ PropertyRename r scenarioC (bytes "comboDiscount") (bytes "bundle")
     = (scenarioC_renamed, 5).
Proof.
  intros Ho Hn Ha Hb. unfold PropertyRename.
  rewrite (run_at_occurrence _ _ _ _ _ Ho Hn Ha Hb).
  rewrite (isPropertyContext_occurrence _ _ _ _ Ha).
  split; [| split].
  - intros Hp H1 H2 H3. rewrite Hp, H1, H2, H3. simpl. now rewrite andb_false_r.
  - intros Hp Hi. rewrite Hp, Hi. simpl. now rewrite !orb_true_r.
  - vm_compute. reflexivity.
Qed.

Lemma property_call_site_rule_witness :
  nth_error (words (fst (PropertyRename propertyRenamer
                           (bytes "val x = " ++ bytes "comboDiscount" ++ bytes "()")
                           (bytes "comboDiscount") (bytes "bundle"))))
            (length (words (bytes "val x = "))) = Some (bytes "comboDiscount").
Proof.
  apply (proj1 (property_call_site_rule propertyRenamer
                  (bytes "comboDiscount") (bytes "bundle") (bytes "val x = ") (bytes "()")
                  eq_refl eq_refl eq_refl eq_refl)); reflexivity.
Defined.

(** C10, as stated, fails: on [cart.comboDiscount()] the span passes the
    word-boundary test, the first byte after it is an opening parenthesis,
    and the predicate accepts: the rule for [.] is not covered by the
    default branch. *)
Lemma property_collapse_counterexample :
  ~ (isPropertyContext propertyRenamer (bytes "cart.comboDiscount()") 5 18 = true
     <-> (endsWithIdent (firstn 5 (bytes "cart.comboDiscount()")) = false
          /\ startsWithIdent (skipn 18 (bytes "cart.comboDiscount()")) = false)
         /\ startsWith (TrimLeft (skipn 18 (bytes "cart.comboDiscount()"))) "(" = false).
Proof.
  intros [H _]. assert (E : isPropertyContext propertyRenamer
                              (bytes "cart.comboDiscount()") 5 18 = true) by reflexivity.
  destruct (H E) as [_ H']. vm_compute in H'. discriminate.
Qed.

(** C10, amended.  For every buffer and span whose following text, once
    blanks are skipped, does not start with an identifier byte, the
    Property predicate accepts exactly when the byte before the span is not
    an identifier byte and either the first byte after the blanks is not an
    opening parenthesis or the text before the span, trimmed, ends with
    [.], [val] or [var].  The rules for [=] and [:] are covered by the
    default branch: an occurrence followed by [==] and a named argument are
    both rewritten. *)
Theorem property_predicate_collapse (r : PropertyRenamer) (src : buffer) (s e : nat) :
  startsWithIdent (TrimLeft (skipn e src)) = false ->
  (isPropertyContext r src s e = true
   <-> endsWithIdent (firstn s src) = false
       /\ (startsWith (TrimLeft (skipn e src)) "(" = false
           \/ HasSuffix (TrimRight (firstn s src)) (bytes ".") = true
           \/ HasSuffix (TrimRight (firstn s src)) (bytes "val") = true
           \/ HasSuffix (TrimRight (firstn s src)) (bytes "var") = true))
  /\ PropertyRename r (bytes "if (comboDiscount == 0) apply(comboDiscount = 1)")
       (bytes "comboDiscount") (bytes "bundle")
     = (bytes "if (bundle == 0) apply(bundle = 1)", 2).
Proof.
  intros Hi. split; [| vm_compute; reflexivity].
  rewrite isPropertyContext_formula, Hi.
  generalize (endsWithIdent (firstn s src)) as b0.
  generalize (startsWith (TrimLeft (skipn e src)) "(") as b1.
  generalize (HasSuffix (TrimRight (firstn s src)) (bytes ".")) as b2.
  generalize (HasSuffix (TrimRight (firstn s src)) (bytes "val")) as b3.
  generalize (HasSuffix (TrimRight (firstn s src)) (bytes "var")) as b4.
  intros [] [] [] [] []; simpl; intuition congruence.
Qed.

Lemma property_predicate_collapse_witness :
  isPropertyContext propertyRenamer (bytes "foo(comboDiscount = 1)") 4 17 = true
  <-> endsWithIdent (firstn 4 (bytes "foo(comboDiscount = 1)")) = false
      /\ (startsWith (TrimLeft (skipn 17 (bytes "foo(comboDiscount = 1)"))) "(" = false
          \/ HasSuffix (TrimRight (firstn 4 (bytes "foo(comboDiscount = 1)"))) (bytes ".") = true
          \/ HasSuffix (TrimRight (firstn 4 (bytes "foo(comboDiscount = 1)"))) (bytes "val") = true
          \/ HasSuffix (TrimRight (firstn 4 (bytes "foo(comboDiscount = 1)"))) (bytes "var") = true).
Proof.
  apply (proj1 (property_predicate_collapse propertyRenamer
                  (bytes "foo(comboDiscount = 1)") 4 17 eq_refl)).
Defined.

(** ** Malformed headers *)

Lemma parenDepth_cons (c : ascii) (r : buffer) :
  parenDepth (c :: r)
  = ((if Ascii.eqb c "(" then 1 else if Ascii.eqb c ")" then -1 else 0) + parenDepth r)%Z.
Proof. reflexivity. Qed.

Lemma matchDelim_never_zero (s : buffer) (i : nat) (depth : Z) :
  (forall k, k < length s -> (depth + parenDepth (firstn (S k) s) <> 0)%Z) ->
  matchDelim "(" ")" s i depth = None.
Proof.
  revert i depth. induction s as [| c s IH]; intros i depth H; [reflexivity |].
  assert (Hrec : forall k, k < length s ->
            (depth + ((if Ascii.eqb c "(" then 1 else if Ascii.eqb c ")" then -1 else 0)
                      + parenDepth (firstn (S k) s)) <> 0)%Z).
  { intros k Hk. specialize (H (S k) ltac:(simpl; lia)).
    rewrite firstn_cons, parenDepth_cons in H. exact H. }
  pose proof (H 0 ltac:(simpl; lia)) as H0.
  rewrite firstn_cons, firstn_O, parenDepth_cons in H0. simpl parenDepth in H0.
  simpl matchDelim. destruct (Ascii.eqb c "(").
  - apply IH. intros k Hk. specialize (Hrec k Hk). lia.
  - destruct (Ascii.eqb c ")").
    + destruct (depth - 1 =? 0)%Z eqn:Ez; [apply Z.eqb_eq in Ez; lia |].
      apply IH. intros k Hk. specialize (Hrec k Hk). lia.
    + apply IH. intros k Hk. specialize (Hrec k Hk). lia.
Qed.

(** When the depth never comes back to zero, no closing parenthesis is
    found. *)
Lemma findMatchingParen_never_zero (src : buffer) (open : nat) :
  (forall j, open <= j < length src -> parenDepth (slice src open (j + 1)) <> 0%Z) ->
  findMatchingParen src open = None.
Proof.
  intros H. unfold findMatchingParen. apply matchDelim_never_zero.
  intros k Hk. rewrite length_skipn in Hk.
  specialize (H (open + k) ltac:(lia)). unfold slice in H.
  replace (open + k + 1 - open) with (S k) in H by lia. lia.
Qed.

(** C9. A header whose parenthesis depth, counted from its opening
    parenthesis, never comes back to zero before the end of the buffer is
    skipped: the iteration raises no error and leaves the buffer, the offset
    and the count as they were, and the loop goes on with the next [fun]
    occurrence.  In [fun a((x: Int) { }] followed by [fun b(x: Int) { x }]
    the first header is skipped and the second function is renamed. *)
Theorem malformed_header_skipped (oldName newName : buffer) (st : ParamState)
    (loc : nat * nat) (rest : list (nat * nat)) (funStart k : nat) :
  (Z.of_nat (fst loc) + offset st)%Z = Z.of_nat funStart ->
  funStart <= length (result st) ->
  IndexByte (skipn funStart (result st)) "(" = Some k ->
  (forall j, k + funStart <= j < length (result st) ->
             parenDepth (slice (result st) (k + funStart) (j + 1)) <> 0%Z) ->
  paramStep oldName newName st loc = Some st
  /\ paramLoop oldName newName (loc :: rest) st = paramLoop oldName newName rest st
  /\ renameParameters malformedThenGood (bytes "x") (bytes "y")
     = Some (bytes ("fun a((x: Int) { }" ++ nl ++ "fun b(y: Int) { y }")%string, 2).
Proof.
  intros Hf Hle Hk Hd.
  assert (Hs : paramStep oldName newName st loc = Some st).
  { unfold paramStep. rewrite Hf.
    replace ((Z.of_nat funStart <? 0)%Z) with false by (symmetry; apply Z.ltb_ge; lia).
    replace ((Z.of_nat (length (result st)) <? Z.of_nat funStart)%Z) with false
      by (symmetry; apply Z.ltb_ge; lia).
    simpl orb. cbv iota. rewrite Nat2Z.id, Hk.
    now rewrite (findMatchingParen_never_zero _ _ Hd). }
  split; [exact Hs |]. split.
  - simpl. now rewrite Hs.
  - vm_compute. reflexivity.
Qed.

Lemma malformed_header_skipped_witness :
  paramStep (bytes "x") (bytes "y")
    {| result := bytes "fun a(x: Int"; offset := 0; total := 0 |} (0, 3)
  = Some {| result := bytes "fun a(x: Int"; offset := 0; total := 0 |}.
Proof.
  refine (proj1 (malformed_header_skipped (bytes "x") (bytes "y")
                   {| result := bytes "fun a(x: Int"; offset := 0; total := 0 |}
                   (0, 3) [] 0 5 eq_refl _ eq_refl _)).
  - simpl. lia.
  - intros j Hj. simpl in Hj.
    assert (Hc : j = 5 \/ j = 6 \/ j = 7 \/ j = 8 \/ j = 9 \/ j = 10 \/ j = 11) by lia.
    destruct Hc as [-> | [-> | [-> | [-> | [-> | [-> | ->]]]]]]; vm_compute; discriminate.
Defined.

(** ** The offset of the parameter loop and nested [fun] keywords *)

(** Scenario D of the specification: the declaration at file level is kept. *)
Example scenario_D :
  renameParameters scenarioD (bytes "userId") (bytes "accountId")
  = Some (scenarioD_renamed, 2).
Proof. vm_compute. reflexivity. Qed.

(** C6. In [nestedFun] the only header whose parameter list declares [x]
    is that of [a]; its scope is the first line, the span from 5 to 26.
    The header of the nested [fun()] opens at 19 and declares nothing.  The
    Parameter rename of [x] nevertheless rewrites the property of [class C]
    on the second line: once the first scope has grown by eight bytes, the
    position of the nested [fun] is moved by the whole offset, four bytes
    too far, and the scan for its parenthesis starts behind it. *)
Theorem parameter_scope_escaped :
  FindAllStringIndex (bytes "fun") nestedFun = [(0, 3); (16, 19)]
  /\ (IndexByte nestedFun "(" = Some 5
      /\ findMatchingParen nestedFun 5 = Some 12
      /\ hasParamName (slice nestedFun 5 13) (bytes "x") = true
      /\ findFunctionBody nestedFun 13 = Some (14, 26))
  /\ (IndexByte (skipn 16 nestedFun) "(" = Some 3
      /\ findMatchingParen nestedFun 19 = Some 20
      /\ hasParamName (slice nestedFun 19 21) (bytes "x") = false)
  /\ skipn 26 nestedFun = bytes "class C(val x: Int)"
  /\ renameParameters nestedFun (bytes "x") (bytes "xxxxx") = Some (nestedFun_renamed, 3).
Proof. vm_compute. repeat split; reflexivity. Qed.

(** C8. [nestedFun] has no run equal to [xxxxx]; renaming [x] to [xxxxx]
    and then [xxxxx] back to [x] as Parameter does not give the buffer
    back: the property of [class C], renamed by the first call, is not
    reached by the second. *)
Theorem parameter_round_trip_broken :
  existsb (beq (bytes "xxxxx")) (words nestedFun) = false
  /\ renameParameters nestedFun (bytes "x") (bytes "xxxxx") = Some (nestedFun_renamed, 3)
  /\ renameParameters nestedFun_renamed (bytes "xxxxx") (bytes "x") = Some (nestedFun_back, 2)
  /\ nestedFun_back <> nestedFun.
Proof.
  split; [vm_compute; reflexivity |]. split; [vm_compute; reflexivity |].
  split; [vm_compute; reflexivity |]. vm_compute. discriminate.
Qed.

(** The same offset makes [result[funStart:]] panic when the new name is
    shorter: here [funStart] is [26 - 30]. *)
Example parameter_rename_panics :
  renameParameters
    (bytes "fun f(accumulator: Int) { fun g() {}; accumulator + accumulator }")
    (bytes "accumulator") (bytes "a")
  = None.
Proof. vm_compute. reflexivity. Qed.

(** ** Contexts, run by run *)

Lemma isClassContext_twoSided : twoSided isClassContext classP.
Proof.
  intros src s e. unfold isClassContext, classP.
  destruct (endsWithIdent _); [reflexivity |]. now destruct (startsWithIdent _).
Qed.

Lemma isMethodContext_twoSided (r : MethodRenamer) : twoSided (isMethodContext r) methodP.
Proof. intros src s e. apply isMethodContext_formula. Qed.

Lemma isPropertyContext_twoSided (r : PropertyRenamer) :
  twoSided (isPropertyContext r) propertyP.
Proof. intros src s e. apply isPropertyContext_formula. Qed.

Section TwoSided.

Variables (ctx : contextFn) (P : ctxPred).
Hypothesis ctx_P : twoSided ctx P.
Variables (oldName newName : buffer).

Lemma renameItems_rw (src : buffer) (l : list item) :
  forall before suffix : buffer,
    src = before ++ unlex l ++ suffix ->
    renameItems ctx src oldName newName (length before) l
    = rwItems P oldName newName before l suffix.
Proof.
  induction l as [| [c | w] l IH]; intros before suffix Hsrc; [reflexivity | |].
  - simpl. f_equal. rewrite <- (IH (before ++ [c]) suffix).
    + rewrite length_app. simpl. now rewrite Nat.add_1_r.
    + rewrite Hsrc. simpl. now rewrite <- app_assoc.
  - simpl. f_equal.
    + unfold accepted. rewrite ctx_P. rewrite Hsrc. simpl unlex.
      rewrite <- app_assoc. now rewrite firstn_exact, skipn_exact.
    + rewrite <- (IH (before ++ w) suffix).
      * now rewrite length_app.
      * rewrite Hsrc. simpl. now rewrite <- !app_assoc.
Qed.

Lemma countItems_cnt (src : buffer) (l : list item) :
  forall before suffix : buffer,
    src = before ++ unlex l ++ suffix ->
    countItems ctx src oldName (length before) l
    = cntItems P oldName before l suffix.
Proof.
  induction l as [| [c | w] l IH]; intros before suffix Hsrc; [reflexivity | |].
  - simpl. rewrite <- (IH (before ++ [c]) suffix).
    + rewrite length_app. simpl. now rewrite Nat.add_1_r.
    + rewrite Hsrc. simpl. now rewrite <- app_assoc.
  - simpl. f_equal.
    + unfold accepted. rewrite ctx_P. rewrite Hsrc. simpl unlex.
      rewrite <- app_assoc. now rewrite firstn_exact, skipn_exact.
    + rewrite <- (IH (before ++ w) suffix).
      * now rewrite length_app.
      * rewrite Hsrc. simpl. now rewrite <- !app_assoc.
Qed.

End TwoSided.

Section Rewrite.

Variables (P : ctxPred) (oldName newName : buffer).

Lemma rwItems_app (a b : list item) :
  forall before suffix : buffer,
    rwItems P oldName newName before (a ++ b) suffix
    = rwItems P oldName newName before a (unlex b ++ suffix)
      ++ rwItems P oldName newName (before ++ unlex a) b suffix.
Proof.
  induction a as [| [c | w] a IH]; intros before suffix.
  - simpl. now rewrite app_nil_r.
  - simpl. rewrite IH. now rewrite <- app_assoc.
  - simpl. rewrite IH. rewrite unlex_app. now rewrite <- !app_assoc.
Qed.

Lemma rwItems_snoc_sep (a : list item) (c : ascii) (before suffix : buffer) :
  rwItems P oldName newName before (a ++ [Sep c]) suffix
  = rwItems P oldName newName before a (c :: suffix) ++ [Sep c].
Proof. now rewrite rwItems_app. Qed.

Lemma rwItems_snoc_word (a : list item) (w before suffix : buffer) :
  rwItems P oldName newName before (a ++ [Word w]) suffix
  = rwItems P oldName newName before a (w ++ suffix)
    ++ [Word (if beq w oldName && P (before ++ unlex a) suffix then newName else w)].
Proof. rewrite rwItems_app. simpl. now rewrite app_nil_r. Qed.

Hypothesis new_valid : ValidateIdentifier newName = true.

Lemma rwItems_sameShape (l : list item) :
  forall before suffix : buffer,
    forallb goodItem l = true ->
    Forall2 sameShape l (rwItems P oldName newName before l suffix).
Proof.
  induction l as [| i l IH]; intros before suffix Hg; [constructor |].
  simpl in Hg. apply andb_true_iff in Hg. destruct Hg as [Hi Hl].
  destruct i as [c | w]; simpl; constructor; try (apply IH; exact Hl).
  - repeat split; assumption.
  - repeat split; [exact Hi |].
    destruct (beq w oldName && P before (unlex l ++ suffix));
      [apply ValidateIdentifier_good; exact new_valid | exact Hi].
Qed.

End Rewrite.

Lemma wfItems_good (l : list item) : wfItems l = true -> forallb goodItem l = true.
Proof.
  induction l as [| i l IH]; [reflexivity |]. intros H. simpl.
  rewrite (wfItems_head _ _ H). apply IH. exact (wfItems_tail _ _ H).
Qed.

Lemma wfItems_app_l (a b : list item) : wfItems (a ++ b) = true -> wfItems a = true.
Proof.
  induction a as [| i a IH]; [reflexivity |]. simpl app. intros H.
  pose proof (wfItems_head _ _ H) as Hi. pose proof (wfItems_tail _ _ H) as Ht.
  simpl. rewrite Hi, (IH Ht). simpl.
  destruct i as [c | w]; [reflexivity |].
  pose proof (wfItems_after_word _ _ H) as Hn.
  destruct a as [| j a]; [reflexivity |]. simpl in Hn |- *. now rewrite Hn.
Qed.

Lemma wfItems_app_r (a b : list item) : wfItems (a ++ b) = true -> wfItems b = true.
Proof.
  induction a as [| i a IH]; [trivial |]. simpl app. intros H.
  apply IH. exact (wfItems_tail _ _ H).
Qed.

(** In a well-formed list the item before a run is not a run. *)
Lemma wfItems_before_word (a : list item) (w : buffer) (b : list item) :
  wfItems (a ++ Word w :: b) = true -> startsWithWord (rev a) = false.
Proof.
  induction a as [| i a IH]; [reflexivity |]. simpl app. intros H.
  pose proof (wfItems_tail _ _ H) as Ht. specialize (IH Ht).
  simpl rev. destruct (rev a) as [| j ra] eqn:E.
  - simpl. assert (a = []) by (apply (f_equal (@rev item)) in E;
      rewrite rev_involutive in E; exact E). subst a.
    destruct i as [c | u]; [reflexivity |].
    now pose proof (wfItems_after_word _ _ H) as Hn.
  - simpl. exact IH.
Qed.

(** ** What a predicate sees of the text after the span *)

Lemma isIdentChar_not_blank (c : ascii) : isIdentChar c = true -> isBlank c = false.
Proof.
  intros H. unfold isBlank. destruct (Ascii.eqb c " ") eqn:E1.
  - apply Ascii.eqb_eq in E1. subst c. discriminate.
  - destruct (Ascii.eqb c "009") eqn:E2; [| reflexivity].
    apply Ascii.eqb_eq in E2. subst c. discriminate.
Qed.

Lemma goodWord_head (w : buffer) :
  goodItem (Word w) = true ->
  exists c t, w = c :: t /\ isIdentChar c = true.
Proof.
  intros H. destruct (goodWord_inv _ H) as [Hne Hid].
  destruct w as [| c t]; [congruence |]. simpl in Hid.
  apply andb_true_iff in Hid. exists c, t. tauto.
Qed.

(** After the blanks, the two texts start with the same byte, or both with
    an identifier byte. *)
Lemma post_head (b b' : list item) :
  Forall2 sameShape b b' ->
  headByte (TrimLeft (unlex b)) = headByte (TrimLeft (unlex b'))
  \/ (startsWithIdent (TrimLeft (unlex b)) = true
      /\ startsWithIdent (TrimLeft (unlex b')) = true).
Proof.
  induction 1 as [| i i' b b' (Hi & Hi' & Hs) Hb IH]; [now left |].
  destruct i as [c | w], i' as [c' | w']; try contradiction.
  - subst c'. simpl. unfold TrimLeft. simpl. destruct (isBlank c); [exact IH | now left].
  - right. destruct (goodWord_head _ Hi) as (c & t & -> & Hc).
    destruct (goodWord_head _ Hi') as (c' & t' & -> & Hc').
    simpl. unfold TrimLeft, startsWithIdent. simpl.
    rewrite (isIdentChar_not_blank _ Hc), (isIdentChar_not_blank _ Hc'). simpl.
    now rewrite Hc, Hc'.
Qed.

Lemma post_startsWithIdent (b b' : list item) :
  Forall2 sameShape b b' ->
  startsWithIdent (TrimLeft (unlex b)) = startsWithIdent (TrimLeft (unlex b')).
Proof.
  intros H. destruct (post_head _ _ H) as [E | [E1 E2]].
  - unfold startsWithIdent. now rewrite E.
  - now rewrite E1, E2.
Qed.

Lemma startsWith_headByte (s : buffer) (c : ascii) :
  startsWith s c = match headByte s with Some b => Ascii.eqb b c | None => false end.
Proof. now destruct s. Qed.

Lemma post_startsWith (b b' : list item) (c : ascii) :
  isIdentChar c = false -> Forall2 sameShape b b' ->
  startsWith (TrimLeft (unlex b)) c = startsWith (TrimLeft (unlex b')) c.
Proof.
  intros Hc H. rewrite !startsWith_headByte.
  destruct (post_head _ _ H) as [E | [E1 E2]]; [now rewrite E |].
  unfold startsWithIdent in E1, E2.
  destruct (headByte (TrimLeft (unlex b))) as [x |]; [| discriminate].
  destruct (headByte (TrimLeft (unlex b'))) as [y |]; [| discriminate].
  simpl in E1, E2.
  assert (Hx : Ascii.eqb x c = false) by (apply Ascii.eqb_neq; congruence).
  assert (Hy : Ascii.eqb y c = false) by (apply Ascii.eqb_neq; congruence).
  now rewrite Hx, Hy.
Qed.

Lemma post_untrimmed (b b' : list item) :
  Forall2 sameShape b b' ->
  startsWithIdent (unlex b) = startsWithIdent (unlex b').
Proof.
  intros H. destruct H as [| i i' b b' (Hi & Hi' & Hs) Hb]; [reflexivity |].
  destruct i as [c | w], i' as [c' | w']; try contradiction.
  - now subst c'.
  - destruct (goodWord_head _ Hi) as (c & t & -> & Hc).
    destruct (goodWord_head _ Hi') as (c' & t' & -> & Hc').
    unfold startsWithIdent. simpl. now rewrite Hc, Hc'.
Qed.

(** ** What a predicate sees of the text before the span *)

Lemma unlexR_app (l m : list item) : unlexR (l ++ m) = unlexR l ++ unlexR m.
Proof.
  induction l as [| j l IH]; [reflexivity |]. simpl. now rewrite IH, app_assoc.
Qed.

Lemma rev_unlex (a : list item) : rev (unlex a) = unlexR (rev a).
Proof.
  induction a as [| i a IH]; [reflexivity |].
  simpl. rewrite rev_app_distr, IH, unlexR_app. simpl. now rewrite app_nil_r.
Qed.

Lemma lastByte_rev (s : buffer) : lastByte s = headByte (rev s).
Proof.
  destruct s as [| x s0]; [reflexivity |].
  destruct (exists_last (l := x :: s0)) as (s' & c & ->); [discriminate |].
  now rewrite lastByte_snoc, rev_app_distr.
Qed.

Lemma HasSuffix_TrimRight (pre suf : buffer) :
  HasSuffix (TrimRight pre) suf = HasPrefix (dropWhile isBlank (rev pre)) (rev suf).
Proof. unfold HasSuffix, TrimRight. now rewrite rev_involutive. Qed.

Lemma HasPrefix_cons (c x : ascii) (t p : buffer) :
  HasPrefix (c :: t) (x :: p) = Ascii.eqb x c && HasPrefix t p.
Proof. unfold HasPrefix. simpl. now destruct (Ascii.eqb x c). Qed.

Lemma HasPrefix_class (c x : ascii) (t p : buffer) :
  isIdentChar c <> isIdentChar x -> HasPrefix (c :: t) (x :: p) = false.
Proof.
  intros H. rewrite HasPrefix_cons.
  destruct (Ascii.eqb x c) eqn:E; [| reflexivity].
  apply Ascii.eqb_eq in E. now subst.
Qed.

(** A prefix made of identifier bytes is looked for in the leading run only. *)
Lemma HasPrefix_run (a t p : buffer) :
  forallb isIdentChar p = true -> isWordOpt (headByte t) = false ->
  HasPrefix (a ++ t) p = HasPrefix a p.
Proof.
  revert p. induction a as [| y a IH]; intros p Hp Ht.
  - destruct p as [| x p]; [reflexivity |]. simpl in Hp.
    apply andb_true_iff in Hp. destruct Hp as [Hx _].
    destruct t as [| c t]; [reflexivity |]. simpl in Ht.
    simpl app. rewrite HasPrefix_class by congruence. reflexivity.
  - destruct p as [| x p]; [reflexivity |]. simpl in Hp.
    apply andb_true_iff in Hp. destruct Hp as [_ Hp].
    simpl app. rewrite !HasPrefix_cons. now rewrite IH.
Qed.

Lemma rev_good (w : buffer) :
  goodItem (Word w) = true ->
  exists c t, rev w = c :: t /\ isIdentChar c = true.
Proof.
  intros H. destruct (goodWord_inv _ H) as [Hne Hid].
  destruct (rev w) as [| c t] eqn:E.
  - exfalso. apply Hne. apply (f_equal (@rev ascii)) in E.
    now rewrite rev_involutive in E.
  - exists c, t. split; [reflexivity |].
    rewrite forallb_forall in Hid. apply Hid. apply in_rev. rewrite E. now left.
Qed.

Lemma unlexR_head_sep (r r' : list item) :
  startsWithWord r = false -> Forall2 sameShape r r' ->
  isWordOpt (headByte (unlexR r)) = false /\ isWordOpt (headByte (unlexR r')) = false.
Proof.
  intros Hs H. destruct H as [| i i' r r' (Hi & Hi' & Hsh) Hr]; [now split |].
  destruct i as [c | w]; [| discriminate]. destruct i' as [c' | w']; [| contradiction].
  subst c'. simpl in Hi. apply negb_true_iff in Hi. simpl. now rewrite Hi.
Qed.

(** A prefix made of bytes that are not identifier bytes. *)
Lemma HasPrefix_seps (p : buffer) :
  forallb (fun c => negb (isIdentChar c)) p = true ->
  forall l l' : list item,
    Forall2 sameShape l l' -> HasPrefix (unlexR l) p = HasPrefix (unlexR l') p.
Proof.
  induction p as [| x p IH]; intros Hp l l' H; [reflexivity |].
  simpl in Hp. apply andb_true_iff in Hp. destruct Hp as [Hx Hp].
  apply negb_true_iff in Hx.
  destruct H as [| i i' l l' (Hi & Hi' & Hsh) Hl]; [reflexivity |].
  destruct i as [c | w], i' as [c' | w']; try contradiction.
  - subst c'. simpl. rewrite !HasPrefix_cons. now rewrite (IH Hp _ _ Hl).
  - destruct (rev_good _ Hi) as (c & t & E & Hc).
    destruct (rev_good _ Hi') as (c' & t' & E' & Hc').
    simpl. rewrite E, E'. simpl app.
    rewrite !HasPrefix_class by congruence. reflexivity.
Qed.

Lemma preRel_sameShape (r r' : list item) : preRel r r' -> Forall2 sameShape r r'.
Proof.
  induction 1 as [| c r r' Hb H IH | c r r' Hb Hc H | w r r' Hw Hs H].
  - constructor.
  - constructor; [| exact IH]. unfold isBlank in Hb.
    assert (Hc : isIdentChar c = false).
    { destruct (isIdentChar c) eqn:E; [| reflexivity].
      apply isIdentChar_not_blank in E. unfold isBlank in E. congruence. }
    repeat split; simpl; now rewrite Hc.
  - constructor; [| exact H]. repeat split; simpl; now rewrite Hc.
  - constructor; [| exact H]. repeat split; assumption.
Qed.

(** The suffix tests of the predicates give the same answer on two related
    texts. *)
Lemma pre_suffix (p : buffer) (r r' : list item) :
  uniform p -> preRel r r' ->
  HasPrefix (dropWhile isBlank (unlexR r)) p = HasPrefix (dropWhile isBlank (unlexR r')) p.
Proof.
  intros Hu H. induction H as [| c r r' Hb H IH | c r r' Hb Hc H | w r r' Hw Hs H].
  - reflexivity.
  - simpl. now rewrite Hb.
  - simpl. rewrite Hb. destruct p as [| x p]; [reflexivity |].
    destruct Hu as [Hu | Hu].
    + simpl in Hu. apply andb_true_iff in Hu. destruct Hu as [Hx _].
      rewrite !HasPrefix_class by congruence. reflexivity.
    + apply (HasPrefix_seps (x :: p) Hu (Sep c :: r) (Sep c :: r')).
      constructor; [| exact H]. repeat split; simpl; now rewrite Hc.
  - destruct (rev_good _ Hw) as (c & t & E & Hc).
    simpl. rewrite E. simpl. rewrite (isIdentChar_not_blank _ Hc).
    destruct p as [| x p]; [reflexivity |].
    destruct Hu as [Hu | Hu].
    + destruct (unlexR_head_sep _ _ Hs H) as [H1 H2].
      change (c :: t ++ unlexR r) with ((c :: t) ++ unlexR r).
      change (c :: t ++ unlexR r') with ((c :: t) ++ unlexR r').
      now rewrite !HasPrefix_run.
    + simpl in Hu. apply andb_true_iff in Hu. destruct Hu as [Hx _].
      apply negb_true_iff in Hx.
      rewrite !HasPrefix_class by congruence. reflexivity.
Qed.

Lemma pre_endsWithIdent (a a' : list item) :
  Forall2 sameShape (rev a) (rev a') ->
  endsWithIdent (unlex a) = endsWithIdent (unlex a').
Proof.
  intros H. unfold endsWithIdent. rewrite !lastByte_rev, !rev_unlex.
  destruct H as [| i i' r r' (Hi & Hi' & Hsh) Hr]; [reflexivity |].
  destruct i as [c | w], i' as [c' | w']; try contradiction.
  - now subst c'.
  - destruct (rev_good _ Hi) as (c & t & E & Hc).
    destruct (rev_good _ Hi') as (c' & t' & E' & Hc').
    simpl. rewrite E, E'. simpl. now rewrite Hc, Hc'.
Qed.

Lemma pre_HasSuffix (suf : buffer) (a a' : list item) :
  uniform (rev suf) -> preRel (rev a) (rev a') ->
  HasSuffix (TrimRight (unlex a)) suf = HasSuffix (TrimRight (unlex a')) suf.
Proof.
  intros Hu H. rewrite !HasSuffix_TrimRight, !rev_unlex. now apply pre_suffix.
Qed.

Lemma Forall2_sameShape_rev (a a' : list item) :
  Forall2 sameShape a a' -> Forall2 sameShape (rev a) (rev a').
Proof.
  induction 1 as [| i i' a a' Hi H IH]; [constructor |].
  simpl. apply Forall2_app; [exact IH | now constructor].
Qed.

Section Blocked.

Variables (P : ctxPred) (oldName newName : buffer).
Hypothesis new_valid : ValidateIdentifier newName = true.

(** The predicate rejects a span followed, after blanks, by an identifier
    byte. *)
Hypothesis blocked :
  forall pre post, startsWithIdent (TrimLeft post) = true -> P pre post = false.

Lemma rwItems_preRel (a : list item) :
  wfItems a = true ->
  forall before suffix : buffer,
    startsWithIdent (TrimLeft suffix) = true ->
    preRel (rev a) (rev (rwItems P oldName newName before a suffix)).
Proof.
  induction a as [| i a IH] using rev_ind; intros Hwf before suffix Hs; [constructor |].
  pose proof (wfItems_app_l _ _ Hwf) as Ha.
  pose proof (wfItems_good _ Hwf) as Hg. rewrite forallb_app in Hg.
  apply andb_true_iff in Hg. destruct Hg as [Hga Hgi]. simpl in Hgi.
  rewrite andb_true_r in Hgi.
  destruct i as [c | w].
  - rewrite rwItems_snoc_sep, !rev_unit. simpl in Hgi. apply negb_true_iff in Hgi.
    destruct (isBlank c) eqn:Eb.
    + apply preRel_blank; [exact Eb |]. apply IH; [exact Ha |].
      unfold TrimLeft. simpl. now rewrite Eb.
    + apply preRel_sep; [exact Eb | exact Hgi |].
      apply Forall2_sameShape_rev. now apply rwItems_sameShape.
  - rewrite rwItems_snoc_word, !rev_unit. rewrite (blocked _ _ Hs), andb_false_r.
    apply preRel_word; [exact Hgi | exact (wfItems_before_word _ _ _ Hwf) |].
    apply Forall2_sameShape_rev. now apply rwItems_sameShape.
Qed.

End Blocked.

Section TwicePass.

Variables (P : ctxPred) (oldName newName : buffer).

(** The decision on a run is the same in the buffer and in the renamed
    buffer. *)
Hypothesis stable :
  forall (a : list item) (w : buffer) (b : list item),
    wfItems (a ++ Word w :: b) = true ->
    P (unlex (rwItems P oldName newName [] a (w ++ unlex b)))
      (unlex (rwItems P oldName newName (unlex a ++ w) b []))
    = P (unlex a) (unlex b).

Lemma wfItems_snoc_shift (a : list item) (i : item) (l : list item) :
  wfItems (a ++ i :: l) = true -> wfItems ((a ++ [i]) ++ l) = true.
Proof. now rewrite <- app_assoc. Qed.

(** Renaming the target a second time changes nothing. *)
Lemma rwItems_twice (l : list item) :
  oldName <> newName ->
  forall a : list item,
    wfItems (a ++ l) = true ->
    rwItems P oldName newName (unlex (rwItems P oldName newName [] a (unlex l)))
      (rwItems P oldName newName (unlex a) l []) []
    = rwItems P oldName newName (unlex a) l []
    /\ cntItems P oldName (unlex (rwItems P oldName newName [] a (unlex l)))
         (rwItems P oldName newName (unlex a) l []) [] = 0.
Proof.
  intros Hne. induction l as [| i l IH]; intros a Hwf; [now split |].
  specialize (IH (a ++ [i]) (wfItems_snoc_shift _ _ _ Hwf)).
  destruct i as [c | w].
  - rewrite rwItems_snoc_sep, !unlex_app in IH. simpl in IH. simpl.
    destruct IH as [IH1 IH2]. split; [now rewrite IH1 | exact IH2].
  - rewrite rwItems_snoc_word, !unlex_app in IH. simpl in IH.
    rewrite !app_nil_r in IH. simpl. rewrite !app_nil_r.
    rewrite (stable a w l Hwf).
    destruct IH as [IH1 IH2].
    destruct (beq w oldName && P (unlex a) (unlex l)) eqn:Ed.
    + assert (En : beq newName oldName = false) by (apply beq_false_iff; congruence).
      rewrite En. simpl. split; [now rewrite IH1 | exact IH2].
    + rewrite Ed. simpl. split; [now rewrite IH1 | exact IH2].
Qed.

(** Renaming the new name back to the target restores the items, when no
    run of the buffer is the new name. *)
Lemma rwItems_back (l : list item) :
  Forall (fun w => w <> newName) (wordsOf l) ->
  forall a : list item,
    wfItems (a ++ l) = true ->
    rwItems P newName oldName (unlex (rwItems P oldName newName [] a (unlex l)))
      (rwItems P oldName newName (unlex a) l []) []
    = l.
Proof.
  induction l as [| i l IH]; intros Hno a Hwf; [reflexivity |].
  destruct i as [c | w].
  - specialize (IH Hno (a ++ [Sep c]) (wfItems_snoc_shift _ _ _ Hwf)).
    rewrite rwItems_snoc_sep, !unlex_app in IH. simpl in IH. simpl. now rewrite IH.
  - simpl in Hno. inversion Hno as [| w0 ws Hw Hws]; subst.
    specialize (IH Hws (a ++ [Word w]) (wfItems_snoc_shift _ _ _ Hwf)).
    rewrite rwItems_snoc_word, !unlex_app in IH. simpl in IH.
    rewrite !app_nil_r in IH. simpl. rewrite !app_nil_r.
    rewrite (stable a w l Hwf).
    destruct (beq w oldName && P (unlex a) (unlex l)) eqn:Ed.
    + apply andb_true_iff in Ed. destruct Ed as [Ew Ep].
      apply beq_true_iff in Ew. rewrite beq_refl, Ep. simpl. now rewrite IH, Ew.
    + assert (En : beq w newName = false) by now apply beq_false_iff.
      rewrite En. simpl. now rewrite IH.
Qed.

End TwicePass.

(** ** The three single-pass predicates decide the same way after the rename *)

Section Stable.

Variables (oldName newName : buffer).
Hypothesis new_valid : ValidateIdentifier newName = true.

Lemma classP_stable (a : list item) (w : buffer) (b : list item) :
  wfItems (a ++ Word w :: b) = true ->
  classP (unlex (rwItems classP oldName newName [] a (w ++ unlex b)))
         (unlex (rwItems classP oldName newName (unlex a ++ w) b []))
  = classP (unlex a) (unlex b).
Proof.
  intros Hwf. unfold classP at 1 4.
  pose proof (wfItems_good _ (wfItems_app_l _ _ Hwf)) as Ha.
  pose proof (wfItems_good _ (wfItems_tail _ _ (wfItems_app_r _ _ Hwf))) as Hb.
  rewrite <- (pre_endsWithIdent a
                (rwItems classP oldName newName [] a (w ++ unlex b)))
    by (apply Forall2_sameShape_rev; now apply rwItems_sameShape).
  rewrite <- (post_untrimmed b (rwItems classP oldName newName (unlex a ++ w) b []))
    by now apply rwItems_sameShape.
  reflexivity.
Qed.

Lemma word_blocks (w rest : buffer) :
  goodItem (Word w) = true -> startsWithIdent (TrimLeft (w ++ rest)) = true.
Proof.
  intros H. destruct (goodWord_head _ H) as (c & t & -> & Hc).
  unfold TrimLeft, startsWithIdent. simpl.
  rewrite (isIdentChar_not_blank _ Hc). simpl. exact Hc.
Qed.

Lemma methodP_blocked (pre post : buffer) :
  startsWithIdent (TrimLeft post) = true -> methodP pre post = false.
Proof. intros H. unfold methodP. rewrite H. simpl. now rewrite andb_false_r. Qed.

Lemma propertyP_blocked (pre post : buffer) :
  startsWithIdent (TrimLeft post) = true -> propertyP pre post = false.
Proof. intros H. unfold propertyP. rewrite H. simpl. now rewrite andb_false_r. Qed.

Lemma methodP_stable (a : list item) (w : buffer) (b : list item) :
  wfItems (a ++ Word w :: b) = true ->
  methodP (unlex (rwItems methodP oldName newName [] a (w ++ unlex b)))
          (unlex (rwItems methodP oldName newName (unlex a ++ w) b []))
  = methodP (unlex a) (unlex b).
Proof.
  intros Hwf. unfold methodP at 1 4.
  pose proof (wfItems_app_l _ _ Hwf) as Ha.
  pose proof (wfItems_app_r _ _ Hwf) as Hwb.
  pose proof (wfItems_head _ _ Hwb) as Hw.
  pose proof (wfItems_good _ (wfItems_tail _ _ Hwb)) as Hb.
  pose proof (rwItems_preRel methodP oldName newName new_valid methodP_blocked
                a Ha [] (w ++ unlex b) (word_blocks _ _ Hw)) as Hpre.
  pose proof (rwItems_sameShape methodP oldName newName new_valid
                b (unlex a ++ w) [] Hb) as Hpost.
  rewrite <- (pre_endsWithIdent _ _ (preRel_sameShape _ _ Hpre)).
  rewrite <- (pre_HasSuffix (bytes "::") _ _ (or_intror eq_refl) Hpre).
  rewrite <- (pre_HasSuffix (bytes "fun") _ _ (or_introl eq_refl) Hpre).
  rewrite <- (post_startsWithIdent _ _ Hpost).
  rewrite <- (post_startsWith _ _ "(" eq_refl Hpost).
  reflexivity.
Qed.

Lemma propertyP_stable (a : list item) (w : buffer) (b : list item) :
  wfItems (a ++ Word w :: b) = true ->
  propertyP (unlex (rwItems propertyP oldName newName [] a (w ++ unlex b)))
            (unlex (rwItems propertyP oldName newName (unlex a ++ w) b []))
  = propertyP (unlex a) (unlex b).
Proof.
  intros Hwf. unfold propertyP at 1 4.
  pose proof (wfItems_app_l _ _ Hwf) as Ha.
  pose proof (wfItems_app_r _ _ Hwf) as Hwb.
  pose proof (wfItems_head _ _ Hwb) as Hw.
  pose proof (wfItems_good _ (wfItems_tail _ _ Hwb)) as Hb.
  pose proof (rwItems_preRel propertyP oldName newName new_valid propertyP_blocked
                a Ha [] (w ++ unlex b) (word_blocks _ _ Hw)) as Hpre.
  pose proof (rwItems_sameShape propertyP oldName newName new_valid
                b (unlex a ++ w) [] Hb) as Hpost.
  rewrite <- (pre_endsWithIdent _ _ (preRel_sameShape _ _ Hpre)).
  rewrite <- (pre_HasSuffix (bytes ".") _ _ (or_intror eq_refl) Hpre).
  rewrite <- (pre_HasSuffix (bytes "val") _ _ (or_introl eq_refl) Hpre).
  rewrite <- (pre_HasSuffix (bytes "var") _ _ (or_introl eq_refl) Hpre).
  rewrite <- (post_startsWithIdent _ _ Hpost).
  rewrite <- (post_startsWith _ _ "(" eq_refl Hpost).
  reflexivity.
Qed.

End Stable.

(** ** Repeating and undoing a single-pass rename *)

Section SinglePassTwice.

Variables (ctx : contextFn) (P : ctxPred).
Hypothesis ctx_P : twoSided ctx P.
Variables (oldName newName : buffer).
Hypothesis old_valid : ValidateIdentifier oldName = true.
Hypothesis new_valid : ValidateIdentifier newName = true.
Hypothesis stable :
  forall (a : list item) (w : buffer) (b : list item),
    wfItems (a ++ Word w :: b) = true ->
    P (unlex (rwItems P oldName newName [] a (w ++ unlex b)))
      (unlex (rwItems P oldName newName (unlex a ++ w) b []))
    = P (unlex a) (unlex b).

Lemma singlePassRename_rw (src : buffer) :
  fst (singlePassRename src oldName newName ctx)
  = unlex (rwItems P oldName newName [] (lex src) []).
Proof.
  rewrite (singlePassRename_items _ _ _ _ old_valid). simpl fst. f_equal.
  apply (renameItems_rw ctx P ctx_P oldName newName src (lex src) [] []).
  simpl. now rewrite app_nil_r, unlex_lex.
Qed.

Lemma lex_rw (src : buffer) :
  lex (unlex (rwItems P oldName newName [] (lex src) []))
  = rwItems P oldName newName [] (lex src) [].
Proof.
  rewrite <- (renameItems_rw ctx P ctx_P oldName newName src (lex src) [] [])
    by (simpl; now rewrite app_nil_r, unlex_lex).
  simpl length. now apply lex_renameItems.
Qed.

Lemma singlePassRename_twice (src : buffer) :
  oldName <> newName ->
  singlePassRename (fst (singlePassRename src oldName newName ctx)) oldName newName ctx
  = (fst (singlePassRename src oldName newName ctx), 0).
Proof.
  intros Hne. rewrite singlePassRename_rw.
  set (l1 := rwItems P oldName newName [] (lex src) []).
  rewrite (singlePassRename_items _ _ _ _ old_valid).
  unfold l1 at 2 4. rewrite lex_rw. fold l1.
  pose proof (renameItems_rw ctx P ctx_P oldName newName (unlex l1) l1 [] []
                ltac:(simpl; now rewrite app_nil_r)) as E1.
  pose proof (countItems_cnt ctx P ctx_P oldName (unlex l1) l1 [] []
                ltac:(simpl; now rewrite app_nil_r)) as E2.
  simpl length in E1, E2. rewrite E1, E2.
  destruct (rwItems_twice P oldName newName stable (lex src) Hne []
              ltac:(simpl; apply lex_wf)) as [H1 H2].
  simpl in H1, H2. fold l1 in H1, H2. now rewrite H1, H2.
Qed.

Lemma singlePassRename_back (src : buffer) :
  Forall (fun w => w <> newName) (words src) ->
  fst (singlePassRename (fst (singlePassRename src oldName newName ctx))
         newName oldName ctx)
  = src.
Proof.
  intros Hno. rewrite singlePassRename_rw.
  set (l1 := rwItems P oldName newName [] (lex src) []).
  rewrite (singlePassRename_items _ _ _ _ new_valid). simpl fst.
  unfold l1 at 2. rewrite lex_rw. fold l1.
  pose proof (renameItems_rw ctx P ctx_P newName oldName (unlex l1) l1 [] []
                ltac:(simpl; now rewrite app_nil_r)) as E1.
  simpl length in E1. rewrite E1.
  pose proof (rwItems_back P oldName newName stable (lex src) Hno []
                ltac:(simpl; apply lex_wf)) as H.
  simpl in H. fold l1 in H. rewrite H. apply unlex_lex.
Qed.

End SinglePassTwice.

(** C7, as stated, fails for the Parameter kind: [fun] is a name that
    [ValidateIdentifier] accepts, and once [x] is renamed to it the buffer
    has two more [fun] keywords for the scope resolver; the second call
    takes the call [h(x: Int)] of the next line as a parameter list and
    rewrites it. *)
Lemma repeat_counterexample :
  ValidateIdentifier (bytes "x") = true
  /\ ValidateIdentifier (bytes "fun") = true
  /\ bytes "x" <> bytes "fun"
  /\ buildRenameFn KParameter noClass (bytes "x") (bytes "fun") funAsName
     = Some (funAsName_once, 2)
  /\ buildRenameFn KParameter noClass (bytes "x") (bytes "fun") funAsName_once
     = Some (funAsName_twice, 1).
Proof.
  split; [reflexivity |]. split; [reflexivity |]. split; [discriminate |].
  split; vm_compute; reflexivity.
Qed.

(** C7, amended.  For the Type, Function and Property kinds, every buffer
    and two distinct validated names: applied to the output of
    [rename(old, new)], the same rename returns its input unchanged and the
    count 0. *)
Theorem repeat_is_identity (kind : SymbolKind) (renameClass src oldName newName out : buffer)
    (n : nat) :
  kind <> KParameter ->
  ValidateIdentifier oldName = true -> ValidateIdentifier newName = true ->
  oldName <> newName ->
  buildRenameFn kind renameClass oldName newName src = Some (out, n) ->
  buildRenameFn kind renameClass oldName newName out = Some (out, 0).
Proof.
  intros Hk Ho Hn Hne Hr. destruct kind; simpl in Hr |- *; [| | | congruence].
  - injection Hr as Hr. f_equal. unfold ClassRename in *.
    replace out with (fst (singlePassRename src oldName newName isClassContext))
      by now rewrite Hr.
    exact (singlePassRename_twice _ _ isClassContext_twoSided _ _ Ho Hn
             (classP_stable _ _ Hn) src Hne).
  - injection Hr as Hr. f_equal. unfold MethodRename in *.
    replace out with (fst (singlePassRename src oldName newName
                             (isMethodContext {| MethodClassName := renameClass |})))
      by now rewrite Hr.
    exact (singlePassRename_twice _ _ (isMethodContext_twoSided _) _ _ Ho Hn
             (methodP_stable _ _ Hn) src Hne).
  - injection Hr as Hr. f_equal. unfold PropertyRename in *.
    replace out with (fst (singlePassRename src oldName newName
                             (isPropertyContext {| PropertyClassName := renameClass |})))
      by now rewrite Hr.
    exact (singlePassRename_twice _ _ (isPropertyContext_twoSided _) _ _ Ho Hn
             (propertyP_stable _ _ Hn) src Hne).
Qed.

Lemma repeat_is_identity_witness :
  buildRenameFn KFunction noClass (bytes "calculateTotal") (bytes "computeTotal")
    (bytes "val calculateTotal = computeTotal()")
  = Some (bytes "val calculateTotal = computeTotal()", 0).
Proof.
  apply (repeat_is_identity KFunction noClass
           (bytes "val calculateTotal = calculateTotal()")
           (bytes "calculateTotal") (bytes "computeTotal")
           (bytes "val calculateTotal = computeTotal()") 1);
    try discriminate; reflexivity.
Defined.

Lemma pair_of_fst (p : buffer * nat) (a : buffer) : fst p = a -> p = (a, snd p).
Proof. intros <-. apply surjective_pairing. Qed.

(** The round trip holds for the three single-pass kinds: on a buffer with
    no run equal to the new name, renaming back gives the buffer back. *)
Lemma single_pass_round_trip (kind : SymbolKind)
    (renameClass src oldName newName out : buffer) (n : nat) :
  kind <> KParameter ->
  ValidateIdentifier oldName = true -> ValidateIdentifier newName = true ->
  Forall (fun w => w <> newName) (words src) ->
  buildRenameFn kind renameClass oldName newName src = Some (out, n) ->
  exists n', buildRenameFn kind renameClass newName oldName out = Some (src, n').
Proof.
  intros Hk Ho Hn Hno Hr. destruct kind; simpl in Hr |- *; [| | | congruence].
  - injection Hr as Hr. unfold ClassRename in *.
    exists (snd (singlePassRename out newName oldName isClassContext)).
    f_equal. apply pair_of_fst.
    replace out with (fst (singlePassRename src oldName newName isClassContext))
      by now rewrite Hr.
    exact (singlePassRename_back _ _ isClassContext_twoSided _ _ Ho Hn
             (classP_stable _ _ Hn) src Hno).
  - injection Hr as Hr. unfold MethodRename in *.
    exists (snd (singlePassRename out newName oldName
                   (isMethodContext {| MethodClassName := renameClass |}))).
    f_equal. apply pair_of_fst.
    replace out with (fst (singlePassRename src oldName newName
                             (isMethodContext {| MethodClassName := renameClass |})))
      by now rewrite Hr.
    exact (singlePassRename_back _ _ (isMethodContext_twoSided _) _ _ Ho Hn
             (methodP_stable _ _ Hn) src Hno).
  - injection Hr as Hr. unfold PropertyRename in *.
    exists (snd (singlePassRename out newName oldName
                   (isPropertyContext {| PropertyClassName := renameClass |}))).
    f_equal. apply pair_of_fst.
    replace out with (fst (singlePassRename src oldName newName
                             (isPropertyContext {| PropertyClassName := renameClass |})))
      by now rewrite Hr.
    exact (singlePassRename_back _ _ (isPropertyContext_twoSided _) _ _ Ho Hn
             (propertyP_stable _ _ Hn) src Hno).
Qed.

(** * Further properties of the engine *)

(** ** The Type rename replaces every occurrence *)

Lemma endsWithIdent_unlex (a : list item) :
  forallb goodItem a = true -> startsWithWord (rev a) = false ->
  endsWithIdent (unlex a) = false.
Proof.
  intros Hg Hs. unfold endsWithIdent. rewrite lastByte_rev, rev_unlex.
  assert (Hr : forallb goodItem (rev a) = true).
  { rewrite forallb_forall in *. intros x Hx. apply Hg. now apply in_rev. }
  destruct (rev a) as [| [c | w] r]; [reflexivity | | discriminate].
  simpl in Hr. apply andb_true_iff in Hr. destruct Hr as [Hc _].
  apply negb_true_iff in Hc. simpl. exact Hc.
Qed.

(** At a run of a well-formed list the two word-boundary tests pass. *)
Lemma classP_at_word (a : list item) (w : buffer) (b : list item) :
  wfItems (a ++ Word w :: b) = true -> classP (unlex a) (unlex b) = true.
Proof.
  intros Hwf. unfold classP.
  rewrite (endsWithIdent_unlex a (wfItems_good _ (wfItems_app_l _ _ Hwf))
             (wfItems_before_word _ _ _ Hwf)).
  pose proof (wfItems_app_r _ _ Hwf) as Hb.
  unfold startsWithIdent.
  now rewrite (headByte_unlex_noword b (wfItems_tail _ _ Hb) (wfItems_after_word _ _ Hb)).
Qed.

Lemma rwItems_classP (oldName newName : buffer) (l : list item) :
  forall a : list item,
    wfItems (a ++ l) = true ->
    rwItems classP oldName newName (unlex a) l [] = map (replaceItem oldName newName) l
    /\ cntItems classP oldName (unlex a) l []
       = length (filter (fun w => beq w oldName) (wordsOf l)).
Proof.
  induction l as [| i l IH]; intros a Hwf; [now split |].
  specialize (IH (a ++ [i]) (wfItems_snoc_shift _ _ _ Hwf)).
  rewrite unlex_app in IH. destruct i as [c | w]; simpl in IH;
    rewrite ?app_nil_r in IH; destruct IH as [IH1 IH2]; simpl.
  - split; [now rewrite IH1 | exact IH2].
  - rewrite app_nil_r, (classP_at_word a w l Hwf), andb_true_r.
    unfold replaceWord. split; [now rewrite IH1 |].
    rewrite IH2. now destruct (beq w oldName).
Qed.

Lemma wordsOf_map_replace (oldName newName : buffer) (l : list item) :
  wordsOf (map (replaceItem oldName newName) l)
  = map (replaceWord oldName newName) (wordsOf l).
Proof.
  induction l as [| [c | w] l IH]; simpl; [reflexivity | exact IH | now rewrite IH].
Qed.

(** X1. The Type rename replaces every identifier run equal to the target
    and nothing else: the runs of the output are the runs of the input with
    the target replaced everywhere, the separators are kept, and the count
    is the number of runs equal to the target. *)
Theorem class_rename_replaces_all (src oldName newName : buffer) :
  ValidateIdentifier oldName = true -> ValidateIdentifier newName = true ->
  fst (ClassRename src oldName newName)
  = unlex (map (replaceItem oldName newName) (lex src))
  /\ words (fst (ClassRename src oldName newName))
     = map (replaceWord oldName newName) (words src)
  /\ snd (ClassRename src oldName newName)
     = length (filter (fun w => beq w oldName) (words src)).
Proof.
  intros Ho Hn. unfold ClassRename.
  destruct (rwItems_classP oldName newName (lex src) [] ltac:(simpl; apply lex_wf))
    as [H1 H2]. simpl in H1, H2.
  assert (E : fst (singlePassRename src oldName newName isClassContext)
              = unlex (map (replaceItem oldName newName) (lex src))).
  { rewrite (singlePassRename_rw _ _ isClassContext_twoSided _ _ Ho). now rewrite H1. }
  split; [exact E |]. split.
  - unfold words. rewrite <- wordsOf_map_replace. f_equal. rewrite E, <- H1.
    exact (lex_rw _ _ isClassContext_twoSided oldName newName Hn src).
  - rewrite (singlePassRename_items _ _ _ _ Ho). simpl snd.
    pose proof (countItems_cnt _ _ isClassContext_twoSided oldName src (lex src) [] []
                  ltac:(simpl; now rewrite app_nil_r, unlex_lex)) as Hc.
    simpl length in Hc. now rewrite Hc, H2.
Qed.

Lemma class_rename_replaces_all_witness :
  fst (ClassRename (bytes "val u: User = User()") (bytes "User") (bytes "Account"))
  = unlex (map (replaceItem (bytes "User") (bytes "Account"))
             (lex (bytes "val u: User = User()")))
  /\ words (fst (ClassRename (bytes "val u: User = User()") (bytes "User") (bytes "Account")))
     = map (replaceWord (bytes "User") (bytes "Account")) (words (bytes "val u: User = User()"))
  /\ snd (ClassRename (bytes "val u: User = User()") (bytes "User") (bytes "Account"))
     = length (filter (fun w => beq w (bytes "User")) (words (bytes "val u: User = User()"))).
Proof.
  apply (class_rename_replaces_all (bytes "val u: User = User()")
           (bytes "User") (bytes "Account")); reflexivity.
Defined.

(** ** Counts, lengths and the offset of the parameter loop *)

(** What an iteration of the parameter loop that changes the state does. *)
Lemma paramStep_change (oldName newName : buffer) (st st' : ParamState) (loc : nat * nat) :
  paramStep oldName newName st loc = Some st' ->
  st' = st
  \/ exists po be : nat,
       po < be
       /\ headByte (slice (result st) po be) = Some "("
       /\ (skipn be (result st) = []
           \/ isWordOpt (lastByte (slice (result st) po be)) = false)
       /\ 0 < snd (singlePassRename (slice (result st) po be) oldName newName
                     isParameterContext)
       /\ result st'
          = firstn po (result st)
            ++ fst (singlePassRename (slice (result st) po be) oldName newName
                      isParameterContext)
            ++ skipn be (result st)
       /\ offset st'
          = (offset st
             + Z.of_nat (length (fst (singlePassRename (slice (result st) po be)
                                        oldName newName isParameterContext)))
             - Z.of_nat (length (slice (result st) po be)))%Z
       /\ total st'
          = total st
            + snd (singlePassRename (slice (result st) po be) oldName newName
                     isParameterContext).
Proof.
  unfold paramStep.
  destruct (_ || _); [discriminate |].
  set (funStart := Z.to_nat (Z.of_nat (fst loc) + offset st)).
  destruct (IndexByte (skipn funStart (result st)) "(") as [k |] eqn:Ek;
    [| intros [= <-]; now left].
  destruct (findMatchingParen (result st) (k + funStart)) as [pc |] eqn:Ep;
    [| intros [= <-]; now left].
  destruct (negb _); [intros [= <-]; now left |].
  apply IndexByte_Some in Ek. rewrite nth_error_skipn in Ek.
  rewrite Nat.add_comm in Ek.
  pose proof (findMatchingParen_Some _ _ _ Ep) as [Hle Hpc].
  set (bodyEnd := match findFunctionBody (result st) (pc + 1) with
                  | Some (_, be) => be
                  | None => pc + 1
                  end).
  assert (Hbe : k + funStart < bodyEnd
                /\ (skipn bodyEnd (result st) = []
                    \/ isWordOpt (lastByte (slice (result st) (k + funStart) bodyEnd)) = false)).
  { unfold bodyEnd.
    destruct (findFunctionBody (result st) (pc + 1)) as [[bs be] |] eqn:Eb.
    - apply findFunctionBody_Some in Eb. destruct Eb as [Hlt [-> | (c & Hc & Hi)]].
      + split; [lia |]. left. apply skipn_all.
      + split; [lia |]. right.
        replace be with (be - 1 + 1) by lia.
        rewrite (lastByte_slice _ _ _ c); [exact Hi | lia | exact Hc].
    - split; [lia |]. right. now rewrite (lastByte_slice _ _ _ ")"). }
  destruct Hbe as [Hlt Hend].
  destruct (singlePassRename (slice (result st) (k + funStart) bodyEnd)
              oldName newName isParameterContext) as [renamed n] eqn:Er.
  destruct (0 <? n)%nat eqn:En; [| intros [= <-]; now left].
  apply Nat.ltb_lt in En.
  intros [= <-]. right. exists (k + funStart), bodyEnd.
  rewrite Er. simpl.
  repeat split; try assumption. now apply headByte_slice.
Qed.

(** The iteration fails only on the bounds of [result[funStart:]]. *)
Lemma paramStep_in_range (oldName newName : buffer) (st : ParamState) (loc : nat * nat) :
  (0 <= Z.of_nat (fst loc) + offset st <= Z.of_nat (length (result st)))%Z ->
  exists st', paramStep oldName newName st loc = Some st'.
Proof.
  intros H. unfold paramStep.
  replace ((Z.of_nat (fst loc) + offset st <? 0)%Z) with false
    by (symmetry; apply Z.ltb_ge; lia).
  replace ((Z.of_nat (length (result st)) <? Z.of_nat (fst loc) + offset st)%Z) with false
    by (symmetry; apply Z.ltb_ge; lia).
  simpl orb. cbv iota.
  destruct (IndexByte _ "("); [| eauto].
  destruct (findMatchingParen _ _); [| eauto].
  destruct (negb _); [eauto |].
  destruct (singlePassRename _ _ _ _) as [renamed cnt].
  destruct (0 <? cnt)%nat; eauto.
Qed.

Lemma wordLocs_bound (oldName : buffer) (l : list item) (pos s e : nat) :
  In (s, e) (wordLocs oldName pos l) ->
  pos <= s /\ e = s + length oldName /\ e <= pos + length (unlex l).
Proof.
  revert pos. induction l as [| [c | w] l IH]; intros pos; simpl; [contradiction | |].
  - intros H. specialize (IH _ H). lia.
  - rewrite length_app. destruct (beq w oldName) eqn:E.
    + apply beq_true_iff in E. subst w. intros [[= <- <-] | H]; [lia |].
      specialize (IH _ H). lia.
    + intros H. specialize (IH _ H). lia.
Qed.

(** A match of the matcher lies inside the buffer. *)
Lemma FindAllStringIndex_bound (pat src : buffer) (s e : nat) :
  ValidateIdentifier pat = true ->
  In (s, e) (FindAllStringIndex pat src) ->
  e = s + length pat /\ e <= length src.
Proof.
  intros Hv H. rewrite (FindAllStringIndex_lex _ Hv) in H.
  apply wordLocs_bound in H. rewrite unlex_lex in H. lia.
Qed.

Lemma wordLocs_words (oldName : buffer) (l : list item) (pos : nat) :
  wordLocs oldName pos l <> [] -> In oldName (wordsOf l).
Proof.
  revert pos. induction l as [| [c | w] l IH]; intros pos; simpl; [congruence | apply IH |].
  destruct (beq w oldName) eqn:E.
  - apply beq_true_iff in E. now left.
  - intros H. right. exact (IH _ H).
Qed.

Lemma wordLocs_absent (oldName : buffer) (l : list item) (pos : nat) :
  ~ In oldName (wordsOf l) -> wordLocs oldName pos l = [].
Proof.
  intros H. destruct (wordLocs oldName pos l) eqn:E; [reflexivity |].
  exfalso. apply H. apply (wordLocs_words oldName l pos). congruence.
Qed.

(** The length of the output of the driver. *)
Lemma renameItems_length (ctx : contextFn) (src oldName newName : buffer) (l : list item) :
  forall pos : nat,
    Z.of_nat (length (unlex (renameItems ctx src oldName newName pos l)))
    = (Z.of_nat (length (unlex l))
       + Z.of_nat (countItems ctx src oldName pos l) * delta oldName newName)%Z.
Proof.
  unfold delta. induction l as [| [c | w] l IH]; intros pos;
    cbn [renameItems countItems unlex itemText].
  - simpl. lia.
  - specialize (IH (S pos)). rewrite !length_app. simpl length. lia.
  - specialize (IH (pos + length w)). rewrite !length_app. unfold accepted.
    destruct (beq w oldName) eqn:E.
    + apply beq_true_iff in E. subst w.
      destruct (ctx src pos (pos + length oldName)); cbn [andb]; lia.
    + cbn [andb]. lia.
Qed.

Lemma singlePassRename_length (ctx : contextFn) (src oldName newName : buffer) :
  ValidateIdentifier oldName = true ->
  Z.of_nat (length (fst (singlePassRename src oldName newName ctx)))
  = (Z.of_nat (length src)
     + Z.of_nat (snd (singlePassRename src oldName newName ctx)) * delta oldName newName)%Z.
Proof.
  intros Hv. rewrite (singlePassRename_items _ _ _ _ Hv). simpl.
  rewrite renameItems_length. now rewrite unlex_lex.
Qed.

Lemma paramStep_offsetInv (src oldName newName : buffer) (st st' : ParamState)
    (loc : nat * nat) :
  ValidateIdentifier oldName = true ->
  offsetInv src oldName newName st ->
  paramStep oldName newName st loc = Some st' ->
  offsetInv src oldName newName st'.
Proof.
  intros Hv [H1 H2] H.
  destruct (paramStep_change _ _ _ _ _ H)
    as [-> | (po & be & Hlt & _ & _ & _ & Hres & Hoff & Htot)]; [now split |].
  pose proof (singlePassRename_length isParameterContext (slice (result st) po be)
                oldName newName Hv) as Hlen.
  pose proof (f_equal (@length ascii) (slice_split (result st) po be ltac:(lia))) as Hsp.
  rewrite !length_app in Hsp.
  split.
  - rewrite Hres, Hoff, !length_app. lia.
  - rewrite Hoff, Htot. lia.
Qed.

Lemma paramLoop_offsetInv (src oldName newName : buffer) (locs : list (nat * nat)) :
  ValidateIdentifier oldName = true ->
  forall st st' : ParamState,
    offsetInv src oldName newName st ->
    paramLoop oldName newName locs st = Some st' ->
    offsetInv src oldName newName st'.
Proof.
  intros Hv. induction locs as [| loc locs IH]; intros st st' Hi; simpl.
  - now intros [= <-].
  - destruct (paramStep oldName newName st loc) as [st1 |] eqn:E; [| discriminate].
    apply IH. exact (paramStep_offsetInv _ _ _ _ _ _ Hv Hi E).
Qed.

Lemma offsetInv_init (src oldName newName : buffer) :
  offsetInv src oldName newName {| result := src; offset := 0; total := 0 |}.
Proof. split; simpl; lia. Qed.

(** X2. The length of the output is the length of the input plus the count
    times the difference between the lengths of the two names, for the
    four kinds (for Parameter, whenever the rename returns). *)
Theorem rename_length (kind : SymbolKind) (renameClass src oldName newName out : buffer)
    (n : nat) :
  ValidateIdentifier oldName = true ->
  buildRenameFn kind renameClass oldName newName src = Some (out, n) ->
  Z.of_nat (length out)
  = (Z.of_nat (length src) + Z.of_nat n * delta oldName newName)%Z.
Proof.
  intros Hv Hr. destruct kind; simpl in Hr.
  - injection Hr as Hr.
    pose proof (singlePassRename_length isClassContext src oldName newName Hv) as H.
    unfold ClassRename in Hr. now rewrite Hr in H.
  - injection Hr as Hr.
    pose proof (singlePassRename_length
                  (isMethodContext {| MethodClassName := renameClass |})
                  src oldName newName Hv) as H.
    unfold MethodRename in Hr. now rewrite Hr in H.
  - injection Hr as Hr.
    pose proof (singlePassRename_length
                  (isPropertyContext {| PropertyClassName := renameClass |})
                  src oldName newName Hv) as H.
    unfold PropertyRename in Hr. now rewrite Hr in H.
  - unfold ParameterRename, renameParameters in Hr.
    destruct (paramLoop _ _ _ _) as [st' |] eqn:E; [| discriminate].
    injection Hr as <- <-.
    destruct (paramLoop_offsetInv src oldName newName _ Hv _ _
                (offsetInv_init src oldName newName) E) as [H1 H2].
    rewrite H1, H2. reflexivity.
Qed.

Lemma rename_length_witness :
  Z.of_nat (length (bytes "fun f(accountId: Int) = accountId"))
  = (Z.of_nat (length (bytes "fun f(id: Int) = id"))
     + Z.of_nat 2 * delta (bytes "id") (bytes "accountId"))%Z.
Proof.
  apply (rename_length KParameter noClass (bytes "fun f(id: Int) = id")
           (bytes "id") (bytes "accountId")); reflexivity.
Defined.

Lemma paramLoop_returns (src oldName newName : buffer) (locs : list (nat * nat)) :
  ValidateIdentifier oldName = true ->
  (0 <= delta oldName newName)%Z ->
  Forall (fun loc => fst loc <= length src) locs ->
  forall st : ParamState,
    offsetInv src oldName newName st ->
    exists st', paramLoop oldName newName locs st = Some st'.
Proof.
  intros Hv Hd Hl. induction Hl as [| loc locs Hloc Hl IH]; intros st Hi.
  - simpl. eauto.
  - simpl. destruct (paramStep_in_range oldName newName st loc) as [st1 E].
    + destruct Hi as [H1 H2]. nia.
    + rewrite E. apply IH. exact (paramStep_offsetInv _ _ _ _ _ _ Hv Hi E).
Qed.

Lemma fun_keyword_valid : ValidateIdentifier (bytes "fun") = true.
Proof. reflexivity. Qed.

Lemma fun_locs_bound (src : buffer) :
  Forall (fun loc => fst loc <= length src) (FindAllStringIndex (bytes "fun") src).
Proof.
  apply Forall_forall. intros [s e] H.
  apply (FindAllStringIndex_bound _ _ _ _ fun_keyword_valid) in H. simpl. lia.
Qed.

(** X3. When the new name is at least as long as the target, the Parameter
    rename returns on every buffer: the positions it computes for the
    [fun] keywords stay inside the buffer, and no slice is out of range. *)
Theorem parameter_rename_returns (src oldName newName : buffer) :
  ValidateIdentifier oldName = true ->
  length oldName <= length newName ->
  exists out n, renameParameters src oldName newName = Some (out, n).
Proof.
  intros Hv Hlen. unfold renameParameters.
  destruct (paramLoop_returns src oldName newName _ Hv
              ltac:(unfold delta; lia) (fun_locs_bound src) _
              (offsetInv_init src oldName newName)) as [st' E].
  rewrite E. eauto.
Qed.

Lemma parameter_rename_returns_witness :
  exists out n,
    renameParameters (bytes "fun f(id: Int) { fun g() {}; id + id }")
      (bytes "id") (bytes "accountId") = Some (out, n).
Proof.
  apply (parameter_rename_returns (bytes "fun f(id: Int) { fun g() {}; id + id }")
           (bytes "id") (bytes "accountId")); [reflexivity | simpl; lia].
Defined.

(** ** A count of zero *)

Lemma renameLoop_count (ctx : contextFn) (src newName : buffer) (locs : list (nat * nat)) :
  forall (buf : buffer) (last count : nat),
    count <= snd (renameLoop ctx src newName locs buf last count)
    /\ (snd (renameLoop ctx src newName locs buf last count) = count ->
        fst (renameLoop ctx src newName locs buf last count) = buf ++ skipn last src).
Proof.
  induction locs as [| [s e] locs IH]; intros buf last count; simpl; [split; auto |].
  destruct (ctx src s e).
  - destruct (IH (buf ++ slice src last s ++ newName) e (S count)) as [H1 H2].
    split; [lia | intros H; lia].
  - apply IH.
Qed.

Lemma singlePassRename_zero (ctx : contextFn) (src oldName newName : buffer) :
  snd (singlePassRename src oldName newName ctx) = 0 ->
  fst (singlePassRename src oldName newName ctx) = src.
Proof.
  unfold singlePassRename. intros H.
  now rewrite (proj2 (renameLoop_count ctx src newName _ [] 0 0) H).
Qed.

Lemma paramStep_total (oldName newName : buffer) (st st' : ParamState) (loc : nat * nat) :
  paramStep oldName newName st loc = Some st' ->
  total st <= total st' /\ (total st' = total st -> st' = st).
Proof.
  intros H. destruct (paramStep_change _ _ _ _ _ H)
    as [-> | (po & be & _ & _ & _ & Hpos & _ & _ & Htot)]; [split; auto |].
  split; [lia | intros E; lia].
Qed.

Lemma paramLoop_total (oldName newName : buffer) (locs : list (nat * nat)) :
  forall st st' : ParamState,
    paramLoop oldName newName locs st = Some st' ->
    total st <= total st' /\ (total st' = total st -> st' = st).
Proof.
  induction locs as [| loc locs IH]; intros st st'; simpl.
  - intros [= <-]. split; auto.
  - destruct (paramStep oldName newName st loc) as [st1 |] eqn:E; [| discriminate].
    intros H. destruct (paramStep_total _ _ _ _ _ E) as [A1 A2].
    destruct (IH _ _ H) as [B1 B2]. split; [lia |].
    intros Et. assert (E1 : total st1 = total st) by lia.
    specialize (A2 E1). subst st1. apply B2. lia.
Qed.

(** X4. A rename that reports no replacement returns its input: for the
    four kinds, a count of 0 comes with the buffer itself, so a caller that
    skips the files whose count is 0 loses no change. *)
Theorem zero_count_unchanged (kind : SymbolKind) (renameClass src oldName newName out : buffer) :
  buildRenameFn kind renameClass oldName newName src = Some (out, 0) ->
  out = src.
Proof.
  intros Hr. destruct kind; simpl in Hr.
  - injection Hr as Hr. unfold ClassRename in Hr.
    rewrite <- (singlePassRename_zero isClassContext src oldName newName);
      now rewrite Hr.
  - injection Hr as Hr. unfold MethodRename in Hr.
    rewrite <- (singlePassRename_zero
                  (isMethodContext {| MethodClassName := renameClass |})
                  src oldName newName); now rewrite Hr.
  - injection Hr as Hr. unfold PropertyRename in Hr.
    rewrite <- (singlePassRename_zero
                  (isPropertyContext {| PropertyClassName := renameClass |})
                  src oldName newName); now rewrite Hr.
  - unfold ParameterRename, renameParameters in Hr.
    destruct (paramLoop _ _ _ _) as [st' |] eqn:E; [| discriminate].
    injection Hr as <- Ht.
    destruct (paramLoop_total _ _ _ _ _ E) as [_ H].
    now rewrite (H Ht).
Qed.

Lemma zero_count_unchanged_witness :
  bytes "val calculateTotal = 5" = bytes "val calculateTotal = 5".
Proof.
  apply (zero_count_unchanged KFunction noClass (bytes "val calculateTotal = 5")
           (bytes "calculateTotal") (bytes "computeTotal")).
  reflexivity.
Defined.

(** ** Occurrences *)

(** The runs of a buffer cut at two run boundaries. *)
Lemma words_split (a scope b : buffer) (c0 : ascii) :
  headByte scope = Some c0 -> isIdentChar c0 = false ->
  b = [] \/ isWordOpt (lastByte scope) = false ->
  words (a ++ scope ++ b) = words a ++ words scope ++ words b.
Proof.
  intros Hs Hc Hl. unfold words. rewrite lex_app_sep.
  - rewrite wordsOf_app. f_equal. destruct Hl as [-> | Hl].
    + now rewrite !app_nil_r.
    + now rewrite lex_app_last, wordsOf_app.
  - destruct scope; [discriminate |]. simpl in *. injection Hs as ->. exact Hc.
Qed.

Lemma occurrences_split (name a scope b : buffer) (c0 : ascii) :
  headByte scope = Some c0 -> isIdentChar c0 = false ->
  b = [] \/ isWordOpt (lastByte scope) = false ->
  occurrences name (a ++ scope ++ b)
  = occurrences name a + occurrences name scope + occurrences name b.
Proof.
  intros Hs Hc Hl. unfold occurrences.
  rewrite (words_split _ _ _ _ Hs Hc Hl), !filter_app, !length_app. lia.
Qed.

Lemma countItems_le (ctx : contextFn) (src oldName : buffer) (l : list item) :
  forall pos : nat,
    countItems ctx src oldName pos l
    <= length (filter (fun w => beq w oldName) (wordsOf l)).
Proof.
  induction l as [| [c | w] l IH]; intros pos; simpl; [lia | apply IH |].
  specialize (IH (pos + length w)). unfold accepted.
  destruct (beq w oldName); simpl; [| exact IH].
  destruct (ctx src pos (pos + length w)); lia.
Qed.

(** The driver accepts no more occurrences than the buffer has. *)
Lemma singlePassRename_le (ctx : contextFn) (src oldName newName : buffer) :
  ValidateIdentifier oldName = true ->
  snd (singlePassRename src oldName newName ctx) <= occurrences oldName src.
Proof.
  intros Hv. rewrite (singlePassRename_items _ _ _ _ Hv). simpl.
  apply countItems_le.
Qed.

Lemma occurrences_absent (name src : buffer) :
  ~ In name (words src) -> occurrences name src = 0.
Proof.
  intros H. unfold occurrences.
  destruct (filter (fun w => beq w name) (words src)) as [| w r] eqn:E; [reflexivity |].
  exfalso. apply H. assert (Hin : In w (filter (fun w => beq w name) (words src)))
    by (rewrite E; now left).
  apply filter_In in Hin. destruct Hin as [Hin Hw]. apply beq_true_iff in Hw. now subst.
Qed.

Lemma paramStep_absent (oldName newName : buffer) (st st' : ParamState) (loc : nat * nat) :
  ValidateIdentifier oldName = true ->
  occurrences oldName (result st) = 0 ->
  paramStep oldName newName st loc = Some st' -> st' = st.
Proof.
  intros Hv Ho H.
  destruct (paramStep_change _ _ _ _ _ H)
    as [-> | (po & be & Hlt & Hh & Hend & Hpos & _)]; [reflexivity |].
  exfalso.
  pose proof (singlePassRename_le isParameterContext (slice (result st) po be)
                oldName newName Hv) as Hle.
  rewrite (slice_split (result st) po be) in Ho by lia.
  rewrite (occurrences_split _ _ _ _ "(" Hh eq_refl Hend) in Ho. lia.
Qed.

Lemma paramLoop_absent (src oldName newName : buffer) (locs : list (nat * nat)) :
  ValidateIdentifier oldName = true ->
  occurrences oldName src = 0 ->
  Forall (fun loc => fst loc <= length src) locs ->
  paramLoop oldName newName locs {| result := src; offset := 0; total := 0 |}
  = Some {| result := src; offset := 0; total := 0 |}.
Proof.
  intros Hv Ho Hl. induction Hl as [| loc locs Hloc Hl IH]; [reflexivity |].
  simpl. destruct (paramStep_in_range oldName newName
                     {| result := src; offset := 0; total := 0 |} loc) as [st1 E].
  - simpl. lia.
  - rewrite E.
    rewrite (paramStep_absent oldName newName
               {| result := src; offset := 0; total := 0 |} st1 loc Hv Ho E).
    exact IH.
Qed.

(** X5. Zero matches are not an error: when no identifier run of the
    buffer is the target, each of the four renames returns the buffer
    unchanged with count 0 (the Parameter rename included: it does not
    fail). *)
Theorem absent_target_unchanged (kind : SymbolKind) (renameClass src oldName newName : buffer) :
  ValidateIdentifier oldName = true ->
  ~ In oldName (words src) ->
  buildRenameFn kind renameClass oldName newName src = Some (src, 0).
Proof.
  intros Hv Hno.
  assert (Hs : forall ctx, singlePassRename src oldName newName ctx = (src, 0)).
  { intros ctx. unfold singlePassRename.
    rewrite (FindAllStringIndex_lex _ Hv), (wordLocs_absent _ _ 0 Hno). reflexivity. }
  destruct kind; simpl.
  - unfold ClassRename. now rewrite Hs.
  - unfold MethodRename. now rewrite Hs.
  - unfold PropertyRename. now rewrite Hs.
  - unfold ParameterRename, renameParameters.
    now rewrite (paramLoop_absent src oldName newName _ Hv
                   (occurrences_absent _ _ Hno) (fun_locs_bound src)).
Qed.

Lemma absent_target_unchanged_witness :
  buildRenameFn KParameter noClass (bytes "userId") (bytes "accountId")
    (bytes "fun greet(userIdentifier: String) = userIdentifier")
  = Some (bytes "fun greet(userIdentifier: String) = userIdentifier", 0).
Proof.
  apply (absent_target_unchanged KParameter noClass
           (bytes "fun greet(userIdentifier: String) = userIdentifier")
           (bytes "userId") (bytes "accountId")); [reflexivity |].
  vm_compute. intuition discriminate.
Defined.

(** The occurrences left by the driver. *)
Lemma renameItems_occurrences (ctx : contextFn) (src oldName newName : buffer)
    (l : list item) :
  oldName <> newName ->
  forall pos : nat,
    length (filter (fun w => beq w oldName)
              (wordsOf (renameItems ctx src oldName newName pos l)))
    + countItems ctx src oldName pos l
    = length (filter (fun w => beq w oldName) (wordsOf l)).
Proof.
  intros Hne. assert (En : beq newName oldName = false)
    by (apply beq_false_iff; congruence).
  induction l as [| [c | w] l IH]; intros pos; simpl; [reflexivity | apply IH |].
  specialize (IH (pos + length w)). unfold accepted.
  destruct (beq w oldName) eqn:E; simpl.
  - destruct (ctx src pos (pos + length w)); simpl.
    + rewrite En. lia.
    + rewrite E. simpl. lia.
  - rewrite E. exact IH.
Qed.

Lemma singlePassRename_occurrences (ctx : contextFn) (src oldName newName : buffer) :
  ValidateIdentifier oldName = true -> ValidateIdentifier newName = true ->
  oldName <> newName ->
  occurrences oldName (fst (singlePassRename src oldName newName ctx))
  + snd (singlePassRename src oldName newName ctx)
  = occurrences oldName src.
Proof.
  intros Ho Hn Hne. rewrite (singlePassRename_items _ _ _ _ Ho). simpl.
  unfold occurrences, words. rewrite (lex_renameItems _ _ _ _ Hn).
  now apply renameItems_occurrences.
Qed.

Lemma paramStep_occurrences (oldName newName : buffer) (st st' : ParamState)
    (loc : nat * nat) :
  ValidateIdentifier oldName = true -> ValidateIdentifier newName = true ->
  oldName <> newName ->
  paramStep oldName newName st loc = Some st' ->
  occurrences oldName (result st') + total st'
  = occurrences oldName (result st) + total st.
Proof.
  intros Ho Hn Hne H.
  destruct (paramStep_change _ _ _ _ _ H)
    as [-> | (po & be & Hlt & Hh & Hend & _ & Hres & _ & Htot)]; [reflexivity |].
  pose proof (singlePassRename_occurrences isParameterContext (slice (result st) po be)
                oldName newName Ho Hn Hne) as Hocc.
  pose proof (f_equal (occurrences oldName)
                (slice_split (result st) po be ltac:(lia))) as E1.
  rewrite (occurrences_split _ _ _ _ "(" Hh eq_refl Hend) in E1.
  rewrite Hres, Htot, E1.
  rewrite (occurrences_split _ _ _ _ "("
             (rename_keeps_head isParameterContext oldName newName Ho _ _ Hh eq_refl)
             eq_refl).
  - lia.
  - destruct Hend as [Hend | Hend]; [now left | right].
    now apply rename_keeps_last.
Qed.

Lemma paramLoop_occurrences (oldName newName : buffer) (locs : list (nat * nat)) :
  ValidateIdentifier oldName = true -> ValidateIdentifier newName = true ->
  oldName <> newName ->
  forall st st' : ParamState,
    paramLoop oldName newName locs st = Some st' ->
    occurrences oldName (result st') + total st'
    = occurrences oldName (result st) + total st.
Proof.
  intros Ho Hn Hne. induction locs as [| loc locs IH]; intros st st'; simpl.
  - now intros [= <-].
  - destruct (paramStep oldName newName st loc) as [st1 |] eqn:E; [| discriminate].
    intros H. rewrite (IH _ _ H). exact (paramStep_occurrences _ _ _ _ _ Ho Hn Hne E).
Qed.

(** X6. The count is the number of occurrences that the rename removes:
    for the four kinds and two distinct validated names, the occurrences of
    the target left in the output plus the count are the occurrences of the
    target in the input.  In particular a positive count comes with a
    changed buffer. *)
Theorem count_is_removed_occurrences (kind : SymbolKind)
    (renameClass src oldName newName out : buffer) (n : nat) :
  ValidateIdentifier oldName = true -> ValidateIdentifier newName = true ->
  oldName <> newName ->
  buildRenameFn kind renameClass oldName newName src = Some (out, n) ->
  occurrences oldName out + n = occurrences oldName src
  /\ (0 < n -> out <> src).
Proof.
  intros Ho Hn Hne Hr.
  assert (H : occurrences oldName out + n = occurrences oldName src).
  { destruct kind; simpl in Hr.
    - injection Hr as Hr. unfold ClassRename in Hr.
      pose proof (singlePassRename_occurrences isClassContext src _ _ Ho Hn Hne) as H.
      now rewrite Hr in H.
    - injection Hr as Hr. unfold MethodRename in Hr.
      pose proof (singlePassRename_occurrences
                    (isMethodContext {| MethodClassName := renameClass |})
                    src _ _ Ho Hn Hne) as H.
      now rewrite Hr in H.
    - injection Hr as Hr. unfold PropertyRename in Hr.
      pose proof (singlePassRename_occurrences
                    (isPropertyContext {| PropertyClassName := renameClass |})
                    src _ _ Ho Hn Hne) as H.
      now rewrite Hr in H.
    - unfold ParameterRename, renameParameters in Hr.
      destruct (paramLoop _ _ _ _) as [st' |] eqn:E; [| discriminate].
      injection Hr as <- <-.
      pose proof (paramLoop_occurrences _ _ _ Ho Hn Hne _ _ E) as H.
      simpl in H. lia. }
  split; [exact H |]. intros Hpos E. subst out. lia.
Qed.

Lemma count_is_removed_occurrences_witness :
  occurrences (bytes "calculateTotal") (bytes "val calculateTotal = computeTotal()") + 1
  = occurrences (bytes "calculateTotal") (bytes "val calculateTotal = calculateTotal()")
  /\ (0 < 1 -> bytes "val calculateTotal = computeTotal()"
               <> bytes "val calculateTotal = calculateTotal()").
Proof.
  apply (count_is_removed_occurrences KFunction noClass
           (bytes "val calculateTotal = calculateTotal()")
           (bytes "calculateTotal") (bytes "computeTotal")
           (bytes "val calculateTotal = computeTotal()") 1);
    try discriminate; reflexivity.
Defined.

(** ** The delimiter matchers *)

Lemma delimDepth_cons (op cl c : ascii) (r : buffer) :
  delimDepth op cl (c :: r)
  = ((if Ascii.eqb c op then 1 else if Ascii.eqb c cl then -1 else 0)
     + delimDepth op cl r)%Z.
Proof. reflexivity. Qed.

Lemma matchDelim_spec (op cl : ascii) (s : buffer) :
  forall (i : nat) (d : Z),
    (1 <= d)%Z ->
    match matchDelim op cl s i d with
    | Some e =>
        i <= e /\ nth_error s (e - i) = Some cl
        /\ (d + delimDepth op cl (firstn (S (e - i)) s) = 0)%Z
        /\ forall k, k < e - i -> (1 <= d + delimDepth op cl (firstn (S k) s))%Z
    | None =>
        forall k, k < length s -> (1 <= d + delimDepth op cl (firstn (S k) s))%Z
    end.
Proof.
  induction s as [| c s IH]; intros i d Hd; [simpl; intros k Hk; lia |].
  assert (Hrec : forall d' : Z,
            (1 <= d')%Z ->
            (d' = d + (if Ascii.eqb c op then 1 else if Ascii.eqb c cl then -1 else 0))%Z ->
            match matchDelim op cl s (S i) d' with
            | Some e =>
                i <= e /\ nth_error (c :: s) (e - i) = Some cl
                /\ (d + delimDepth op cl (firstn (S (e - i)) (c :: s)) = 0)%Z
                /\ forall k, k < e - i ->
                             (1 <= d + delimDepth op cl (firstn (S k) (c :: s)))%Z
            | None =>
                forall k, k < length (c :: s) ->
                          (1 <= d + delimDepth op cl (firstn (S k) (c :: s)))%Z
            end).
  { intros d' Hd' Ed. specialize (IH (S i) d' Hd').
    destruct (matchDelim op cl s (S i) d') as [e |].
    - destruct IH as (H1 & H2 & H3 & H4).
      replace (e - i) with (S (e - S i)) by lia.
      split; [lia |]. split; [exact H2 |]. split.
      + rewrite firstn_cons, delimDepth_cons. lia.
      + intros k Hk. rewrite firstn_cons, delimDepth_cons.
        destruct k as [| k]; [rewrite firstn_O; simpl delimDepth; lia |].
        specialize (H4 k ltac:(lia)). lia.
    - intros k Hk. rewrite firstn_cons, delimDepth_cons.
      destruct k as [| k]; [rewrite firstn_O; simpl delimDepth; lia |].
      simpl in Hk. specialize (IH k ltac:(lia)). lia. }
  simpl matchDelim. destruct (Ascii.eqb c op) eqn:Eo.
  - apply Hrec; lia.
  - destruct (Ascii.eqb c cl) eqn:Ec.
    + destruct (d - 1 =? 0)%Z eqn:Ez.
      * apply Z.eqb_eq in Ez. rewrite Nat.sub_diag.
        apply Ascii.eqb_eq in Ec. subst c.
        split; [lia |]. split; [reflexivity |]. split.
        -- rewrite firstn_cons, firstn_O, delimDepth_cons, Eo, Ascii.eqb_refl.
           simpl delimDepth. lia.
        -- intros k Hk. lia.
      * apply Z.eqb_neq in Ez. apply Hrec; lia.
    + apply Hrec; lia.
Qed.

Lemma matchDelim_from_open (op cl : ascii) (src : buffer) (open : nat) :
  nth_error src open = Some op ->
  matchesDelim op cl src open (matchDelim op cl (skipn open src) open 0).
Proof.
  intros Hop. destruct (nth_error_skipn_cons _ _ _ Hop) as [rest Hrest].
  assert (Hsl : forall j, open <= j ->
            slice src open (j + 1) = op :: firstn (j - open) rest).
  { intros j Hj. unfold slice. rewrite Hrest.
    replace (j + 1 - open) with (S (j - open)) by lia. reflexivity. }
  assert (Hlen : length src = open + S (length rest)).
  { pose proof (f_equal (@length ascii) Hrest) as H. rewrite length_skipn in H.
    simpl in H. lia. }
  rewrite Hrest. simpl matchDelim. rewrite Ascii.eqb_refl.
  pose proof (matchDelim_spec op cl rest (S open) 1 ltac:(lia)) as H.
  simpl Z.add. destruct (matchDelim op cl rest (S open) 1) as [e |]; simpl.
  - destruct H as (H1 & H2 & H3 & H4). split; [lia |]. split.
    + rewrite <- (firstn_skipn open src), Hrest.
      rewrite nth_error_app2 by (rewrite length_firstn; lia).
      rewrite length_firstn. replace (Nat.min open (length src)) with open by lia.
      replace (e - open) with (S (e - S open)) by lia. exact H2.
    + split.
      * rewrite Hsl by lia. rewrite delimDepth_cons, Ascii.eqb_refl.
        replace (e - open) with (S (e - S open)) by lia. lia.
      * intros j Hj. rewrite Hsl by lia. rewrite delimDepth_cons, Ascii.eqb_refl.
        destruct (j - open) as [| k] eqn:Ek; [rewrite firstn_O; simpl; lia |].
        specialize (H4 k ltac:(lia)). lia.
  - intros j Hj. rewrite Hsl by lia. rewrite delimDepth_cons, Ascii.eqb_refl.
    destruct (j - open) as [| k] eqn:Ek; [rewrite firstn_O; simpl; lia |].
    specialize (H k ltac:(lia)). lia.
Qed.

(** X7. Started on an opening parenthesis (brace), [findMatchingParen]
    ([findMatchingBrace]) returns the first index at which the depth, counted
    from the start, is back to zero, and this index holds a closing
    parenthesis (brace); it returns nothing exactly when the depth stays
    positive up to the end of the buffer. *)
Theorem delimiter_matchers_balanced (src : buffer) (open : nat) :
  (nth_error src open = Some "(" ->
   matchesDelim "(" ")" src open (findMatchingParen src open))
  /\ (nth_error src open = Some "{" ->
      matchesDelim "{" "}" src open (findMatchingBrace src open)).
Proof.
  split; intros H; now apply matchDelim_from_open.
Qed.

Lemma delimiter_matchers_balanced_witness :
  matchesDelim "(" ")" (bytes "f(a, g(b)) + h(c)") 1
    (findMatchingParen (bytes "f(a, g(b)) + h(c)") 1).
Proof.
  apply (proj1 (delimiter_matchers_balanced (bytes "f(a, g(b)) + h(c)") 1)).
  reflexivity.
Defined.

(** ** The function body *)

Lemma IndexByte_first (s : buffer) (c : ascii) :
  match IndexByte s c with
  | Some k => nth_error s k = Some c
              /\ forallb (fun b => negb (Ascii.eqb b c)) (firstn k s) = true
  | None => forallb (fun b => negb (Ascii.eqb b c)) s = true
  end.
Proof.
  induction s as [| b s IH]; [reflexivity |]. cbn [IndexByte].
  destruct (Ascii.eqb b c) eqn:E.
  - apply Ascii.eqb_eq in E. subst b. now split.
  - destruct (IndexByte s c) as [k |].
    + destruct IH as [IH1 IH2]. split; [exact IH1 |].
      rewrite firstn_cons. cbn [forallb]. now rewrite E, IH2.
    + cbn [forallb]. now rewrite E, IH.
Qed.

Lemma dropWhile_prefix (f : ascii -> bool) (s : buffer) :
  forallb f (firstn (length s - length (dropWhile f s)) s) = true.
Proof.
  induction s as [| c s IH]; [reflexivity |]. simpl dropWhile.
  destruct (f c) eqn:E.
  - pose proof (dropWhile_length f s). simpl length.
    replace (S (length s) - length (dropWhile f s))
      with (S (length s - length (dropWhile f s))) by lia.
    simpl. now rewrite E, IH.
  - now rewrite Nat.sub_diag.
Qed.

Lemma dropWhile_prefix_head (f : ascii -> bool) (s : buffer) (c : ascii) :
  startsWith s c = true -> f c = true ->
  startsWith (firstn (length s - length (dropWhile f s)) s) c = true.
Proof.
  destruct s as [| x r]; [discriminate |]. intros Hx Hf.
  cbn [startsWith] in Hx. apply Ascii.eqb_eq in Hx. subst x.
  change (dropWhile f (c :: r)) with (if f c then dropWhile f r else c :: r).
  rewrite Hf. pose proof (dropWhile_length f r).
  change (length (c :: r)) with (S (length r)).
  rewrite Nat.sub_succ_l by assumption.
  rewrite firstn_cons. cbn [startsWith]. apply Ascii.eqb_refl.
Qed.

Lemma dropWhile_head (f : ascii -> bool) (s : buffer) (c : ascii) (r : buffer) :
  dropWhile f s = c :: r -> f c = false.
Proof.
  induction s as [| x s IH]; simpl; [discriminate |].
  destruct (f x) eqn:E; [exact IH |]. now intros [= -> _].
Qed.

Lemma slice_slice (s : buffer) (a b c : nat) :
  a <= b -> b <= c -> slice s a c = slice s a b ++ slice s b c.
Proof.
  intros Hab Hbc. unfold slice.
  rewrite <- (firstn_skipn (b - a) (firstn (c - a) (skipn a s))).
  f_equal.
  - rewrite firstn_firstn. f_equal. lia.
  - rewrite skipn_firstn_comm, skipn_skipn. f_equal; [lia | f_equal; lia].
Qed.

Lemma slice_firstn_skipn (s : buffer) (a k : nat) :
  slice s a (a + k) = firstn k (skipn a s).
Proof. unfold slice. f_equal. lia. Qed.

(** X8. When [findFunctionBody] finds a body, its span lies inside the
    buffer, after the parameter list; between the two there are only blanks
    and line breaks and possibly a return type; the span is a balanced group
    of braces, or runs from an equals sign to the end of its line. *)
Theorem function_body_span (src : buffer) (afterParams bs be : nat) :
  findFunctionBody src afterParams = Some (bs, be) ->
  afterParams <= bs /\ bs < be /\ be <= length src
  /\ bodyPrefix (slice src afterParams bs)
  /\ bodySpan src bs be.
Proof.
  unfold findFunctionBody.
  set (rest := skipn afterParams src).
  set (rest1 := dropWhile isBodyGap rest).
  set (rest2 := if startsWith rest1 ":" then dropWhile (fun c => negb (isTypeStop c)) rest1
                else rest1).
  set (i1 := afterParams + (length rest - length rest1)).
  set (i := i1 + (length rest1 - length rest2)).
  assert (L1 : length rest1 <= length rest) by apply dropWhile_length.
  assert (L2 : length rest2 <= length rest1).
  { unfold rest2. destruct (startsWith rest1 ":"); [apply dropWhile_length | lia]. }
  assert (H1 : rest1 = skipn (length rest - length rest1) rest) by apply dropWhile_skipn.
  assert (H2 : rest2 = skipn (length rest1 - length rest2) rest1).
  { unfold rest2. destruct (startsWith rest1 ":"); [apply dropWhile_skipn |].
    now rewrite Nat.sub_diag. }
  assert (G1 : rest1 = skipn i1 src).
  { rewrite H1 at 1. unfold rest, i1. rewrite skipn_skipn. f_equal. fold rest. lia. }
  assert (G2 : rest2 = skipn i src).
  { rewrite H2 at 1. rewrite G1 at 2. unfold i. rewrite skipn_skipn. f_equal. lia. }
  assert (Hgap : forallb isBodyGap (slice src afterParams i1) = true).
  { unfold i1. rewrite slice_firstn_skipn. fold rest. apply dropWhile_prefix. }
  assert (Hty : slice src i1 i = []
                \/ (startsWith (slice src i1 i) ":" = true
                    /\ forallb (fun c => negb (isTypeStop c)) (slice src i1 i) = true)).
  { unfold i. rewrite slice_firstn_skipn, <- G1. unfold rest2.
    destruct (startsWith rest1 ":") eqn:Ec.
    - right. split; [| apply dropWhile_prefix].
      apply dropWhile_prefix_head; [exact Ec | reflexivity].
    - left. now rewrite Nat.sub_diag. }
  assert (Hpre : bodyPrefix (slice src afterParams i)).
  { exists (slice src afterParams i1), (slice src i1 i).
    split; [apply slice_slice; unfold i, i1; lia |]. split; assumption. }
  assert (Ln : length rest = length src - afterParams) by apply length_skipn.
  destruct rest2 as [| c r2] eqn:E2; [discriminate |].
  assert (Hc : nth_error src i = Some c).
  { rewrite <- (Nat.add_0_r i), <- nth_error_skipn, <- G2. reflexivity. }
  assert (Hi : i < length src) by (apply nth_error_Some; congruence).
  assert (Hai : afterParams <= i) by (unfold i, i1; lia).
  destruct (Ascii.eqb c "{") eqn:Eb.
  - apply Ascii.eqb_eq in Eb. subst c.
    pose proof (matchDelim_from_open "{" "}" src i Hc) as Hm.
    fold (findMatchingBrace src i) in Hm.
    destruct (findMatchingBrace src i) as [e |]; [| discriminate].
    intros [= <- <-]. destruct Hm as (M1 & M2 & M3 & _).
    assert (He : e < length src) by (apply nth_error_Some; congruence).
    split; [exact Hai |]. split; [lia |]. split; [lia |]. split; [exact Hpre |].
    left. split; [exact Hc |]. split; [| exact M3].
    now replace (e + 1 - 1) with e by lia.
  - destruct (Ascii.eqb c "=") eqn:Ee; [| discriminate].
    apply Ascii.eqb_eq in Ee. subst c.
    pose proof (IndexByte_first ("=" :: r2) "010") as Hx.
    destruct (IndexByte ("=" :: r2) "010") as [k |].
    + intros [= <- <-]. destruct Hx as [X1 X2].
      rewrite G2, nth_error_skipn in X1.
      assert (Hk : i + k < length src) by (apply nth_error_Some; congruence).
      split; [exact Hai |]. split; [lia |]. split; [lia |]. split; [exact Hpre |].
      right. split; [exact Hc |]. left.
      replace (i + k + 1 - 1) with (i + k) by lia. split; [exact X1 |].
      unfold noLineFeed. rewrite slice_firstn_skipn, <- G2. exact X2.
    + intros [= <- <-].
      split; [exact Hai |]. split; [lia |]. split; [lia |]. split; [exact Hpre |].
      right. split; [exact Hc |]. right. split; [reflexivity |].
      unfold noLineFeed. rewrite slice_to_end, <- G2. exact Hx.
Qed.

Lemma function_body_span_witness :
  13 <= 22 /\ 22 < 34 /\ 34 <= length (bytes "fun f(x: Int): String { return x } // f")
  /\ bodyPrefix (slice (bytes "fun f(x: Int): String { return x } // f") 13 22)
  /\ bodySpan (bytes "fun f(x: Int): String { return x } // f") 22 34.
Proof.
  apply (function_body_span (bytes "fun f(x: Int): String { return x } // f") 13 22 34).
  reflexivity.
Defined.

(** ** The parameter test of a header *)

Lemma lastOr_cons (prev : option ascii) (c : ascii) (a : buffer) :
  lastOr prev (c :: a) = lastOr (Some c) a.
Proof.
  unfold lastOr. destruct a as [| y a]; [reflexivity |].
  change (lastByte (c :: y :: a)) with (lastByte (y :: a)).
  destruct (lastByte_nonempty (y :: a)) as [x Hx]; [discriminate |]. now rewrite Hx.
Qed.

Lemma matchParamFrom_iff (oldName : buffer) (s : buffer) :
  ValidateIdentifier oldName = true ->
  forall prev : option ascii,
    matchParamFrom oldName prev s = true
    <-> exists a b : buffer,
          s = a ++ oldName ++ b
          /\ isWordOpt (lastOr prev a) = false
          /\ headByte (dropWhile isSpace b) = Some ":".
Proof.
  intros Hv. destruct (ValidateIdentifier_run _ Hv) as [Hne Hid].
  destruct oldName as [| o old'] eqn:Eo; [congruence |].
  assert (Ho : isIdentChar o = true)
    by (simpl in Hid; apply andb_true_iff in Hid; tauto).
  rewrite <- Eo in *. clear Hne Hid.
  induction s as [| c r IH]; intros prev.
  - split; [discriminate |]. intros (a & b & E & _).
    rewrite Eo in E. destruct a; discriminate.
  - simpl matchParamFrom. rewrite orb_true_iff, IH. split.
    + intros [H | (a & b & E & Hl & Hb)].
      * unfold matchParamAt in H. apply andb_true_iff in H. destruct H as [Hw H].
        destruct (stripPrefix oldName (c :: r)) as [rest |] eqn:Es; [| discriminate].
        apply stripPrefix_Some in Es. exists [], rest. split; [exact Es |].
        assert (Ec : c = o) by (rewrite Eo in Es; now injection Es).
        subst c. unfold wordBoundary in Hw. simpl in Hw. rewrite Ho in Hw.
        split; [unfold lastOr; simpl; now destruct (isWordOpt prev) |].
        destruct (headByte (dropWhile isSpace rest)) as [x |]; [| discriminate].
        apply Ascii.eqb_eq in H. now subst x.
      * exists (c :: a), b. split; [now rewrite E |]. split; [| exact Hb].
        now rewrite lastOr_cons.
    + intros (a & b & E & Hl & Hb). destruct a as [| x a].
      * left. simpl in E. unfold matchParamAt. rewrite E, stripPrefix_app, Hb.
        unfold lastOr in Hl. simpl in Hl. unfold wordBoundary. rewrite Hl.
        rewrite Eo. simpl. now rewrite Ho.
      * right. injection E as -> E. exists a, b. split; [exact E |].
        split; [| exact Hb]. now rewrite <- (lastOr_cons prev x a).
Qed.

(** X9. A header passes the parameter test exactly when its parameter
    section holds the target, not preceded by an identifier byte, followed
    by white space (line breaks included) and a colon. *)
Theorem has_param_name_iff (paramSection oldName : buffer) :
  ValidateIdentifier oldName = true ->
  (hasParamName paramSection oldName = true
   <-> exists a b : buffer,
         paramSection = a ++ oldName ++ b
         /\ isWordOpt (lastByte a) = false
         /\ headByte (dropWhile isSpace b) = Some ":").
Proof.
  intros Hv. unfold hasParamName. rewrite (matchParamFrom_iff _ _ Hv None).
  split; intros (a & b & E & Hl & Hb); exists a, b; (split; [exact E |]);
    (split; [| exact Hb]); unfold lastOr in *; destruct (lastByte a); exact Hl.
Qed.

Lemma has_param_name_iff_witness :
  hasParamName (bytes "(name: String, userId : Int)") (bytes "userId") = true
  <-> exists a b : buffer,
        bytes "(name: String, userId : Int)" = a ++ bytes "userId" ++ b
        /\ isWordOpt (lastByte a) = false
        /\ headByte (dropWhile isSpace b) = Some ":".
Proof.
  apply (has_param_name_iff (bytes "(name: String, userId : Int)") (bytes "userId")).
  reflexivity.
Defined.

(** ** The predicates at an occurrence *)

Lemma isParameterContext_occurrence (oldName a b : buffer) :
  isWordOpt (lastByte a) = false -> isWordOpt (headByte b) = false ->
  isParameterContext (a ++ oldName ++ b) (length a) (length a + length oldName)
  = negb (startsWith (TrimLeft b) "(").
Proof.
  intros Ha Hb. unfold isParameterContext. rewrite firstn_exact, skipn_exact.
  unfold endsWithIdent, startsWithIdent. rewrite Ha, Hb.
  now destruct (startsWith (TrimLeft b) "(").
Qed.

(** X10. Inside a scope the Parameter predicate renames every occurrence of
    the target except the call sites: an occurrence at a word boundary is
    kept when it is followed, after blanks, by an opening parenthesis, and
    becomes the new name otherwise. *)
Theorem parameter_predicate_rule (oldName newName a b : buffer) :
  ValidateIdentifier oldName = true -> ValidateIdentifier newName = true ->
  isWordOpt (lastByte a) = false -> isWordOpt (headByte b) = false ->
  nth_error
    (words (fst (singlePassRename (a ++ oldName ++ b) oldName newName isParameterContext)))
    (length (words a))
  = Some (if startsWith (TrimLeft b) "(" then oldName else newName).
Proof.
  intros Ho Hn Ha Hb. rewrite (run_at_occurrence _ _ _ _ _ Ho Hn Ha Hb).
  rewrite (isParameterContext_occurrence _ _ _ Ha Hb).
  now destruct (startsWith (TrimLeft b) "(").
Qed.

Lemma parameter_predicate_rule_witness :
  nth_error
    (words (fst (singlePassRename (bytes "(cb: Int) = " ++ bytes "cb" ++ bytes " (1)")
                   (bytes "cb") (bytes "callback") isParameterContext)))
    (length (words (bytes "(cb: Int) = ")))
  = Some (if startsWith (TrimLeft (bytes " (1)")) "(" then bytes "cb" else bytes "callback").
Proof.
  apply (parameter_predicate_rule (bytes "cb") (bytes "callback")
           (bytes "(cb: Int) = ") (bytes " (1)")); reflexivity.
Defined.

Lemma isMethodContext_occurrence (r : MethodRenamer) (oldName a b : buffer) :
  isWordOpt (lastByte a) = false ->
  isMethodContext r (a ++ oldName ++ b) (length a) (length a + length oldName)
  = methodP a b.
Proof.
  intros Ha. now rewrite isMethodContext_formula, firstn_exact, skipn_exact.
Qed.

(** X11. The Function rename rewrites every call site and keeps every
    plain use: an occurrence of the target at a word boundary becomes the
    new name when it is followed, after blanks, by an opening parenthesis;
    it is kept when it is not and the text before it, trimmed, ends with
    neither [::] nor [fun]. *)
Theorem function_call_sites (r : MethodRenamer) (oldName newName a b : buffer) :
  ValidateIdentifier oldName = true -> ValidateIdentifier newName = true ->
  isWordOpt (lastByte a) = false -> isWordOpt (headByte b) = false ->
  (startsWith (TrimLeft b) "(" = true ->
   nth_error (words (fst (MethodRename r (a ++ oldName ++ b) oldName newName)))
             (length (words a)) = Some newName)
  /\ (startsWith (TrimLeft b) "(" = false ->
      HasSuffix (TrimRight a) (bytes "::") = false ->
      HasSuffix (TrimRight a) (bytes "fun") = false ->
      nth_error (words (fst (MethodRename r (a ++ oldName ++ b) oldName newName)))
                (length (words a)) = Some oldName).
Proof.
  intros Ho Hn Ha Hb. unfold MethodRename.
  rewrite (run_at_occurrence _ _ _ _ _ Ho Hn Ha Hb).
  rewrite (isMethodContext_occurrence _ _ _ _ Ha). unfold methodP.
  unfold endsWithIdent. rewrite Ha. split.
  - intros Hp. rewrite Hp.
    assert (Hi : startsWithIdent (TrimLeft b) = false).
    { unfold startsWithIdent. rewrite startsWith_headByte in Hp.
      destruct (headByte (TrimLeft b)) as [x |]; [| reflexivity].
      apply Ascii.eqb_eq in Hp. now subst x. }
    rewrite Hi. simpl. now rewrite !orb_true_r.
  - intros Hp H1 H2. rewrite Hp, H1, H2. simpl. now rewrite andb_false_r.
Qed.

Lemma function_call_sites_witness :
  nth_error (words (fst (MethodRename methodRenamer
                           (bytes "val t = cart." ++ bytes "total" ++ bytes " ()")
                           (bytes "total") (bytes "sum"))))
            (length (words (bytes "val t = cart."))) = Some (bytes "sum").
Proof.
  apply (proj1 (function_call_sites methodRenamer (bytes "total") (bytes "sum")
                  (bytes "val t = cart.") (bytes " ()")
                  eq_refl eq_refl eq_refl eq_refl)).
  reflexivity.
Defined.

(** ** Renames in sequence *)

Section ThenPass.

Variables (ctx : contextFn) (P : ctxPred).
Hypothesis ctx_P : twoSided ctx P.
Variables (oldName newName third : buffer).
Hypothesis old_valid : ValidateIdentifier oldName = true.
Hypothesis new_valid : ValidateIdentifier newName = true.
Hypothesis stable :
  forall (a : list item) (w : buffer) (b : list item),
    wfItems (a ++ Word w :: b) = true ->
    P (unlex (rwItems P oldName newName [] a (w ++ unlex b)))
      (unlex (rwItems P oldName newName (unlex a ++ w) b []))
    = P (unlex a) (unlex b).

(** Renaming the new name to a third one, after the first rename, is the
    rename of the target to the third name, when no run of the buffer is
    the new name. *)
Lemma rwItems_then (l : list item) :
  Forall (fun w => w <> newName) (wordsOf l) ->
  forall a : list item,
    wfItems (a ++ l) = true ->
    rwItems P newName third (unlex (rwItems P oldName newName [] a (unlex l)))
      (rwItems P oldName newName (unlex a) l []) []
    = rwItems P oldName third (unlex a) l []
    /\ cntItems P newName (unlex (rwItems P oldName newName [] a (unlex l)))
         (rwItems P oldName newName (unlex a) l []) []
       = cntItems P oldName (unlex a) l [].
Proof.
  induction l as [| i l IH]; intros Hno a Hwf; [now split |].
  destruct i as [c | w].
  - specialize (IH Hno (a ++ [Sep c]) (wfItems_snoc_shift _ _ _ Hwf)).
    rewrite rwItems_snoc_sep, !unlex_app in IH. simpl in IH. simpl.
    destruct IH as [IH1 IH2]. split; [now rewrite IH1 | exact IH2].
  - simpl in Hno. inversion Hno as [| w0 ws Hw Hws]; subst.
    specialize (IH Hws (a ++ [Word w]) (wfItems_snoc_shift _ _ _ Hwf)).
    rewrite rwItems_snoc_word, !unlex_app in IH. simpl in IH.
    rewrite !app_nil_r in IH. simpl. rewrite !app_nil_r.
    rewrite (stable a w l Hwf). destruct IH as [IH1 IH2].
    destruct (beq w oldName && P (unlex a) (unlex l)) eqn:Ed.
    + apply andb_true_iff in Ed. destruct Ed as [Ew Ep].
      rewrite beq_refl, Ep. simpl. split; [now rewrite IH1 | now rewrite IH2].
    + assert (En : beq w newName = false) by now apply beq_false_iff.
      rewrite En. simpl. split; [now rewrite IH1 | exact IH2].
Qed.

Lemma singlePassRename_then (src : buffer) :
  Forall (fun w => w <> newName) (words src) ->
  singlePassRename (fst (singlePassRename src oldName newName ctx)) newName third ctx
  = singlePassRename src oldName third ctx.
Proof.
  intros Hno.
  rewrite (singlePassRename_rw ctx P ctx_P oldName newName old_valid src).
  set (l1 := rwItems P oldName newName [] (lex src) []).
  rewrite (singlePassRename_items _ _ _ _ new_valid).
  rewrite (singlePassRename_items _ _ _ _ old_valid).
  unfold l1 at 2 4. rewrite (lex_rw ctx P ctx_P oldName newName new_valid src). fold l1.
  pose proof (renameItems_rw ctx P ctx_P newName third (unlex l1) l1 [] []
                ltac:(simpl; now rewrite app_nil_r)) as E1.
  pose proof (countItems_cnt ctx P ctx_P newName (unlex l1) l1 [] []
                ltac:(simpl; now rewrite app_nil_r)) as E2.
  pose proof (renameItems_rw ctx P ctx_P oldName third src (lex src) [] []
                ltac:(simpl; now rewrite app_nil_r, unlex_lex)) as E3.
  pose proof (countItems_cnt ctx P ctx_P oldName src (lex src) [] []
                ltac:(simpl; now rewrite app_nil_r, unlex_lex)) as E4.
  simpl length in E1, E2, E3, E4. rewrite E1, E2, E3, E4.
  destruct (rwItems_then (lex src) Hno [] ltac:(simpl; apply lex_wf)) as [H1 H2].
  simpl in H1, H2. fold l1 in H1, H2. now rewrite H1, H2.
Qed.

End ThenPass.

Lemma renameItems_same (ctx : contextFn) (src oldName : buffer) (l : list item) :
  forall pos : nat, renameItems ctx src oldName oldName pos l = l.
Proof.
  induction l as [| [c | w] l IH]; intros pos; [reflexivity | |]; simpl.
  - now rewrite IH.
  - rewrite IH. unfold accepted. destruct (beq w oldName) eqn:E; [| reflexivity].
    apply beq_true_iff in E. subst w. now destruct (ctx _ _ _).
Qed.

(** Renaming a name to itself gives the buffer back, and counts what any
    other new name would. *)
Lemma singlePassRename_same (ctx : contextFn) (src oldName newName : buffer) :
  ValidateIdentifier oldName = true ->
  singlePassRename src oldName oldName ctx
  = (src, snd (singlePassRename src oldName newName ctx)).
Proof.
  intros Hv. rewrite !(singlePassRename_items _ _ _ _ Hv).
  now rewrite renameItems_same, unlex_lex.
Qed.

Lemma buildRenameFn_single (kind : SymbolKind) (renameClass oldName newName src : buffer) :
  kind <> KParameter ->
  buildRenameFn kind renameClass oldName newName src
  = Some (singlePassRename src oldName newName (kindContext kind renameClass)).
Proof. intros Hk. destruct kind; [reflexivity | reflexivity | reflexivity | congruence]. Qed.

Lemma kind_then (kind : SymbolKind) (renameClass src oldName newName third : buffer) :
  kind <> KParameter ->
  ValidateIdentifier oldName = true -> ValidateIdentifier newName = true ->
  Forall (fun w => w <> newName) (words src) ->
  singlePassRename
    (fst (singlePassRename src oldName newName (kindContext kind renameClass)))
    newName third (kindContext kind renameClass)
  = singlePassRename src oldName third (kindContext kind renameClass).
Proof.
  intros Hk Ho Hn Hno. destruct kind; simpl kindContext; [| | | congruence].
  - exact (singlePassRename_then _ _ isClassContext_twoSided _ _ third Ho Hn
             (classP_stable _ _ Hn) src Hno).
  - exact (singlePassRename_then _ _ (isMethodContext_twoSided _) _ _ third Ho Hn
             (methodP_stable _ _ Hn) src Hno).
  - exact (singlePassRename_then _ _ (isPropertyContext_twoSided _) _ _ third Ho Hn
             (propertyP_stable _ _ Hn) src Hno).
Qed.

(** X12. Two renames in sequence are one: for Type, Function and Property,
    on a buffer with no run equal to the intermediate name, renaming the
    target to that name and then that name to a third one gives the text
    and the count of renaming the target to the third name at once. *)
Theorem rename_composes (kind : SymbolKind)
    (renameClass src oldName newName third out : buffer) (n : nat) :
  kind <> KParameter ->
  ValidateIdentifier oldName = true -> ValidateIdentifier newName = true ->
  Forall (fun w => w <> newName) (words src) ->
  buildRenameFn kind renameClass oldName newName src = Some (out, n) ->
  buildRenameFn kind renameClass newName third out
  = buildRenameFn kind renameClass oldName third src.
Proof.
  intros Hk Ho Hn Hno Hr. rewrite !(buildRenameFn_single kind) in * by exact Hk.
  injection Hr as Hr. f_equal.
  replace out with (fst (singlePassRename src oldName newName (kindContext kind renameClass)))
    by now rewrite Hr.
  now apply kind_then.
Qed.

Lemma rename_composes_witness :
  buildRenameFn KFunction noClass (bytes "tmp") (bytes "sum")
    (bytes "fun tmp() = 1; val a = tmp() + total")
  = buildRenameFn KFunction noClass (bytes "total") (bytes "sum")
      (bytes "fun total() = 1; val a = total() + total").
Proof.
  apply (rename_composes KFunction noClass
           (bytes "fun total() = 1; val a = total() + total")
           (bytes "total") (bytes "tmp") (bytes "sum")
           (bytes "fun tmp() = 1; val a = tmp() + total") 2).
  - discriminate.
  - reflexivity.
  - reflexivity.
  - vm_compute. repeat constructor; discriminate.
  - reflexivity.
Defined.

(** X13. A rename is undone by the opposite rename, with the same count:
    for Type, Function and Property, on a buffer with no run equal to the
    new name, renaming the new name back to the target restores the buffer
    and reports as many renames as the first call. *)
Theorem round_trip_with_count (kind : SymbolKind)
    (renameClass src oldName newName out : buffer) (n : nat) :
  kind <> KParameter ->
  ValidateIdentifier oldName = true -> ValidateIdentifier newName = true ->
  Forall (fun w => w <> newName) (words src) ->
  buildRenameFn kind renameClass oldName newName src = Some (out, n) ->
  buildRenameFn kind renameClass newName oldName out = Some (src, n).
Proof.
  intros Hk Ho Hn Hno Hr. rewrite !(buildRenameFn_single kind) in * by exact Hk.
  injection Hr as Hr. f_equal.
  replace out with (fst (singlePassRename src oldName newName (kindContext kind renameClass)))
    by now rewrite Hr.
  rewrite (kind_then kind renameClass src oldName newName oldName Hk Ho Hn Hno).
  rewrite (singlePassRename_same _ src oldName newName Ho). now rewrite Hr.
Qed.

Lemma round_trip_with_count_witness :
  buildRenameFn KProperty noClass (bytes "size") (bytes "count")
    (bytes "val size = 0; fun f() = this.size + count()")
  = Some (bytes "val count = 0; fun f() = this.count + count()", 2).
Proof.
  apply (round_trip_with_count KProperty noClass
           (bytes "val count = 0; fun f() = this.count + count()")
           (bytes "count") (bytes "size")
           (bytes "val size = 0; fun f() = this.size + count()") 2).
  - discriminate.
  - reflexivity.
  - reflexivity.
  - vm_compute. repeat constructor; discriminate.
  - reflexivity.
Defined.

(** ** Package names *)

Lemma splitDotLoop_segments (s rest : buffer) :
  forall (done : buffer) (start : nat) (parts : list buffer),
    s = done ++ rest -> start <= length done ->
    splitDotLoop s rest (length done) start parts
    = parts ++ segments (skipn start done) rest.
Proof.
  induction rest as [| c r IH]; intros done start parts Hs Hst.
  - simpl. rewrite app_nil_r in Hs. now subst s.
  - simpl. assert (Hs' : s = (done ++ [c]) ++ r) by now rewrite <- app_assoc.
    assert (El : S (length done) = length (done ++ [c]))
      by (rewrite length_app; simpl; lia).
    destruct (Ascii.eqb c ".").
    + rewrite El, (IH (done ++ [c]) _ _ Hs') by lia.
      rewrite skipn_all, <- app_assoc. simpl. do 2 f_equal.
      unfold slice. subst s. rewrite skipn_app.
      replace (start - length done) with 0 by lia. simpl skipn at 2.
      rewrite firstn_app, length_skipn.
      replace (length done - start - (length done - start)) with 0 by lia.
      simpl. rewrite app_nil_r. apply firstn_all2. rewrite length_skipn. lia.
    + rewrite El, (IH (done ++ [c]) _ _ Hs') by (rewrite <- El; lia).
      f_equal. rewrite skipn_app. replace (start - length done) with 0 by lia.
      reflexivity.
Qed.

Lemma splitDot_segments (s : buffer) : splitDot s = segments [] s.
Proof. exact (splitDotLoop_segments s s [] 0 [] eq_refl (Nat.le_refl 0)). Qed.

Lemma noDot_app (a b : buffer) : noDot (a ++ b) = noDot a && noDot b.
Proof. apply forallb_app. Qed.

Lemma segments_nonempty (rest : buffer) :
  forall cur : buffer, segments cur rest <> [].
Proof.
  induction rest as [| c r IH]; intros cur; simpl; [discriminate |].
  destruct (Ascii.eqb c "."); [discriminate | apply IH].
Qed.

Lemma segments_join (rest : buffer) :
  forall cur : buffer,
    joinDot (segments cur rest) = cur ++ rest
    /\ (noDot cur = true -> forallb noDot (segments cur rest) = true).
Proof.
  induction rest as [| c r IH]; intros cur.
  - simpl. rewrite app_nil_r. split; [reflexivity |]. intros ->. reflexivity.
  - simpl. destruct (Ascii.eqb c ".") eqn:Ec.
    + apply Ascii.eqb_eq in Ec. subst c. destruct (IH []) as [H1 H2].
      split.
      * change (joinDot (cur :: segments [] r))
          with (match segments [] r with
                | [] => cur
                | _ :: _ => cur ++ "." :: joinDot (segments [] r)
                end).
        rewrite H1. pose proof (segments_nonempty r []) as Hn.
        now destruct (segments [] r).
      * intros Hc. simpl. now rewrite Hc, H2.
    + destruct (IH (cur ++ [c])) as [H1 H2]. split.
      * now rewrite H1, <- app_assoc.
      * intros Hc. apply H2. rewrite noDot_app, Hc. simpl. now rewrite Ec.
Qed.

Lemma segments_noDot (p rest cur : buffer) :
  noDot p = true ->
  segments cur (p ++ rest)
  = match rest with
    | [] => [cur ++ p]
    | _ :: _ => segments (cur ++ p) rest
    end.
Proof.
  revert cur. induction p as [| c p IH]; intros cur Hp.
  - simpl. rewrite app_nil_r. now destruct rest.
  - simpl in Hp. apply andb_true_iff in Hp. destruct Hp as [Hc Hp].
    simpl. destruct (Ascii.eqb c "."); [discriminate |].
    rewrite (IH (cur ++ [c]) Hp), <- app_assoc. reflexivity.
Qed.

Lemma segments_joinDot (parts : list buffer) :
  parts <> [] -> forallb noDot parts = true ->
  segments [] (joinDot parts) = parts.
Proof.
  induction parts as [| p ps IH]; intros Hne Hall; [congruence |].
  simpl in Hall. apply andb_true_iff in Hall. destruct Hall as [Hp Hps].
  destruct ps as [| q qs].
  - simpl. pose proof (segments_noDot p [] [] Hp) as E. now rewrite app_nil_r in E.
  - change (joinDot (p :: q :: qs)) with (p ++ "." :: joinDot (q :: qs)).
    rewrite (segments_noDot p _ [] Hp).
    change (p :: q :: qs) with (p :: (q :: qs)).
    change (segments ([] ++ p) ("." :: joinDot (q :: qs)))
      with (p :: segments [] (joinDot (q :: qs))).
    rewrite IH; [reflexivity | discriminate | exact Hps].
Qed.

Lemma isIdentChar_split (c : ascii) :
  isIdentChar c = isLetter c || isDigit c || Ascii.eqb c "_".
Proof. destruct c as [[] [] [] [] [] [] [] []]; reflexivity. Qed.

Lemma isIdentStart_split (c : ascii) :
  isIdentStart c = isLetter c || Ascii.eqb c "_".
Proof. destruct c as [[] [] [] [] [] [] [] []]; reflexivity. Qed.

Lemma segmentLoop_tail (p : buffer) :
  forall i : nat, segmentLoop (S i) p = forallb isIdentChar p.
Proof.
  induction p as [| c p IH]; intros i; [reflexivity |].
  simpl. rewrite IH, isIdentChar_split.
  now destruct (isLetter c), (isDigit c), (Ascii.eqb c "_").
Qed.

Lemma segment_valid (p : buffer) :
  (if beq p [] then false else segmentLoop 0 p) = ValidateIdentifier p.
Proof.
  destruct p as [| c p]; [reflexivity |].
  assert (E : beq (c :: p) [] = false) by (now apply beq_false_iff).
  rewrite E. simpl. rewrite segmentLoop_tail, isIdentStart_split.
  now destruct (isLetter c), (Ascii.eqb c "_").
Qed.

Lemma partsLoop_valid (parts : list buffer) :
  partsLoop parts = forallb ValidateIdentifier parts.
Proof.
  induction parts as [| p ps IH]; [reflexivity |].
  simpl. rewrite <- segment_valid, IH.
  destruct (beq p []); [reflexivity |]. now destruct (segmentLoop 0 p).
Qed.

Lemma valid_noDot (p : buffer) : ValidateIdentifier p = true -> noDot p = true.
Proof.
  intros Hv. destruct (ValidateIdentifier_run _ Hv) as [_ Hid].
  unfold noDot. rewrite forallb_forall in *. intros c Hc.
  specialize (Hid c Hc). destruct (Ascii.eqb c ".") eqn:E; [| reflexivity].
  apply Ascii.eqb_eq in E. now subst c.
Qed.

(** X14. [splitDot] and joining with dots are inverse: the parts of a name
    hold no dot and joined give the name back, and a non-empty list of
    dotless parts is what [splitDot] returns on their join. *)
Theorem splitDot_inverts_join (s : buffer) (parts : list buffer) :
  (joinDot (splitDot s) = s /\ forallb noDot (splitDot s) = true)
  /\ (parts <> [] -> forallb noDot parts = true -> splitDot (joinDot parts) = parts).
Proof.
  split.
  - rewrite splitDot_segments. destruct (segments_join s []) as [H1 H2].
    split; [exact H1 | now apply H2].
  - intros Hne Hall. rewrite splitDot_segments. now apply segments_joinDot.
Qed.

Lemma splitDot_inverts_join_witness :
  splitDot (joinDot [bytes "com"; bytes "example"; bytes "util"])
  = [bytes "com"; bytes "example"; bytes "util"].
Proof.
  apply (proj2 (splitDot_inverts_join [] [bytes "com"; bytes "example"; bytes "util"])).
  - discriminate.
  - reflexivity.
Defined.

Lemma valid_package_name_parts (pkg : buffer) :
  isValidPackageName pkg = true
  <-> exists parts : list buffer,
        parts <> [] /\ pkg = joinDot parts
        /\ forallb ValidateIdentifier parts = true.
Proof.
  unfold isValidPackageName. rewrite partsLoop_valid, splitDot_segments. split.
  - intros H. destruct (beq pkg []); [discriminate |].
    exists (segments [] pkg). destruct (segments_join pkg []) as [H1 _].
    split; [apply segments_nonempty | split; [now rewrite H1 | exact H]].
  - intros (parts & Hne & -> & Hall).
    assert (Hd : forallb noDot parts = true).
    { rewrite forallb_forall in *. intros p Hp. apply valid_noDot. now apply Hall. }
    rewrite (segments_joinDot parts Hne Hd), Hall.
    destruct (beq (joinDot parts) []) eqn:E; [| reflexivity].
    apply beq_true_iff in E. destruct parts as [| p ps]; [congruence |].
    simpl in Hall. apply andb_true_iff in Hall. destruct Hall as [Hp _].
    destruct p; [discriminate |]. destruct ps; discriminate.
Qed.


(** ** Applying a rename to files *)

Section Apply.

Variable renameFn : buffer -> option (buffer * nat).

Lemma applyLoop_dry_disk (paths : list buffer) :
  forall (d : Disk) (rs : list FileResult),
    fst (applyLoop paths true renameFn d rs) = d.
Proof.
  induction paths as [| path rest IH]; intros d rs; [reflexivity |].
  simpl. destruct (ReadFile d path) as [original |]; [| apply IH].
  destruct (renameFn original) as [[modified count] |]; [| reflexivity].
  destruct (count =? 0)%nat; apply IH.
Qed.

Lemma applyLoop_dry_results (paths : list buffer) :
  NoDup paths ->
  forall (d d' : Disk) (rs : list FileResult),
    (forall p, In p paths ->
               fileContent d' p = fileContent d p /\ readOnly d' p = false) ->
    snd (applyLoop paths true renameFn d rs)
    = snd (applyLoop paths false renameFn d' rs).
Proof.
  induction 1 as [| path rest Hnin Hnd IH]; intros d d' rs Hag; [reflexivity |].
  destruct (Hag path (or_introl eq_refl)) as [Hc Hw].
  assert (Hrest : forall p, In p rest ->
                    fileContent d' p = fileContent d p /\ readOnly d' p = false)
    by (intros p Hp; apply Hag; now right).
  simpl. unfold ReadFile. rewrite Hc.
  destruct (fileContent d path) as [original |]; [| now apply IH].
  destruct (renameFn original) as [[modified count] |]; [| reflexivity].
  destruct (count =? 0)%nat; [now apply IH |].
  unfold WriteFile. rewrite Hw. apply IH. intros p Hp. simpl.
  assert (E : beq p path = false) by (apply beq_false_iff; intros ->; contradiction).
  rewrite E. now apply Hrest.
Qed.


(** A rename that finds nothing to do in its own output. *)
Hypothesis settles :
  forall (c out : buffer) (n : nat),
    renameFn c = Some (out, n) -> renameFn out = Some (out, 0).

Lemma WriteFile_settled (d : Disk) (path original modified : buffer) (n : nat) (q : buffer) :
  renameFn original = Some (modified, n) ->
  settled renameFn d q \/ q = path ->
  settled renameFn (fst (WriteFile d path modified)) q
  \/ readOnly d path = true.
Proof.
  intros Hr Hq. unfold WriteFile. destruct (readOnly d path); [now right |]. left.
  unfold settled. simpl. destruct (beq q path) eqn:E.
  - exists modified, modified. split; [reflexivity | exact (settles _ _ _ Hr)].
  - destruct Hq as [Hq | ->]; [exact Hq |]. now rewrite beq_refl in E.
Qed.

Lemma applyLoop_settles (paths : list buffer) :
  forall (d d1 : Disk) (rs0 rs : list FileResult),
    applyLoop paths false renameFn d rs0 = (d1, Some rs) ->
    forallb (usable d) paths = true ->
    (forall p, In p paths -> settled renameFn d1 p)
    /\ (forall q, settled renameFn d q -> settled renameFn d1 q).
Proof.
  induction paths as [| path rest IH]; intros d d1 rs0 rs Hrun Hus.
  - injection Hrun as <- <-. split; [intros p [] | auto].
  - simpl in Hus. apply andb_true_iff in Hus. destruct Hus as [Hp Hrest].
    unfold usable in Hp. simpl in Hrun. unfold ReadFile in Hrun.
    destruct (fileContent d path) as [original |] eqn:Ec; [| discriminate].
    apply negb_true_iff in Hp.
    destruct (renameFn original) as [[modified count] |] eqn:Er; [| discriminate].
    destruct (count =? 0)%nat eqn:Ez.
    + apply Nat.eqb_eq in Ez. subst count.
      destruct (IH _ _ _ _ Hrun Hrest) as [H1 H2]. split; [| exact H2].
      intros p [<- | Hin]; [| now apply H1].
      apply H2. now exists original, modified.
    + unfold WriteFile in Hrun. rewrite Hp in Hrun.
      set (d' := {| fileContent := fun q => if beq q path then Some modified
                                            else fileContent d q;
                    readOnly := readOnly d |}) in Hrun.
      assert (Hpres : forall q, settled renameFn d q \/ q = path -> settled renameFn d' q).
      { intros q Hq.
        destruct (WriteFile_settled d path original modified count q Er Hq) as [H | H];
          [| congruence].
        unfold WriteFile in H. now rewrite Hp in H. }
      assert (Hus' : forallb (usable d') rest = true).
      { rewrite forallb_forall in *. intros p Hin. specialize (Hrest p Hin).
        unfold usable in *. simpl. destruct (beq p path) eqn:E; [| exact Hrest].
        apply beq_true_iff in E. subst p. now rewrite Hp. }
      destruct (IH _ _ _ _ Hrun Hus') as [H1 H2]. split.
      * intros p [<- | Hin]; [| now apply H1]. apply H2, Hpres. now right.
      * intros q Hq. apply H2, Hpres. now left.
Qed.

Lemma applyLoop_settled_noop (paths : list buffer) (dryRun : bool) (d : Disk) :
  (forall p, In p paths -> settled renameFn d p) ->
  forall rs : list FileResult, applyLoop paths dryRun renameFn d rs = (d, Some rs).
Proof.
  induction paths as [| path rest IH]; intros Hall rs; [reflexivity |].
  destruct (Hall path (or_introl eq_refl)) as (c & out & Hc & Hr).
  simpl. unfold ReadFile. rewrite Hc, Hr. simpl. apply IH.
  intros p Hp. apply Hall. now right.
Qed.

End Apply.

(** X15. A dry run writes nothing and previews the real run: the disk after
    a dry run is the disk before it, and on distinct paths that accept a
    write the dry run returns the results of the real run. *)
Theorem dry_run_previews (paths : list buffer)
    (renameFn : buffer -> option (buffer * nat)) (d : Disk) :
  fst (ApplyToFiles paths true renameFn d) = d
  /\ (NoDup paths ->
      forallb (fun p => negb (readOnly d p)) paths = true ->
      snd (ApplyToFiles paths true renameFn d)
      = snd (ApplyToFiles paths false renameFn d)).
Proof.
  unfold ApplyToFiles. split; [apply applyLoop_dry_disk |].
  intros Hnd Hw. apply applyLoop_dry_results; [exact Hnd |].
  intros p Hp. split; [reflexivity |].
  rewrite forallb_forall in Hw. now apply negb_true_iff, Hw.
Qed.

Lemma dry_run_previews_witness :
  snd (ApplyToFiles [bytes "A.kt"; bytes "B.kt"; bytes "C.kt"] true
         (buildRenameFn KType noClass (bytes "User") (bytes "Account")) twoFiles)
  = snd (ApplyToFiles [bytes "A.kt"; bytes "B.kt"; bytes "C.kt"] false
           (buildRenameFn KType noClass (bytes "User") (bytes "Account")) twoFiles).
Proof.
  apply (proj2 (dry_run_previews [bytes "A.kt"; bytes "B.kt"; bytes "C.kt"]
                  (buildRenameFn KType noClass (bytes "User") (bytes "Account"))
                  twoFiles)).
  - repeat constructor; simpl; intuition discriminate.
  - reflexivity.
Defined.



Lemma kind_twice (kind : SymbolKind) (renameClass oldName newName : buffer) :
  kind <> KParameter ->
  ValidateIdentifier oldName = true -> ValidateIdentifier newName = true ->
  oldName <> newName ->
  forall (c out : buffer) (n : nat),
    buildRenameFn kind renameClass oldName newName c = Some (out, n) ->
    buildRenameFn kind renameClass oldName newName out = Some (out, 0).
Proof.
  intros Hk Ho Hn Hne c out n Hr.
  rewrite !(buildRenameFn_single kind) in * by exact Hk.
  injection Hr as Hr. f_equal.
  replace out with (fst (singlePassRename c oldName newName (kindContext kind renameClass)))
    by now rewrite Hr.
  destruct kind; simpl kindContext; [| | | congruence].
  - exact (singlePassRename_twice _ _ isClassContext_twoSided _ _ Ho Hn
             (classP_stable _ _ Hn) c Hne).
  - exact (singlePassRename_twice _ _ (isMethodContext_twoSided _) _ _ Ho Hn
             (methodP_stable _ _ Hn) c Hne).
  - exact (singlePassRename_twice _ _ (isPropertyContext_twoSided _) _ _ Ho Hn
             (propertyP_stable _ _ Hn) c Hne).
Qed.

(** X17. Running a rename over the files a second time does nothing: for
    Type, Function and Property, with different names and files that are
    read and written without error, the second run, dry or not, leaves the
    disk of the first run as it is and returns no result. *)
Theorem second_run_reports_nothing (kind : SymbolKind)
    (renameClass oldName newName : buffer) (paths : list buffer) (dryRun : bool)
    (d d1 : Disk) (rs : list FileResult) :
  kind <> KParameter ->
  ValidateIdentifier oldName = true -> ValidateIdentifier newName = true ->
  oldName <> newName ->
  forallb (usable d) paths = true ->
  ApplyToFiles paths false (buildRenameFn kind renameClass oldName newName) d
  = (d1, Some rs) ->
  ApplyToFiles paths dryRun (buildRenameFn kind renameClass oldName newName) d1
  = (d1, Some []).
Proof.
  intros Hk Ho Hn Hne Hus Hrun. unfold ApplyToFiles in *.
  apply applyLoop_settled_noop.
  exact (proj1 (applyLoop_settles _ (kind_twice kind renameClass oldName newName
                                       Hk Ho Hn Hne)
                  paths d d1 [] rs Hrun Hus)).
Qed.

Lemma second_run_reports_nothing_witness :
  exists d1 : Disk,
    fst (ApplyToFiles [bytes "A.kt"; bytes "B.kt"; bytes "A.kt"] false
           (buildRenameFn KType noClass (bytes "User") (bytes "Account")) twoFiles)
    = d1
    /\ ApplyToFiles [bytes "A.kt"; bytes "B.kt"; bytes "A.kt"] false
         (buildRenameFn KType noClass (bytes "User") (bytes "Account")) d1
       = (d1, Some []).
Proof.
  eexists. split; [reflexivity |].
  apply (second_run_reports_nothing KType noClass (bytes "User") (bytes "Account")
           [bytes "A.kt"; bytes "B.kt"; bytes "A.kt"] false twoFiles _
           (resultsOf
              (ApplyToFiles [bytes "A.kt"; bytes "B.kt"; bytes "A.kt"] false
                 (buildRenameFn KType noClass (bytes "User") (bytes "Account"))
                 twoFiles))).
  - discriminate.
  - reflexivity.
  - reflexivity.
  - discriminate.
  - reflexivity.
  - reflexivity.
Defined.

(** ** The package declaration *)

Lemma takeWhile_dropWhile (f : ascii -> bool) (s : buffer) :
  s = takeWhile f s ++ dropWhile f s.
Proof.
  induction s as [| c r IH]; [reflexivity |].
  simpl. destruct (f c); [simpl; now rewrite <- IH | reflexivity].
Qed.

Lemma takeWhile_all (f : ascii -> bool) (s : buffer) : forallb f (takeWhile f s) = true.
Proof.
  induction s as [| c r IH]; [reflexivity |].
  simpl. destruct (f c) eqn:E; [simpl; now rewrite E | reflexivity].
Qed.

Lemma dropWhile_stops (f : ascii -> bool) (s : buffer) : stopsAt f (dropWhile f s) = true.
Proof.
  induction s as [| c r IH]; [reflexivity |].
  simpl. destruct (f c) eqn:E; [exact IH | simpl; now rewrite E].
Qed.

Lemma takeWhile_app_stop (f : ascii -> bool) (a b : buffer) :
  forallb f a = true -> stopsAt f b = true -> takeWhile f (a ++ b) = a.
Proof.
  intros Ha Hb. induction a as [| c a IH].
  - destruct b as [| x b]; [reflexivity |]. simpl in *.
    now destruct (f x).
  - simpl in Ha. apply andb_true_iff in Ha. destruct Ha as [Hc Ha].
    simpl. now rewrite Hc, IH.
Qed.

Lemma dropWhile_app_stop (f : ascii -> bool) (a b : buffer) :
  forallb f a = true -> stopsAt f b = true -> dropWhile f (a ++ b) = b.
Proof.
  intros Ha Hb. induction a as [| c a IH].
  - destruct b as [| x b]; [reflexivity |]. simpl in *.
    now destruct (f x).
  - simpl in Ha. apply andb_true_iff in Ha. destruct Ha as [Hc Ha].
    simpl. now rewrite Hc, IH.
Qed.

Lemma isPkgChar_facts (x : ascii) :
  isPkgChar x = true ->
  isSpace x = false /\ isTrimSpace x = false /\ Ascii.eqb x "010" = false
  /\ Ascii.eqb x "$" = false.
Proof.
  destruct x as [[] [] [] [] [] [] [] []]; intros H; try discriminate H;
    repeat split; reflexivity.
Qed.

Lemma packageDeclAt_Some (s m : buffer) :
  packageDeclAt s = Some m ->
  exists ws nm rest : buffer,
    s = bytes "package" ++ ws ++ nm ++ rest
    /\ m = bytes "package" ++ ws ++ nm
    /\ ws <> [] /\ forallb isSpace ws = true
    /\ nm <> [] /\ forallb isPkgChar nm = true
    /\ stopsAt isPkgChar rest = true.
Proof.
  unfold packageDeclAt. intros H.
  destruct (stripPrefix (bytes "package") s) as [r |] eqn:Es; [| discriminate].
  apply stripPrefix_Some in Es.
  destruct (takeWhile isSpace r) as [| w ws] eqn:Ew; [discriminate |].
  destruct (takeWhile isPkgChar (dropWhile isSpace r)) as [| x nm] eqn:En;
    [discriminate |].
  injection H as <-.
  exists (w :: ws), (x :: nm), (dropWhile isPkgChar (dropWhile isSpace r)).
  split.
  - rewrite Es. f_equal. rewrite <- Ew, <- En, <- takeWhile_dropWhile.
    apply takeWhile_dropWhile.
  - split; [reflexivity |]. split; [discriminate |].
    split; [rewrite <- Ew; apply takeWhile_all |]. split; [discriminate |].
    split; [rewrite <- En; apply takeWhile_all | apply dropWhile_stops].
Qed.

Lemma packageDeclAt_exact (ws nm rest : buffer) :
  ws <> [] -> forallb isSpace ws = true ->
  nm <> [] -> forallb isPkgChar nm = true ->
  stopsAt isPkgChar rest = true ->
  packageDeclAt (bytes "package" ++ ws ++ nm ++ rest)
  = Some (bytes "package" ++ ws ++ nm).
Proof.
  intros Hw Hws Hn Hnm Hrest. unfold packageDeclAt. rewrite stripPrefix_app.
  assert (Hstop : stopsAt isSpace (nm ++ rest) = true).
  { destruct nm as [| x nm]; [congruence |]. simpl in *.
    apply andb_true_iff in Hnm. destruct Hnm as [Hx _].
    destruct (isPkgChar_facts x Hx) as [E _]. now rewrite E. }
  rewrite (takeWhile_app_stop _ _ _ Hws Hstop), (dropWhile_app_stop _ _ _ Hws Hstop).
  rewrite (takeWhile_app_stop _ _ _ Hnm Hrest).
  destruct ws; [congruence |]. destruct nm; [congruence | reflexivity].
Qed.

Lemma packageDeclAt_header (ws : buffer) (x : ascii) (rest : buffer) :
  ws <> [] -> forallb isSpace ws = true -> isPkgChar x = true ->
  packageDeclAt (bytes "package" ++ ws ++ x :: rest) <> None.
Proof.
  intros Hw Hws Hx.
  rewrite (takeWhile_dropWhile isPkgChar (x :: rest)).
  rewrite packageDeclAt_exact; [discriminate | exact Hw | exact Hws | | | ].
  - simpl. now rewrite Hx.
  - apply takeWhile_all.
  - apply dropWhile_stops.
Qed.

Section Replace.

Variable repl : buffer.

Lemma packageDeclReplaceAll_skip (a rem : buffer) :
  forall prev : option ascii,
    packageDeclReplaceAll repl (length a) prev (a ++ rem)
    = packageDeclReplaceAll repl 0 (lastOr prev a) rem.
Proof.
  induction a as [| c a IH]; intros prev; [reflexivity |].
  simpl length. simpl app. cbn [packageDeclReplaceAll].
  now rewrite IH, (lastOr_cons prev c a).
Qed.

Lemma packageDeclReplaceAll_copy (c : ascii) (r : buffer) (prev : option ascii) :
  packageDeclHere prev (c :: r) = None ->
  packageDeclReplaceAll repl 0 prev (c :: r)
  = c :: packageDeclReplaceAll repl 0 (Some c) r.
Proof. intros H. cbn [packageDeclReplaceAll]. now rewrite H. Qed.

Lemma packageDeclHere_inside (prev : option ascii) (s : buffer) :
  lineStart prev = false -> packageDeclHere prev s = None.
Proof. unfold packageDeclHere. now intros ->. Qed.

Lemma packageDeclReplaceAll_stops (prev : option ascii) (rem : buffer) :
  lineStart prev = false -> stopsAt isPkgChar rem = true ->
  stopsAt isPkgChar (packageDeclReplaceAll repl 0 prev rem) = true.
Proof.
  intros Hl Hs. destruct rem as [| c r]; [reflexivity |].
  now rewrite (packageDeclReplaceAll_copy _ _ _ (packageDeclHere_inside _ _ Hl)).
Qed.

(** A word without line feed at the head of the output was at the head of
    the input, when no match can start there. *)
Lemma packageDeclReplaceAll_word (u : buffer) :
  forallb (fun c => negb (Ascii.eqb c "010")) u = true ->
  forall (prev : option ascii) (t Y : buffer),
    lineStart prev = false ->
    packageDeclReplaceAll repl 0 prev t = u ++ Y ->
    exists t' : buffer,
      t = u ++ t' /\ Y = packageDeclReplaceAll repl 0 (lastOr prev u) t'.
Proof.
  induction u as [| a u IH]; intros Hu prev t Y Hl H.
  - exists t. now split.
  - simpl in Hu. apply andb_true_iff in Hu. destruct Hu as [Ha Hu].
    destruct t as [| c r]; [discriminate |].
    rewrite (packageDeclReplaceAll_copy _ _ _ (packageDeclHere_inside _ _ Hl)) in H.
    injection H as -> H.
    destruct (IH Hu (Some a) r Y) as (t' & -> & ->);
      [simpl; now apply negb_true_iff | exact H |].
    exists t'. split; [reflexivity |]. now rewrite (lastOr_cons prev a u).
Qed.

End Replace.

Lemma packageDeclScan_head (prev : option ascii) (s m : buffer) :
  lineStart prev = true -> packageDeclAt s = Some m -> packageDeclScan prev s = Some m.
Proof.
  intros Hl Hm. destruct s as [| c r]; [discriminate |].
  cbn [packageDeclScan]. unfold packageDeclHere. now rewrite Hl, Hm.
Qed.

Section Declared.

Variable newPackage : buffer.
Hypothesis name_nonempty : newPackage <> [].
Hypothesis name_chars : forallb isPkgChar newPackage = true.

Lemma declarationOf_header :
  declarationOf newPackage = bytes "package" ++ bytes " " ++ newPackage.
Proof. reflexivity. Qed.

Lemma packageDeclAt_declaration (X : buffer) :
  stopsAt isPkgChar X = true ->
  packageDeclAt (declarationOf newPackage ++ X) = Some (declarationOf newPackage).
Proof.
  intros HX. rewrite declarationOf_header, <- !app_assoc.
  rewrite (packageDeclAt_exact (bytes " ") newPackage X);
    [reflexivity | discriminate | reflexivity | exact name_nonempty
    | exact name_chars | exact HX].
Qed.

(** White space and then a byte of a name at the head of the output were
    at the head of the input. *)
Lemma packageDeclReplaceAll_blank (ws : buffer) (x : ascii) :
  forallb isSpace ws = true -> isPkgChar x = true ->
  forall (prev : option ascii) (t rest : buffer),
    packageDeclReplaceAll (declarationOf newPackage) 0 prev t = ws ++ x :: rest ->
    exists rest' : buffer, t = ws ++ x :: rest'.
Proof.
  intros Hws Hx. induction ws as [| w ws IH]; intros prev t rest H.
  - destruct t as [| c r]; [discriminate |].
    cbn [packageDeclReplaceAll] in H.
    destruct (packageDeclHere prev (c :: r)) as [m |] eqn:Em.
    + unfold packageDeclHere in Em. destruct (lineStart prev); [| discriminate].
      destruct (packageDeclAt_Some _ _ Em) as (ws' & nm & rest' & Es & _).
      simpl in H. injection H as <- _. simpl in Es. injection Es as -> _.
      now exists r.
    + simpl in H. injection H as -> _. now exists r.
  - simpl in Hws. apply andb_true_iff in Hws. destruct Hws as [Hw Hws].
    destruct t as [| c r]; [discriminate |].
    cbn [packageDeclReplaceAll] in H.
    destruct (packageDeclHere prev (c :: r)) as [m |] eqn:Em.
    + simpl in H. injection H as <- _. discriminate.
    + simpl in H. injection H as -> H.
      destruct (IH Hws _ _ _ H) as (rest' & ->). now exists rest'.
Qed.

(** The replacement brings no match to a place that had none. *)
Lemma packageDeclAt_copied (c : ascii) (r : buffer) :
  packageDeclAt (c :: r) = None ->
  packageDeclAt (c :: packageDeclReplaceAll (declarationOf newPackage) 0 (Some c) r) = None.
Proof.
  intros Hno.
  destruct (packageDeclAt (c :: packageDeclReplaceAll (declarationOf newPackage) 0 (Some c) r))
    as [m |] eqn:Em; [| reflexivity].
  exfalso.
  destruct (packageDeclAt_Some _ _ Em)
    as (ws & nm & rest & Es & _ & Hw & Hws & Hn & Hnm & _).
  simpl in Es. injection Es as -> Es.
  destruct (packageDeclReplaceAll_word (declarationOf newPackage) (bytes "ackage") eq_refl
              (Some "p") r (ws ++ nm ++ rest) eq_refl Es) as (t' & -> & EY).
  destruct nm as [| x nm]; [congruence |].
  simpl in Hnm. apply andb_true_iff in Hnm. destruct Hnm as [Hx _].
  simpl app in EY. symmetry in EY.
  destruct (packageDeclReplaceAll_blank ws x Hws Hx _ _ _ EY) as (rest' & ->).
  exact (packageDeclAt_header ws x rest' Hw Hws Hx Hno).
Qed.

Lemma packageDeclScan_replaced (s : buffer) :
  forall prev : option ascii,
    packageDeclScan prev s <> None ->
    packageDeclScan prev (packageDeclReplaceAll (declarationOf newPackage) 0 prev s)
    = Some (declarationOf newPackage).
Proof.
  induction s as [| c r IH]; intros prev Hm; [now destruct Hm |].
  cbn [packageDeclScan] in Hm. cbn [packageDeclReplaceAll].
  destruct (packageDeclHere prev (c :: r)) as [m |] eqn:Em.
  - unfold packageDeclHere in Em. destruct (lineStart prev) eqn:El; [| discriminate].
    destruct (packageDeclAt_Some _ _ Em)
      as (ws & nm & rest & Es & -> & Hw & Hws & Hn & Hnm & Hrest).
    assert (HX : stopsAt isPkgChar
                   (packageDeclReplaceAll (declarationOf newPackage)
                      (length (bytes "package" ++ ws ++ nm) - 1)
                      (Some c) r) = true).
    { simpl in Es. injection Es as -> ->.
      replace (length (bytes "package" ++ ws ++ nm) - 1)
        with (length ((bytes "ackage" ++ ws) ++ nm))
        by (rewrite <- app_assoc; simpl; lia).
      change ("a" :: "c" :: "k" :: "a" :: "g" :: "e" :: ws ++ nm ++ rest)
        with (bytes "ackage" ++ ws ++ nm ++ rest).
      rewrite !app_assoc.
      rewrite packageDeclReplaceAll_skip.
      apply packageDeclReplaceAll_stops; [| exact Hrest].
      destruct (exists_last Hn) as (nm' & x & ->).
      rewrite app_assoc. unfold lastOr. rewrite lastByte_snoc.
      rewrite forallb_app in Hnm. apply andb_true_iff in Hnm.
      destruct Hnm as [_ Hx]. simpl in Hx. rewrite andb_true_r in Hx.
      simpl. now destruct (isPkgChar_facts x Hx) as (_ & _ & E & _). }
    apply packageDeclScan_head; [exact El | now apply packageDeclAt_declaration].
  - cbn [packageDeclScan].
    assert (Eh : packageDeclHere prev
                   (c :: packageDeclReplaceAll (declarationOf newPackage) 0 (Some c) r) = None).
    { unfold packageDeclHere in *. destruct (lineStart prev); [| reflexivity].
      now apply packageDeclAt_copied. }
    rewrite Eh. now apply IH.
Qed.

Lemma packageDeclReplaceAll_prev (R : buffer) (prev prev' : option ascii) (s : buffer) :
  lineStart prev = lineStart prev' ->
  packageDeclReplaceAll R 0 prev s = packageDeclReplaceAll R 0 prev' s.
Proof.
  intros H. destruct s as [| c r]; [reflexivity |].
  cbn [packageDeclReplaceAll]. unfold packageDeclHere. now rewrite H.
Qed.

Lemma packageDeclReplaceAll_here (R : buffer) (prev : option ascii) (m rem : buffer) :
  lineStart prev = true -> packageDeclAt (m ++ rem) = Some m ->
  packageDeclReplaceAll R 0 prev (m ++ rem)
  = R ++ packageDeclReplaceAll R 0 (lastOr prev m) rem.
Proof.
  intros Hl Hm. destruct m as [| c m'].
  - destruct (packageDeclAt_Some _ _ Hm) as (ws & nm & rest & _ & E & _). discriminate.
  - simpl app. cbn [packageDeclReplaceAll]. unfold packageDeclHere.
    simpl app in Hm. rewrite Hl, Hm.
    replace (length (c :: m') - 1) with (length m') by (simpl; lia).
    now rewrite packageDeclReplaceAll_skip, (lastOr_cons prev c m').
Qed.

Lemma match_last (prev : option ascii) (s m : buffer) :
  packageDeclAt s = Some m ->
  exists rest : buffer,
    s = m ++ rest /\ lineStart (lastOr prev m) = false
    /\ stopsAt isPkgChar rest = true.
Proof.
  intros Hm.
  destruct (packageDeclAt_Some _ _ Hm)
    as (ws & nm & rest & -> & -> & _ & _ & Hn & Hnm & Hrest).
  exists rest. split; [now rewrite <- !app_assoc |]. split; [| exact Hrest].
  destruct (exists_last Hn) as (nm' & x & ->).
  rewrite !app_assoc. unfold lastOr. rewrite lastByte_snoc.
  rewrite forallb_app in Hnm. apply andb_true_iff in Hnm.
  destruct Hnm as [_ Hx]. simpl in Hx. rewrite andb_true_r in Hx.
  simpl. now destruct (isPkgChar_facts x Hx) as (_ & _ & E & _).
Qed.

(** Replacing the declarations again changes nothing. *)
Lemma packageDeclReplaceAll_twice (n : nat) :
  forall (s : buffer) (prev : option ascii),
    length s <= n ->
    packageDeclReplaceAll (declarationOf newPackage) 0 prev
      (packageDeclReplaceAll (declarationOf newPackage) 0 prev s)
    = packageDeclReplaceAll (declarationOf newPackage) 0 prev s.
Proof.
  induction n as [| n IH]; intros s prev Hlen.
  - destruct s; [reflexivity | simpl in Hlen; lia].
  - destruct s as [| c r]; [reflexivity |].
    destruct (packageDeclHere prev (c :: r)) as [m |] eqn:Em.
    + unfold packageDeclHere in Em. destruct (lineStart prev) eqn:El; [| discriminate].
      destruct (match_last prev _ _ Em) as (rest & Es & Hlast & Hrest).
      rewrite Es in Em |- *.
      rewrite (packageDeclReplaceAll_here _ _ _ _ El Em).
      set (X := packageDeclReplaceAll (declarationOf newPackage) 0 (lastOr prev m) rest).
      assert (HX : stopsAt isPkgChar X = true)
        by now apply packageDeclReplaceAll_stops.
      pose proof (packageDeclAt_declaration X HX) as ER.
      rewrite (packageDeclReplaceAll_here _ _ _ _ El ER). f_equal.
      destruct (match_last prev _ _ ER) as (rest' & _ & Hlast' & _).
      rewrite (packageDeclReplaceAll_prev _ _ (lastOr prev m) X)
        by now rewrite Hlast, Hlast'.
      apply IH.
      assert (Hm : m <> []).
      { destruct (packageDeclAt_Some _ _ Em) as (ws & nm & rest0 & _ & E & _).
        rewrite E. discriminate. }
      apply (f_equal (@length ascii)) in Es. rewrite length_app in Es.
      simpl in Es, Hlen. destruct m; [congruence | simpl in Es; lia].
    + rewrite (packageDeclReplaceAll_copy _ _ _ _ Em).
      assert (Eh : packageDeclHere prev
                     (c :: packageDeclReplaceAll (declarationOf newPackage) 0 (Some c) r)
                   = None).
      { unfold packageDeclHere in *. destruct (lineStart prev); [| reflexivity].
        now apply packageDeclAt_copied. }
      rewrite (packageDeclReplaceAll_copy _ _ _ _ Eh). f_equal.
      apply IH. simpl in Hlen. lia.
Qed.

Lemma TrimSpace_name : TrimSpace (bytes " " ++ newPackage) = newPackage.
Proof.
  unfold TrimSpace.
  assert (Hd : forall s, s <> [] -> forallb isPkgChar s = true ->
                         dropWhile isTrimSpace s = s).
  { intros [| x s] Hne Hs; [congruence |]. simpl in Hs.
    apply andb_true_iff in Hs. destruct Hs as [Hx _].
    destruct (isPkgChar_facts x Hx) as (_ & E & _). simpl. now rewrite E. }
  change (dropWhile isTrimSpace (bytes " " ++ newPackage))
    with (dropWhile isTrimSpace newPackage).
  rewrite (Hd newPackage name_nonempty name_chars).
  rewrite Hd; [apply rev_involutive | | ].
  - intros E. apply name_nonempty. now rewrite <- (rev_involutive newPackage), E.
  - rewrite forallb_forall in *. intros x Hx. apply name_chars. now apply in_rev.
Qed.

Lemma extractPackage_found (out : buffer) :
  packageDeclScan None out = Some (declarationOf newPackage) -> extractPackage out = newPackage.
Proof.
  intros H. unfold extractPackage, packageDeclFindString. rewrite H.
  change (beq (declarationOf newPackage) []) with false. cbv iota.
  change (TrimPrefix (declarationOf newPackage) (bytes "package")) with (bytes " " ++ newPackage).
  apply TrimSpace_name.
Qed.

Lemma no_dollar : existsb (fun c => Ascii.eqb c "$") newPackage = false.
Proof.
  destruct (existsb _ newPackage) eqn:E; [| reflexivity].
  apply existsb_exists in E. destruct E as (x & Hin & Hx).
  rewrite forallb_forall in name_chars.
  destruct (isPkgChar_facts x (name_chars x Hin)) as (_ & _ & _ & E). congruence.
Qed.

Lemma rewrite_then_extract (src : buffer) :
  exists out : buffer,
    rewritePackageDeclaration src newPackage = Some out
    /\ extractPackage out = newPackage.
Proof.
  unfold rewritePackageDeclaration. rewrite no_dollar.
  unfold packageDeclMatchString.
  destruct (packageDeclScan None src) as [m |] eqn:Em.
  - eexists. split; [reflexivity |]. apply extractPackage_found.
    apply packageDeclScan_replaced. now rewrite Em.
  - eexists. split; [reflexivity |]. apply extractPackage_found.
    change (bytes "package " ++ newPackage ++ ["010"; "010"] ++ src)
      with (declarationOf newPackage ++ ["010"; "010"] ++ src).
    apply packageDeclScan_head; [reflexivity | now apply packageDeclAt_declaration].
Qed.

Lemma rewrite_twice (src out : buffer) :
  rewritePackageDeclaration src newPackage = Some out ->
  rewritePackageDeclaration out newPackage = Some out.
Proof.
  unfold rewritePackageDeclaration. rewrite no_dollar.
  unfold packageDeclMatchString.
  destruct (packageDeclScan None src) as [m |] eqn:Em; intros H.
  - injection H as <-. rewrite packageDeclScan_replaced by now rewrite Em.
    f_equal. now apply (packageDeclReplaceAll_twice (length src)).
  - assert (Eo : out = declarationOf newPackage ++ ["010"; "010"] ++ src)
      by (injection H as <-; reflexivity).
    clear H. rewrite Eo. clear Eo out.
    assert (ER : packageDeclAt (declarationOf newPackage ++ ["010"; "010"] ++ src)
                 = Some (declarationOf newPackage))
      by now apply packageDeclAt_declaration.
    rewrite (packageDeclScan_head None _ _ eq_refl ER). f_equal.
    rewrite (packageDeclReplaceAll_here _ None _ _ eq_refl ER). f_equal.
    destruct (match_last None _ _ ER) as (rest' & _ & Hlast & _).
    assert (Enone : forall (s : buffer) (prev : option ascii),
               packageDeclScan prev s = None ->
               packageDeclReplaceAll (declarationOf newPackage) 0 prev s = s).
    { induction s as [| c r IH]; intros prev Hs; [reflexivity |].
      cbn [packageDeclScan] in Hs.
      destruct (packageDeclHere prev (c :: r)) eqn:Eh; [discriminate |].
      rewrite (packageDeclReplaceAll_copy _ _ _ _ Eh). f_equal. now apply IH. }
    change (["010"; "010"] ++ src) with ("010" :: "010" :: src).
    rewrite (packageDeclReplaceAll_copy _ "010" ("010" :: src) _
               (packageDeclHere_inside _ _ Hlast)).
    assert (Eh : packageDeclHere (Some "010") ("010" :: src) = None) by reflexivity.
    rewrite (packageDeclReplaceAll_copy _ _ _ _ Eh).
    fold (declarationOf newPackage). rewrite (Enone src (Some "010")); [reflexivity |].
    destruct src as [| c r]; [reflexivity |].
    cbn [packageDeclScan] in Em |- *. exact Em.
Qed.

End Declared.

Lemma joinDot_chars (parts : list buffer) :
  forallb ValidateIdentifier parts = true ->
  forallb isPkgChar (joinDot parts) = true.
Proof.
  induction parts as [| p ps IH]; intros Hall; [reflexivity |].
  simpl in Hall. apply andb_true_iff in Hall. destruct Hall as [Hp Hps].
  assert (Hc : forallb isPkgChar p = true).
  { destruct (ValidateIdentifier_run _ Hp) as [_ Hid].
    rewrite forallb_forall in *. intros c Hin. unfold isPkgChar.
    now rewrite (Hid c Hin). }
  destruct ps as [| q qs]; [exact Hc |].
  change (joinDot (p :: q :: qs)) with (p ++ "." :: joinDot (q :: qs)).
  rewrite forallb_app, Hc. cbn [andb forallb].
  change (isPkgChar ".") with true. cbn [andb]. now apply IH.
Qed.

Lemma valid_package_chars (pkg : buffer) :
  isValidPackageName pkg = true ->
  pkg <> [] /\ forallb isPkgChar pkg = true.
Proof.
  intros Hv. split.
  - intros ->. discriminate.
  - apply valid_package_name_parts in Hv. destruct Hv as (parts & _ & -> & Hall).
    now apply joinDot_chars.
Qed.

(** X18. A package name is accepted exactly when it is a dot-separated,
    non-empty list of names that [ValidateIdentifier] accepts: the check of
    the move command and the check of the rename command agree segment by
    segment, so an accepted name is never empty and holds only letters,
    digits, underscores and dots. *)
Theorem valid_package_name_iff (pkg : buffer) :
  (isValidPackageName pkg = true
   <-> exists parts : list buffer,
         parts <> [] /\ pkg = joinDot parts
         /\ forallb ValidateIdentifier parts = true)
  /\ (isValidPackageName pkg = true -> pkg <> [] /\ forallb isPkgChar pkg = true).
Proof. split; [apply valid_package_name_parts | apply valid_package_chars]. Qed.

Lemma valid_package_name_iff_witness :
  bytes "com.example.util" <> [] /\ forallb isPkgChar (bytes "com.example.util") = true.
Proof.
  apply (proj2 (valid_package_name_iff (bytes "com.example.util"))). reflexivity.
Defined.

(** X19. After the rewrite the file declares the new package: for a name
    that [isValidPackageName] accepts, [rewritePackageDeclaration] returns a
    text from which [extractPackage] reads that name, whether the source
    had a declaration, several, or none. *)
Theorem declared_package_is_new (src newPackage : buffer) :
  isValidPackageName newPackage = true ->
  exists out : buffer,
    rewritePackageDeclaration src newPackage = Some out
    /\ extractPackage out = newPackage.
Proof.
  intros Hv. destruct (valid_package_chars _ Hv) as [Hne Hch].
  now apply rewrite_then_extract.
Qed.

Lemma declared_package_is_new_witness :
  exists out : buffer,
    rewritePackageDeclaration
      (bytes "// header" ++ ["010"] ++ bytes "package  com.old.pkg" ++ ["010"]
       ++ bytes "class A")
      (bytes "org.example.util") = Some out
    /\ extractPackage out = bytes "org.example.util".
Proof.
  apply (declared_package_is_new
           (bytes "// header" ++ ["010"] ++ bytes "package  com.old.pkg" ++ ["010"]
            ++ bytes "class A")
           (bytes "org.example.util")).
  reflexivity.
Defined.

(** X20. Rewriting the declaration a second time to the same package
    changes nothing: for a name that [isValidPackageName] accepts, the
    output of [rewritePackageDeclaration] is a fixed point of it. *)
Theorem declaration_rewrite_idempotent (src newPackage out : buffer) :
  isValidPackageName newPackage = true ->
  rewritePackageDeclaration src newPackage = Some out ->
  rewritePackageDeclaration out newPackage = Some out.
Proof.
  intros Hv. destruct (valid_package_chars _ Hv) as [Hne Hch].
  now apply rewrite_twice.
Qed.

Lemma declaration_rewrite_idempotent_witness :
  rewritePackageDeclaration
    (bytes "package org.example" ++ ["010"; "010"] ++ bytes "class A")
    (bytes "org.example")
  = Some (bytes "package org.example" ++ ["010"; "010"] ++ bytes "class A").
Proof.
  apply (declaration_rewrite_idempotent (bytes "class A") (bytes "org.example")
           (bytes "package org.example" ++ ["010"; "010"] ++ bytes "class A")).
  - reflexivity.
  - reflexivity.
Defined.
